(** * Blixchain pool coordinator: round coordination and consensus validation

    A shallow embedding of the coordinator ([src/server/index.js]), of the
    helpers it calls ([shared/crypto.js], [shared/wallet.js],
    [shared/protocol.js]) and of the nonce search of the mining client
    ([client/miner.js]), followed by the properties of the design document
    that were checked against it and by further properties of the code.

    Conventions of the embedding:
    - JavaScript strings are [string]s, read as their UTF-8 bytes (what
      [crypto]'s [update] hashes);
    - a finite JavaScript number is the rational it denotes ([Q]); the
      integer-valued ones (chain length, [Date.now()], the difficulty) are
      [Z].  The quotient and the products of the difficulty adjuster and the
      running sum of the supply are rounded to double precision; rewards are
      powers of two times 50 and are exact;
    - values that arrive as JSON are [json]; a missing property
      ([undefined]) is [None];
    - every handler returns the new state, the messages it emitted, and
      whether it ended by throwing. *)

From Stdlib Require Import ZArith QArith Qround Qminmax Qpower List String Ascii Bool.
From Stdlib Require Import Lia Lqa.
From Stdlib Require Import DecimalString.
Import ListNotations.
Open Scope string_scope.
Open Scope list_scope.
Open Scope Z_scope.

(* ================================================================= *)
(** ** SHA-256 (Node's [crypto.createHash('sha256')]) *)

Module SHA256.

Definition w32 (x : Z) : Z := x mod 2 ^ 32.
Definition add32 (x y : Z) : Z := w32 (x + y).
Definition rotr (n x : Z) : Z :=
  Z.lor (Z.shiftr x n) (w32 (Z.shiftl x (32 - n))).
Definition not32 (x : Z) : Z := Z.lxor x (2 ^ 32 - 1).

Definition Ch (x y z : Z) : Z :=
  Z.lxor (Z.land x y) (Z.land (not32 x) z).
Definition Maj (x y z : Z) : Z :=
  Z.lxor (Z.lxor (Z.land x y) (Z.land x z)) (Z.land y z).
Definition Sigma0 (x : Z) : Z :=
  Z.lxor (Z.lxor (rotr 2 x) (rotr 13 x)) (rotr 22 x).
Definition Sigma1 (x : Z) : Z :=
  Z.lxor (Z.lxor (rotr 6 x) (rotr 11 x)) (rotr 25 x).
Definition sigma0 (x : Z) : Z :=
  Z.lxor (Z.lxor (rotr 7 x) (rotr 18 x)) (Z.shiftr x 3).
Definition sigma1 (x : Z) : Z :=
  Z.lxor (Z.lxor (rotr 17 x) (rotr 19 x)) (Z.shiftr x 10).

(** The constants are those of FIPS 180-4: the first 32 bits of the fractional
    parts of the cube roots (round constants) and of the square roots (initial
    hash value) of the first primes. *)
Definition is_prime (n : nat) : bool :=
  forallb (fun d => negb (Nat.eqb (n mod d) 0)) (seq 2 (n - 2)).

Definition primes : list Z := map Z.of_nat (filter is_prime (seq 2 310)).

(** Integer part of the [k]-th root of [n < 2^(35 k)], found bit by bit. *)
Definition iroot (k n : Z) : Z :=
  fold_left (fun r b => let c := r + 2 ^ Z.of_nat b in
                        if c ^ k <=? n then c else r)
            (rev (seq 0 35)) 0.

Definition root_fraction (k p : Z) : Z := iroot k (p * 2 ^ (32 * k)) mod 2 ^ 32.

Definition K : list Z := Eval vm_compute in map (root_fraction 3) primes.

Definition H0 : list Z := Eval vm_compute in map (root_fraction 2) (firstn 8 primes).

(** Padding: a [0x80] byte, zeros up to 56 modulo 64, then the bit length
    on 8 big-endian bytes. *)
Definition be_bytes (n : nat) (x : Z) : list Z :=
  map (fun i => Z.shiftr x (8 * Z.of_nat i) mod 256) (rev (seq 0 n)).

Definition pad (msg : list Z) : list Z :=
  let len := Z.of_nat (List.length msg) in
  let zeros := Z.to_nat ((55 - len) mod 64) in
  msg ++ [0x80] ++ repeat 0 zeros ++ be_bytes 8 (8 * len).

Fixpoint be_words (fuel : nat) (bs : list Z) : list Z :=
  match fuel, bs with
  | S f, b0 :: b1 :: b2 :: b3 :: rest =>
      (b0 * 2 ^ 24 + b1 * 2 ^ 16 + b2 * 2 ^ 8 + b3) :: be_words f rest
  | _, _ => []
  end.

(** The message schedule, held newest word first. *)
Fixpoint schedule (n : nat) (w : list Z) : list Z :=
  match n with
  | O => w
  | S n' =>
      let x := add32 (add32 (sigma1 (nth 1 w 0)) (nth 6 w 0))
                     (add32 (sigma0 (nth 14 w 0)) (nth 15 w 0)) in
      schedule n' (x :: w)
  end.

Definition round (st : list Z) (kw : Z * Z) : list Z :=
  match st with
  | [a; b; c; d; e; f; g; h] =>
      let t1 := add32 (add32 (add32 h (Sigma1 e)) (add32 (Ch e f g) (fst kw)))
                      (snd kw) in
      let t2 := add32 (Sigma0 a) (Maj a b c) in
      [add32 t1 t2; a; b; c; add32 d t1; e; f; g]
  | _ => st
  end.

Definition compress (h : list Z) (block : list Z) : list Z :=
  let w := rev (schedule 48 (rev block)) in
  let st := fold_left round (combine K w) h in
  map (fun p => add32 (fst p) (snd p)) (combine h st).

Fixpoint blocks (fuel : nat) (h : list Z) (ws : list Z) : list Z :=
  match fuel with
  | O => h
  | S f =>
      match ws with
      | [] => h
      | _ => blocks f (compress h (firstn 16 ws)) (skipn 16 ws)
      end
  end.

(** The 32 digest bytes of a byte message. *)
Definition digest (msg : list Z) : list Z :=
  let p := pad msg in
  let ws := be_words (List.length p) p in
  flat_map (be_bytes 4) (blocks (List.length ws) H0 ws).

End SHA256.

(* ================================================================= *)
(** ** Bytes, hexadecimal text and [BigInt] *)

Definition bytes_of_string (s : string) : list Z :=
  map (fun c => Z.of_N (N_of_ascii c)) (list_ascii_of_string s).

Definition hex_digit (n : Z) : ascii :=
  nth (Z.to_nat (n mod 16))
      (list_ascii_of_string "0123456789abcdef") "0"%char.

Fixpoint hex_of_bytes (bs : list Z) : string :=
  match bs with
  | [] => EmptyString
  | b :: rest => String (hex_digit (b / 16)) (String (hex_digit b) (hex_of_bytes rest))
  end.

(** Value of one hexadecimal digit, either case. *)
Definition hex_value (c : ascii) : option Z :=
  let n := Z.of_N (N_of_ascii c) in
  if (48 <=? n) && (n <=? 57) then Some (n - 48)
  else if (97 <=? n) && (n <=? 102) then Some (n - 87)
  else if (65 <=? n) && (n <=? 70) then Some (n - 55)
  else None.

Fixpoint hex_fold (acc : Z) (s : string) : option Z :=
  match s with
  | EmptyString => Some acc
  | String c rest =>
      match hex_value c with
      | Some d => hex_fold (acc * 16 + d) rest
      | None => None
      end
  end.

(** [BigInt('0x' + h)]: [None] is the [SyntaxError] thrown when [h] is empty
    or holds a character that is not a hexadecimal digit. *)
Definition BigInt_hex (h : string) : option Z :=
  match h with
  | EmptyString => None
  | _ => hex_fold 0 h
  end.

(* ================================================================= *)
(** ** [shared/crypto.js]: hashing *)

Definition sha256 (data : string) : string :=
  hex_of_bytes (SHA256.digest (bytes_of_string data)).

Definition doubleSha256 (data : string) : string :=
  hex_of_bytes (SHA256.digest (SHA256.digest (bytes_of_string data))).


(* ================================================================= *)
(** ** JSON values and [JSON.stringify] *)

(** What [JSON.parse] and [express.json()] hand to the handlers.  [JNum q] is
    a finite number, [q] being its exact value; [JInfinity] is what a literal
    beyond the range of a double ([1e999], [-1e999]) is parsed to.  [JObj]
    lists the properties of an object, each name once. *)
#[local] Set Warnings "-register-all".
Inductive json : Type :=
| JNull
| JBool (b : bool)
| JNum (q : Q)
| JInfinity (negative : bool)
| JStr (s : string)
| JArr (items : list json)
| JObj (props : list (string * json)).

Fixpoint lookup {A : Type} (k : string) (ps : list (string * A)) : option A :=
  match ps with
  | [] => None
  | (k', v) :: rest => if String.eqb k k' then Some v else lookup k rest
  end.

(** [v.k] for the property names the coordinator reads; [None] is
    [undefined].  Only plain objects carry such properties. *)
Definition get (v : json) (k : string) : option json :=
  match v with
  | JObj ps => lookup k ps
  | _ => None
  end.

(** [o.k = v]: overwrite in place, or append a new property. *)
Fixpoint set_prop (ps : list (string * json)) (k : string) (v : json)
  : list (string * json) :=
  match ps with
  | [] => [(k, v)]
  | (k', v') :: rest =>
      if String.eqb k k' then (k, v) :: rest else (k', v') :: set_prop rest k v
  end.

(** Truthiness, [typeof] and [Number.isInteger]. *)
Definition truthy (v : option json) : bool :=
  match v with
  | None | Some JNull => false
  | Some (JBool b) => b
  | Some (JNum q) => negb (Qeq_bool q 0)
  | Some (JInfinity _) => true
  | Some (JStr s) => negb (String.eqb s EmptyString)
  | Some (JArr _) | Some (JObj _) => true
  end.

Definition typeof_object (v : option json) : bool :=
  match v with
  | Some JNull | Some (JArr _) | Some (JObj _) => true
  | _ => false
  end.

Definition isInteger (q : Q) : bool := Qeq_bool q (inject_Z (Qfloor q)).

Fixpoint join (sep : string) (l : list string) : string :=
  match l with
  | [] => EmptyString
  | [x] => x
  | x :: rest => x ++ sep ++ join sep rest
  end.

(** String literals of [JSON.stringify]: the quote, the backslash and the
    control characters are escaped. *)
Definition dquote : string := String (ascii_of_nat 34) EmptyString.

Definition escape_char (c : ascii) : string :=
  let n := Z.of_N (N_of_ascii c) in
  if n =? 34 then "\" ++ dquote
  else if n =? 92 then "\\"
  else if n =? 8 then "\b"
  else if n =? 9 then "\t"
  else if n =? 10 then "\n"
  else if n =? 12 then "\f"
  else if n =? 13 then "\r"
  else if n <? 32 then "\u00" ++ String (hex_digit (n / 16)) (String (hex_digit n) EmptyString)
  else String c EmptyString.

Fixpoint escape (s : string) : string :=
  match s with
  | EmptyString => EmptyString
  | String c rest => escape_char c ++ escape rest
  end.

Definition quote (s : string) : string := dquote ++ escape s ++ dquote.

(** Objects the coordinator builds itself may hold [undefined] properties,
    which [JSON.stringify] leaves out. *)
Fixpoint object_of (fields : list (string * option json)) : json :=
  match fields with
  | [] => JObj []
  | (k, Some v) :: rest =>
      match object_of rest with
      | JObj ps => JObj ((k, v) :: ps)
      | other => other
      end
  | (_, None) :: rest => object_of rest
  end.

(** Decimal text of an integer-valued number, as [Number.prototype.toString]
    prints it below [10^21]; the instance used to run the model on traces
    whose numbers are all integers. *)
Definition Number_toString_integer (q : Q) : string :=
  NilZero.string_of_int (Z.to_int (Qfloor q)).

(* ================================================================= *)
(** ** Double precision *)

(** A finite JavaScript number is kept as the rational it denotes.  The
    result of an arithmetic operation is the double nearest to the exact
    result, ties going to the even significand: [double] of it.  The exponent
    range is not modelled: there is no overflow to [Infinity] and no loss of
    precision near zero, which the products of the difficulty adjuster reach
    only if [Math.pow] returns a value beyond [10^100] or below [10^-150],
    and the supply only after more blocks than an array holds. *)

(** [floor (log2 |x|)] for [x <> 0] *)
Definition binade (x : Q) : Z :=
  let n := Z.abs (Qnum x) in
  let d := Zpos (Qden x) in
  let k := Z.log2 n - Z.log2 d in
  if 0 <=? k
  then if d * 2 ^ k <=? n then k else k - 1
  else if d <=? n * 2 ^ (- k) then k else k - 1.

(** [x * 2^k] *)
Definition scaled (x : Q) (k : Z) : Q :=
  if 0 <=? k then x * inject_Z (2 ^ k) else x / inject_Z (2 ^ (- k)).

(** The integer nearest to [x], the even one of two that are equally near. *)
Definition nearest_even (x : Q) : Z :=
  let below := Qfloor x in
  match (x - inject_Z below ?= 1 # 2)%Q with
  | Lt => below
  | Gt => below + 1
  | Eq => if Z.even below then below else below + 1
  end.

(** The nearest number with a significand of 53 bits. *)
Definition double (x : Q) : Q :=
  if Qeq_bool x 0 then 0
  else
    let e := binade x in
    Qred (scaled (inject_Z (nearest_even (scaled x (52 - e)))) (e - 52)).

(* ================================================================= *)
(** ** [shared/protocol.js]: constants *)

Module PROTOCOL.
Definition MIN_POOL_SIZE : nat := 2.
Definition TARGET_BLOCK_TIME_MS : Z := 360000.
Definition DIFFICULTY_ADJUSTMENT_BLOCKS : nat := 10.
Definition INITIAL_BLOCK_REWARD : Q := 50.
Definition HALVING_INTERVAL : Z := 210000.
Definition DECIMALS : Z := 8.
Definition MIN_TRANSACTION_FEE : Q := 1 # 10000.
Definition MAX_TRANSACTIONS_PER_BLOCK : nat := 500.
End PROTOCOL.

Definition MAX_PENDING_TRANSACTIONS : Z := 10000.

(* ================================================================= *)
(** ** [shared/wallet.js]: address format and signature check *)

Definition ADDRESS_PREFIX : string := "BLX".

Definition is_hex_char (c : ascii) : bool :=
  match hex_value c with Some _ => true | None => false end.

(** [/^[0-9A-F]+$/i.test(s)] *)
Definition hex_test (s : string) : bool :=
  negb (String.eqb s EmptyString) && forallb is_hex_char (list_ascii_of_string s).

Definition isValidAddress (address : option json) : bool :=
  match address with
  | Some (JStr a) =>
      if String.eqb a EmptyString then false
      else if negb (String.prefix ADDRESS_PREFIX a) then false
      else if negb (Nat.eqb (String.length a) (String.length ADDRESS_PREFIX + 32)) then false
      else hex_test (String.substring (String.length ADDRESS_PREFIX)
                                      (String.length a - String.length ADDRESS_PREFIX) a)
  | _ => false
  end.

(** [verify]: the signature object must carry the hex SHA-256 of the message
    as [messageHash]; the public key is decoded and then ignored. *)
Definition verify (message : string) (signature : json) (publicKeyHex : string) : bool :=
  match get signature "messageHash" with
  | Some (JStr h) => String.eqb h (sha256 message)
  | _ => false
  end.

(* ================================================================= *)
(** ** Ledger data *)

(** An admitted transaction: the request body and the id assigned to it by
    [tx.id = sha256(...)]. *)
Record Transaction := mkTransaction {
  tx_body : json;
  tx_id : string
}.

(** The JavaScript object behind an admitted transaction. *)
Definition tx_object (t : Transaction) : json :=
  match tx_body t with
  | JObj ps => JObj (set_prop ps "id" (JStr (tx_id t)))
  | other => other
  end.

Record BlockTemplate := mkBlockTemplate {
  t_index : Z;
  t_timestamp : Z;
  t_previousHash : string;
  t_merkleRoot : string;
  t_difficulty : Z;
  t_transactions : list Transaction;
  t_reward : Q
}.

(** [nonce] and [miner] are whatever the submitter sent; the genesis block has
    no [reward] property. *)
Record Block := mkBlock {
  b_index : Z;
  b_timestamp : Z;
  b_previousHash : string;
  b_merkleRoot : string;
  b_nonce : option json;
  b_difficulty : Z;
  b_miner : option json;
  b_transactions : list Transaction;
  b_reward : option Q;
  b_hash : string
}.

Record MiningChallenge := mkMiningChallenge {
  blockTemplate : BlockTemplate;
  startedAt : Z;
  c_difficulty : Z
}.

(** [calculateTarget]: the 256-bit maximum divided by the difficulty, the
    difficulty being floored and raised to 1 first. *)
Definition maxTarget : Z := 2 ^ 256 - 1.

Definition calculateTarget (difficulty : Q) : Z :=
  maxTarget / Z.max 1 (Qfloor difficulty).

(** [hashMeetsTarget]; [None] when [BigInt] throws. *)
Definition hashMeetsTarget (hash : string) (difficulty : Q) : option bool :=
  match BigInt_hex hash with
  | Some hashValue => Some (hashValue <? calculateTarget difficulty)
  | None => None
  end.

(** One pass of the [for] loop of [calculateMerkleRoot]: neighbours are hashed
    together, [hashes[i + 1] || left] standing in for a missing (or empty)
    right neighbour [r]. *)
Fixpoint merkle_level (hashes : list string) : list string :=
  match hashes with
  | [] => []
  | [l] => [sha256 (l ++ l)]
  | l :: r :: rest =>
      sha256 (l ++ (if String.eqb r EmptyString then l else r))
        :: merkle_level rest
  end.

(** [while (hashes.length > 1)]; the fuel bounds the number of passes. *)
Fixpoint merkle_loop (fuel : nat) (hashes : list string) : list string :=
  match fuel with
  | O => hashes
  | S fuel' =>
      if (1 <? List.length hashes)%nat
      then merkle_loop fuel' (merkle_level hashes)
      else hashes
  end.

(* ================================================================= *)
(** ** Messages sent by the coordinator *)

Inductive Message : Type :=
| error (message : string)
| pool_joined (walletAddress : string) (poolSize : nat) (canMine : bool)
| pool_updated (connected : nat) (canMine : option bool)
| challenge_new (template : BlockTemplate) (difficulty : Z) (target : Z)
| block_mined (block : Block) (miner : option json)
| solution_rejected (reason : string)
| transaction_new (tx : Transaction).

(** [ws.send], [this.broadcast] and the HTTP reply
    [res.status(status).json({success, message | transactionId})]. *)
Inductive Output : Type :=
| send (ws : nat) (m : Message)
| broadcast (m : Message)
| respond (status : Z) (success : bool) (text : string).

(** The readings of [Date.now()] taken while one event is handled. *)
Record Clock := mkClock {
  joinedNow : Z;
  adjustNow : Z;
  templateNow : Z;
  startedNow : Z
}.

(* ================================================================= *)
(** ** Coordinator state *)

Record ServerState := mkState {
  connectedWallets : list (string * (nat * Z));
  pendingTransactions : list Transaction;
  processedTxIds : list string;
  chain : list Block;
  currentChallenge : option MiningChallenge;
  miningInProgress : bool;
  genesisTime : Z;
  totalSupply : Q;
  difficulty : Z;
  (** the [walletAddress] variable captured by each connection's callbacks *)
  sockets : list (nat * string);
  (** [startMiningRound] callbacks scheduled with [setTimeout] *)
  timers : nat
}.

Definition with_connectedWallets v s :=
  mkState v (pendingTransactions s) (processedTxIds s) (chain s)
          (currentChallenge s) (miningInProgress s) (genesisTime s)
          (totalSupply s) (difficulty s) (sockets s) (timers s).
Definition with_pool pending processed s :=
  mkState (connectedWallets s) pending processed (chain s)
          (currentChallenge s) (miningInProgress s) (genesisTime s)
          (totalSupply s) (difficulty s) (sockets s) (timers s).
Definition with_chain c supply s :=
  mkState (connectedWallets s) (pendingTransactions s) (processedTxIds s) c
          (currentChallenge s) (miningInProgress s) (genesisTime s)
          supply (difficulty s) (sockets s) (timers s).
Definition with_round ch mining s :=
  mkState (connectedWallets s) (pendingTransactions s) (processedTxIds s)
          (chain s) ch mining (genesisTime s)
          (totalSupply s) (difficulty s) (sockets s) (timers s).
Definition with_difficulty d s :=
  mkState (connectedWallets s) (pendingTransactions s) (processedTxIds s)
          (chain s) (currentChallenge s) (miningInProgress s) (genesisTime s)
          (totalSupply s) d (sockets s) (timers s).
Definition with_sockets v s :=
  mkState (connectedWallets s) (pendingTransactions s) (processedTxIds s)
          (chain s) (currentChallenge s) (miningInProgress s) (genesisTime s)
          (totalSupply s) (difficulty s) v (timers s).
Definition with_timers n s :=
  mkState (connectedWallets s) (pendingTransactions s) (processedTxIds s)
          (chain s) (currentChallenge s) (miningInProgress s) (genesisTime s)
          (totalSupply s) (difficulty s) (sockets s) n.

(** What a handler leaves behind: the state, the messages emitted, and
    whether it ended with an exception. *)
Record Result := mkResult {
  st : ServerState;
  out : list Output;
  threw : bool
}.

Definition done (s : ServerState) (o : list Output) : Result := mkResult s o false.
Definition throw (s : ServerState) (o : list Output) : Result := mkResult s o true.

(** [Map] and [Set] operations on the insertion-ordered containers. *)
Definition has {A : Type} (k : string) (m : list (string * A)) : bool :=
  existsb (fun p => String.eqb k (fst p)) m.
Definition delete {A : Type} (k : string) (m : list (string * A)) : list (string * A) :=
  filter (fun p => negb (String.eqb k (fst p))) m.
Definition includes (ids : list string) (x : string) : bool :=
  existsb (String.eqb x) ids.
Definition add (x : string) (ids : list string) : list string :=
  if includes ids x then ids else ids ++ [x].

Fixpoint lookup_socket (ws : nat) (m : list (nat * string)) : option string :=
  match m with
  | [] => None
  | (ws', a) :: rest => if Nat.eqb ws ws' then Some a else lookup_socket ws rest
  end.

(* ================================================================= *)
(** ** The coordinator *)

Section Coordinator.

(** Two library functions are left abstract: the decimal text of a number
    inside [JSON.stringify], and [Math.pow] at the real exponents of the
    difficulty growth factors. *)
Variable Number_toString : Q -> string.
Variable Math_pow : Q -> Q -> Q.

Fixpoint JSON_stringify (v : json) : string :=
  match v with
  | JNull => "null"
  | JBool true => "true"
  | JBool false => "false"
  | JNum q => Number_toString q
  | JInfinity _ => "null"
  | JStr s => quote s
  | JArr items => "[" ++ join "," (map JSON_stringify items) ++ "]"
  | JObj props =>
      "{" ++ join "," (map (fun p => (quote (fst p) ++ ":" ++ JSON_stringify (snd p))%string)
                            props)
          ++ "}"
  end.

(** *** [shared/crypto.js] *)

Definition calculateMerkleRoot (transactions : list json) : string :=
  match transactions with
  | [] => sha256 "empty"
  | _ =>
      let hashes :=
        map (fun tx => sha256 (match tx with
                               | JStr s => s
                               | _ => JSON_stringify tx
                               end)) transactions in
      hd EmptyString (merkle_loop (List.length hashes) hashes)
  end.

Definition header (block : Block) : json :=
  object_of
    [ ("index", Some (JNum (inject_Z (b_index block))));
      ("timestamp", Some (JNum (inject_Z (b_timestamp block))));
      ("previousHash", Some (JStr (b_previousHash block)));
      ("merkleRoot", Some (JStr (b_merkleRoot block)));
      ("nonce", b_nonce block);
      ("difficulty", Some (JNum (inject_Z (b_difficulty block)))) ].

Definition calculateBlockHash (block : Block) : string :=
  doubleSha256 (JSON_stringify (header block)).

(** *** Construction *)

Definition createGenesisBlock (s : ServerState) : ServerState :=
  let genesis :=
    mkBlock 0 (genesisTime s)
            "0000000000000000000000000000000000000000000000000000000000000000"
            (sha256 "genesis") (Some (JNum 0)) 1 (Some (JStr "BLIX_GENESIS"))
            [] None EmptyString in
  let genesis :=
    mkBlock (b_index genesis) (b_timestamp genesis) (b_previousHash genesis)
            (b_merkleRoot genesis) (b_nonce genesis) (b_difficulty genesis)
            (b_miner genesis) (b_transactions genesis) (b_reward genesis)
            (calculateBlockHash genesis) in
  with_chain (chain s ++ [genesis]) (totalSupply s) s.

(** [new BlixnodeServer(port)], [now] being the reading of [Date.now()]. *)
Definition constructor (now : Z) : ServerState :=
  createGenesisBlock (mkState [] [] [] [] None false now 0%Q 1 [] 0).

(** *** Transaction admission *)

Record Validation := mkValidation { valid : bool; reason : string }.

Definition payload (tx : json) : json :=
  object_of
    [ ("sender", get tx "sender"); ("recipient", get tx "recipient");
      ("amount", get tx "amount"); ("fee", get tx "fee");
      ("nonce", get tx "nonce"); ("timestamp", get tx "timestamp") ].

Definition invalid (why : string) : Validation := mkValidation false why.

(** Of the four numeric fields, an infinite [amount] fails
    [Number.isFinite] (or is [<= 0]) and an infinite [nonce] fails
    [Number.isInteger]; [fee] and [timestamp] are only compared, so that
    [Infinity] passes and [-Infinity] does not. *)
Definition validateTransaction (tx : json) : Validation :=
  if negb (truthy (Some tx)) || negb (typeof_object (Some tx))
  then invalid "Transaction must be an object"
  else if negb (truthy (get tx "sender")) || negb (truthy (get tx "recipient"))
          || match get tx "amount" with None => true | Some _ => false end
  then invalid "Missing required fields: sender, recipient, amount"
  else if negb (isValidAddress (get tx "sender"))
  then invalid "Invalid sender address format"
  else if negb (isValidAddress (get tx "recipient"))
  then invalid "Invalid recipient address format"
  else if match get tx "amount" with
          | Some (JNum a) => Qle_bool a 0
          | Some (JInfinity _) => true
          | _ => true
          end
  then invalid "Amount must be a positive number"
  else if match get tx "fee" with
          | Some (JNum f) => negb (Qle_bool PROTOCOL.MIN_TRANSACTION_FEE f)
          | Some (JInfinity negative) => negative
          | _ => true
          end
  then invalid "Fee must be at least 0.0001"
  else if match get tx "nonce" with
          | Some (JNum n) => negb (isInteger n) || negb (Qle_bool 0 n)
          | Some (JInfinity _) => true
          | _ => true
          end
  then invalid "Nonce must be a non-negative integer"
  else if match get tx "timestamp" with
          | Some (JNum t) => Qle_bool t 0
          | Some (JInfinity negative) => negative
          | _ => true
          end
  then invalid "Timestamp must be a positive number"
  else if negb (truthy (get tx "signature")) || negb (typeof_object (get tx "signature"))
  then invalid "Transaction signature is required"
  else
    match get tx "signature", get tx "senderPublicKey" with
    | Some signature, Some (JStr senderPublicKey) =>
        if String.eqb senderPublicKey EmptyString
        then invalid "Sender public key is required"
        else if negb (verify (JSON_stringify (payload tx)) signature senderPublicKey)
        then invalid "Invalid transaction signature"
        else mkValidation true EmptyString
    | _, _ => invalid "Sender public key is required"
    end.

(** [POST /transaction/submit] *)
Definition submitTransaction (s : ServerState) (tx : json) : Result :=
  if negb (truthy (Some tx)) || negb (typeof_object (Some tx))
  then done s [respond 400 false "Invalid request body"]
  else
    let validation := validateTransaction tx in
    if negb (valid validation)
    then done s [respond 400 false
                   (if String.eqb (reason validation) EmptyString
                    then "Invalid transaction" else reason validation)]
    else
      let id := sha256 (JSON_stringify (payload tx)) in
      if includes (processedTxIds s) id
      then done s [respond 400 false
                     "Transaction already processed (possible replay attack)"]
      else if MAX_PENDING_TRANSACTIONS <=? Z.of_nat (List.length (pendingTransactions s))
      then done s [respond 503 false
                     "Transaction pool is full, please try again later"]
      else
        let t := mkTransaction tx id in
        done (with_pool (pendingTransactions s ++ [t]) (processedTxIds s) s)
             [broadcast (transaction_new t); respond 200 true id].

(** *** Rounds *)

Definition canStartMining (s : ServerState) : bool :=
  (PROTOCOL.MIN_POOL_SIZE <=? List.length (connectedWallets s))%nat.

(** [Math.max(0.5, Math.min(2, expectedTime / actualTime))], the quotient
    being rounded to a double.  The quotient of the positive [expectedTime] by
    a zero [actualTime] is [+Infinity], which [Math.min] brings down to 2. *)
Definition clampedRatio (expectedTime actualTime : Z) : Q :=
  if actualTime =? 0 then Qmax (1 # 2) 2
  else Qmax (1 # 2) (Qmin 2 (double (inject_Z expectedTime / inject_Z actualTime))).

Definition adjustDifficulty (s : ServerState) (now : Z) : ServerState :=
  if (List.length (chain s) <? PROTOCOL.DIFFICULTY_ADJUSTMENT_BLOCKS + 1)%nat
  then s
  else
    let recentBlocks :=
      skipn (List.length (chain s) - PROTOCOL.DIFFICULTY_ADJUSTMENT_BLOCKS) (chain s) in
    match nth_error recentBlocks 0,
          nth_error recentBlocks (List.length recentBlocks - 1) with
    | Some firstBlock, Some lastBlock =>
        let actualTime := b_timestamp lastBlock - b_timestamp firstBlock in
        let expectedTime :=
          PROTOCOL.TARGET_BLOCK_TIME_MS * Z.of_nat PROTOCOL.DIFFICULTY_ADJUSTMENT_BLOCKS in
        let supplyFactor :=
          Math_pow (double (10001 # 10000)) (double (totalSupply s / 1000000)) in
        let timeFactor :=
          Math_pow (double (100005 # 100000))
                   (double (inject_Z (now - genesisTime s) / 86400000)) in
        let adjustment := clampedRatio expectedTime actualTime in
        with_difficulty
          (Z.max 1 (Qfloor (double (double (double (inject_Z (difficulty s) * adjustment)
                                            * supplyFactor)
                                    * timeFactor))))
          s
    | _, _ => s
    end.

(** [INITIAL_BLOCK_REWARD / Math.pow(2, halvings)].  Powers of two are exact
    in double precision; from 1024 halvings on [Math.pow] is [Infinity] and
    the quotient is 0. *)
Definition blockRewardAt (chainLength : Z) : Q :=
  let halvings := chainLength / PROTOCOL.HALVING_INTERVAL in
  if halvings <? 1024
  then PROTOCOL.INITIAL_BLOCK_REWARD / inject_Z (2 ^ halvings)
  else 0.

Definition calculateBlockReward (s : ServerState) : Q :=
  blockRewardAt (Z.of_nat (List.length (chain s))).

Definition startMiningRound (s : ServerState) (clock : Clock) : Result :=
  if negb (canStartMining s) || miningInProgress s then done s []
  else
    let s := with_round (currentChallenge s) true s in
    let s := adjustDifficulty s (adjustNow clock) in
    match nth_error (chain s) (List.length (chain s) - 1) with
    | None => throw s []
    | Some lastBlock =>
        let blockReward := calculateBlockReward s in
        let transactions :=
          firstn PROTOCOL.MAX_TRANSACTIONS_PER_BLOCK (pendingTransactions s) in
        let template :=
          mkBlockTemplate (Z.of_nat (List.length (chain s))) (templateNow clock)
                          (b_hash lastBlock)
                          (calculateMerkleRoot (map tx_object transactions))
                          (difficulty s) transactions blockReward in
        let s :=
          with_round (Some (mkMiningChallenge template (startedNow clock) (difficulty s)))
                     (miningInProgress s) s in
        if difficulty s =? 0 then throw s []
        else done s [broadcast (challenge_new template (difficulty s)
                                              (Z.quot maxTarget (difficulty s)))]
    end.

(** [block.reward || 0] *)
Definition reward_or_0 (reward : option Q) : Q :=
  match reward with
  | Some r => if Qeq_bool r 0 then 0%Q else r
  | None => 0%Q
  end.

(** [this.totalSupply += block.reward || 0] stores the double nearest to the
    sum. *)
Definition addBlock (s : ServerState) (block : Block) : ServerState :=
  let s := with_chain (chain s ++ [block])
                      (double (totalSupply s + reward_or_0 (b_reward block))) s in
  let minedTxIds := map tx_id (b_transactions block) in
  let processed := fold_left (fun ids id => add id ids) minedTxIds (processedTxIds s) in
  let pending :=
    filter (fun tx => negb (includes minedTxIds (tx_id tx))) (pendingTransactions s) in
  let processed :=
    if 100000 <? Z.of_nat (List.length processed)
    then skipn (List.length processed - Z.to_nat 50000) processed
    else processed in
  with_pool pending processed s.

(** *** WebSocket handlers *)

Definition size {A : Type} (m : list A) : nat := List.length m.

Definition setWalletAddress (ws : nat) (addr : string) (s : ServerState) : ServerState :=
  with_sockets ((ws, addr) :: filter (fun p => negb (Nat.eqb ws (fst p))) (sockets s)) s.

Definition handlePoolJoin (s : ServerState) (ws : nat) (message : json) (clock : Clock)
  : Result :=
  let walletAddress := get message "walletAddress" in
  if negb (isValidAddress walletAddress)
  then done s [send ws (error "Invalid wallet address")]
  else
    match walletAddress with
    | Some (JStr addr) =>
        if has addr (connectedWallets s)
        then done s [send ws (error "Wallet already connected")]
        else
          let s := with_connectedWallets
                     (connectedWallets s ++ [(addr, (ws, joinedNow clock))]) s in
          let s := setWalletAddress ws addr s in
          let sent :=
            [ send ws (pool_joined addr (size (connectedWallets s)) (canStartMining s));
              broadcast (pool_updated (size (connectedWallets s))
                                      (Some (canStartMining s))) ] in
          if canStartMining s && negb (miningInProgress s)
          then let r := startMiningRound s clock in
               mkResult (st r) (sent ++ out r) (threw r)
          else done s sent
    | _ => done s [send ws (error "Invalid wallet address")]
    end.

(** [{...blockTemplate, nonce, miner: walletAddress}], its [hash] not yet
    assigned. *)
Definition candidate (t : BlockTemplate) (nonce miner : option json) : Block :=
  mkBlock (t_index t) (t_timestamp t) (t_previousHash t) (t_merkleRoot t)
          nonce (t_difficulty t) miner (t_transactions t) (Some (t_reward t))
          EmptyString.

Definition with_hash (h : string) (b : Block) : Block :=
  mkBlock (b_index b) (b_timestamp b) (b_previousHash b) (b_merkleRoot b)
          (b_nonce b) (b_difficulty b) (b_miner b) (b_transactions b)
          (b_reward b) h.

(** Whether a value can be turned into a string, as a template literal and
    [Array.prototype.join] do it.  An object is printed by the [toString] it
    inherits unless it has a property of that name of its own, which, coming
    from JSON, is no function: then the conversion ends in a [TypeError]
    ([valueOf] returns the object itself).  An array prints its elements. *)
Fixpoint printable (v : json) : bool :=
  match v with
  | JArr items => forallb printable items
  | JObj props => negb (existsb (fun p => String.eqb "toString" (fst p)) props)
  | _ => true
  end.

(** The log line [`... ${walletAddress.slice(0, 12)}...`]: a [TypeError]
    unless the value is a string, or an array whose first twelve elements can
    be printed.  (The depth at which the engine gives up on nested arrays is
    not modelled.) *)
Definition has_slice (v : option json) : bool :=
  match v with
  | Some (JStr _) => true
  | Some (JArr items) => forallb printable (firstn 12 items)
  | _ => false
  end.

Definition handleSolutionSubmit (s : ServerState) (ws : nat) (message : json) : Result :=
  let walletAddress := get message "walletAddress" in
  let nonce := get message "nonce" in
  let hash := get message "hash" in
  match currentChallenge s with
  | None => done s [send ws (error "No active challenge")]
  | Some challenge =>
      let block := candidate (blockTemplate challenge) nonce walletAddress in
      let calculatedHash := calculateBlockHash block in
      match hash with
      | Some (JStr hash) =>
          if negb (String.eqb calculatedHash hash)
          then done s [send ws (solution_rejected "Hash mismatch")]
          else
            match hashMeetsTarget hash (inject_Z (difficulty s)) with
            | None => throw s []
            | Some false =>
                done s [send ws (solution_rejected "Does not meet difficulty target")]
            | Some true =>
                let block := with_hash calculatedHash block in
                let s := addBlock s block in
                if negb (has_slice walletAddress) then throw s []
                else
                  let sent := [broadcast (block_mined block walletAddress)] in
                  let s := with_round None false s in
                  if canStartMining s
                  then done (with_timers (S (timers s)) s) sent
                  else done s sent
            end
      | _ => done s [send ws (solution_rejected "Hash mismatch")]
      end
  end.

Definition handleMessage (s : ServerState) (ws : nat) (message : json) (clock : Clock)
  : Result :=
  match get message "type" with
  | Some (JStr type) =>
      if String.eqb type "pool:join" then handlePoolJoin s ws message clock
      else if String.eqb type "solution:submit" then handleSolutionSubmit s ws message
      else done s [send ws (error "Unknown message type")]
  | _ => done s [send ws (error "Unknown message type")]
  end.

(** [ws.on('message')], past the size limit and [JSON.parse]: the [catch]
    answers any exception of the handlers with a generic error. *)
Definition onMessage (s : ServerState) (ws : nat) (message : json) (clock : Clock)
  : Result :=
  if negb (truthy (Some message)) || negb (typeof_object (Some message))
     || negb (truthy (get message "type"))
  then done s [send ws (error "Invalid message structure")]
  else
    let r := handleMessage s ws message clock in
    if threw r
    then done (st r) (out r ++ [send ws (error "Invalid message format")])
    else r.

(** [ws.on('close')] *)
Definition onClose (s : ServerState) (ws : nat) : Result :=
  match lookup_socket ws (sockets s) with
  | Some walletAddress =>
      if String.eqb walletAddress EmptyString then done s []
      else
        let s := with_connectedWallets (delete walletAddress (connectedWallets s)) s in
        let s := with_sockets (filter (fun p => negb (Nat.eqb ws (fst p))) (sockets s)) s in
        done s [broadcast (pool_updated (size (connectedWallets s)) None)]
  | None => done s []
  end.

(** A [setTimeout(() => this.startMiningRound(), 1000)] callback fires. *)
Definition onTimeout (s : ServerState) (clock : Clock) : Result :=
  match timers s with
  | O => done s []
  | S n => startMiningRound (with_timers n s) clock
  end.

(** *** Runs *)

Inductive Event : Type :=
| ws_message (ws : nat) (message : json) (clock : Clock)
| ws_close (ws : nat)
| timeout (clock : Clock)
| post_transaction (body : json).

Definition step (s : ServerState) (e : Event) : Result :=
  match e with
  | ws_message ws message clock => onMessage s ws message clock
  | ws_close ws => onClose s ws
  | timeout clock => onTimeout s clock
  | post_transaction body => submitTransaction s body
  end.

Definition run (s : ServerState) (events : list Event) : ServerState :=
  fold_left (fun s e => st (step s e)) events s.

(** The outputs of each event of a run, in order. *)
Fixpoint trace (s : ServerState) (events : list Event) : list (list Output) :=
  match events with
  | [] => []
  | e :: rest => out (step s e) :: trace (st (step s e)) rest
  end.

End Coordinator.


(* ================================================================= *)
(** ** Reference definitions used by the statements *)

(** The reward schedule as the design document writes it, without its
    minimum: [InitialReward / 2^floor(index / HALVING_INTERVAL)]. *)
Definition halvedReward (index : Z) : Q :=
  PROTOCOL.INITIAL_BLOCK_REWARD / inject_Z (2 ^ (index / PROTOCOL.HALVING_INTERVAL)).

(** The smallest unit of the token: [DECIMALS] decimal places. *)
Definition minimumUnit : Q := 1 / inject_Z (10 ^ PROTOCOL.DECIMALS).

(** The difficulty rule as the design document writes it.  [recentTimestamp k]
    is the timestamp of the k-th block from the tip. *)
Definition recentTimestamp (k : nat) (c : list Block) : Z :=
  match nth_error c (List.length c - k) with
  | Some b => b_timestamp b
  | None => 0
  end.

Definition actualTimeOf (s : ServerState) : Z :=
  recentTimestamp 1 (chain s) - recentTimestamp PROTOCOL.DIFFICULTY_ADJUSTMENT_BLOCKS (chain s).

Definition expectedTimeOf : Z :=
  PROTOCOL.TARGET_BLOCK_TIME_MS * Z.of_nat PROTOCOL.DIFFICULTY_ADJUSTMENT_BLOCKS.

(** [expectedTime / actualTime], clamped to [[0.5, 2]]. *)
Definition ratioOf (s : ServerState) : Q :=
  if actualTimeOf s =? 0 then 2
  else
    let q := (inject_Z expectedTimeOf / inject_Z (actualTimeOf s))%Q in
    if Qlt_le_dec q (1 # 2) then 1 # 2
    else if Qlt_le_dec 2 q then 2
    else q.

(** The same in double precision: the quotient is rounded before it is
    clamped. *)
Definition roundedRatioOf (s : ServerState) : Q :=
  if actualTimeOf s =? 0 then 2
  else
    let q := double (inject_Z expectedTimeOf / inject_Z (actualTimeOf s)) in
    if Qlt_le_dec q (1 # 2) then 1 # 2
    else if Qlt_le_dec 2 q then 2
    else q.

(** The difficulty the design document prescribes, its products taken in
    exact arithmetic. *)
Definition prescribedDifficulty (supplyFactor timeFactor : Q) (s : ServerState) : Z :=
  Z.max 1 (Qfloor (inject_Z (difficulty s) * ratioOf s * supplyFactor * timeFactor)).

(** The same with each quotient and product rounded to a double, from left to
    right. *)
Definition roundedDifficulty (ratio supplyFactor timeFactor : Q) (s : ServerState) : Z :=
  Z.max 1 (Qfloor (double (double (double (inject_Z (difficulty s) * ratio) * supplyFactor)
                           * timeFactor))).

(** The text whose SHA-256 is the leaf of a transaction in the Merkle tree. *)
Definition serialized (Number_toString : Q -> string) (tx : json) : string :=
  match tx with
  | JStr s => s
  | _ => JSON_stringify Number_toString tx
  end.

(** Lists of 64-character digests. *)
Definition digests (hashes : list string) : Prop :=
  Forall (fun h => String.length h = 64%nat) hashes.

(** A [solution:submit] message with the given properties ([None]: left
    out). *)
Definition submission (walletAddress nonce hash : option json) : json :=
  object_of [ ("type", Some (JStr "solution:submit"));
              ("walletAddress", walletAddress); ("nonce", nonce); ("hash", hash) ].

(** The hash the coordinator recomputes for a submission: the template of the
    round with the submitted nonce and the claimed miner. *)
Definition recomputedHash (Number_toString : Q -> string)
           (challenge : MiningChallenge) (message : json) : string :=
  calculateBlockHash Number_toString
    (candidate (blockTemplate challenge) (get message "nonce") (get message "walletAddress")).

(** The grounds on which a submission is to be rejected: no round is active,
    or the submitted hash is not the recomputed one, or the hash, read as an
    unsigned integer, is not strictly below [MAX_256BIT / difficulty]. *)
Definition groundsForRejection (Number_toString : Q -> string)
           (s : ServerState) (message : json) : Prop :=
  match currentChallenge s with
  | None => True
  | Some challenge =>
      get message "hash" <> Some (JStr (recomputedHash Number_toString challenge message))
      \/ exists hashValue,
          BigInt_hex (recomputedHash Number_toString challenge message) = Some hashValue
          /\ ~ hashValue < maxTarget / difficulty s
  end.

(** The replies that tell a submitter, and nobody else, why a solution was
    turned down. *)
Definition rejectionNotice (ws : nat) (o : list Output) : Prop :=
  o = [send ws (error "No active challenge")]
  \/ o = [send ws (solution_rejected "Hash mismatch")]
  \/ o = [send ws (solution_rejected "Does not meet difficulty target")].

(** What a submission does, path by path. *)
Inductive SubmitCase (Number_toString : Q -> string) (s : ServerState) (ws : nat) (message : json) (r : Result) : Prop :=
| no_challenge :
    currentChallenge s = None ->
    r = done s [send ws (error "No active challenge")] ->
    SubmitCase Number_toString s ws message r
| hash_mismatch challenge :
    currentChallenge s = Some challenge ->
    get message "hash" <> Some (JStr (recomputedHash Number_toString challenge message)) ->
    r = done s [send ws (solution_rejected "Hash mismatch")] ->
    SubmitCase Number_toString s ws message r
| target_missed challenge hashValue :
    currentChallenge s = Some challenge ->
    get message "hash" = Some (JStr (recomputedHash Number_toString challenge message)) ->
    BigInt_hex (recomputedHash Number_toString challenge message) = Some hashValue ->
    (hashValue <? calculateTarget (inject_Z (difficulty s))) = false ->
    r = done s [send ws (solution_rejected "Does not meet difficulty target")] ->
    SubmitCase Number_toString s ws message r
| committed_then_thrown challenge hashValue :
    currentChallenge s = Some challenge ->
    get message "hash" = Some (JStr (recomputedHash Number_toString challenge message)) ->
    BigInt_hex (recomputedHash Number_toString challenge message) = Some hashValue ->
    (hashValue <? calculateTarget (inject_Z (difficulty s))) = true ->
    has_slice (get message "walletAddress") = false ->
    r = throw (addBlock s (with_hash (recomputedHash Number_toString challenge message)
                                     (candidate (blockTemplate challenge)
                                                (get message "nonce")
                                                (get message "walletAddress")))) [] ->
    SubmitCase Number_toString s ws message r
| committed challenge hashValue :
    currentChallenge s = Some challenge ->
    get message "hash" = Some (JStr (recomputedHash Number_toString challenge message)) ->
    BigInt_hex (recomputedHash Number_toString challenge message) = Some hashValue ->
    (hashValue <? calculateTarget (inject_Z (difficulty s))) = true ->
    has_slice (get message "walletAddress") = true ->
    (let block := with_hash (recomputedHash Number_toString challenge message)
                            (candidate (blockTemplate challenge)
                                       (get message "nonce")
                                       (get message "walletAddress")) in
     let s' := with_round None false (addBlock s block) in
     r = done (if canStartMining s' then with_timers (S (timers s')) s' else s')
              [broadcast (block_mined block (get message "walletAddress"))]) ->
    SubmitCase Number_toString s ws message r.

(** A [pool:join] message for a wallet address. *)
Definition joining (walletAddress : string) : json :=
  JObj [("type", JStr "pool:join"); ("walletAddress", JStr walletAddress)].

(** Whether a handler announced a new round. *)
Definition opensRound (o : list Output) : bool :=
  existsb (fun x => match x with
                    | broadcast (challenge_new _ _ _) => true
                    | _ => false
                    end) o.

(** The part of the state that only commits may change. *)
Definition ledger (s : ServerState) : list Block * Q := (chain s, totalSupply s).

(** The reward a block counts for, a missing reward counting 0. *)
Definition rewardOf (b : Block) : Q :=
  match b_reward b with
  | Some r => r
  | None => 0
  end.

(** The sum of the rewards of a list of blocks. *)
Fixpoint sumRewards (c : list Block) : Q :=
  match c with
  | [] => 0
  | b :: rest => rewardOf b + sumRewards rest
  end.

(** The same rewards added up the way the coordinator does it: block after
    block, each sum rounded to a double. *)
Definition accumulated (c : list Block) : Q :=
  fold_left (fun total b => double (total + rewardOf b)) c 0%Q.

(** Every partial sum of the rewards is a double. *)
Definition sumsAreDoubles (c : list Block) : Prop :=
  forall k : nat, (double (sumRewards (firstn k c)) == sumRewards (firstn k c))%Q.

(** The chain invariant of the design document: every block sits at its own
    index, carries its own hash, and names the hash of the block before it. *)
Definition chainLinked (Number_toString : Q -> string) (c : list Block) : Prop :=
  forall i b,
    nth_error c i = Some b ->
    b_index b = Z.of_nat i
    /\ b_hash b = calculateBlockHash Number_toString b
    /\ forall j p, i = S j -> nth_error c j = Some p ->
                   b_previousHash b = calculateBlockHash Number_toString p.

(** A live challenge was cut for the current tip. *)
Definition templateFits (c : list Block) (round : option MiningChallenge) : Prop :=
  match round with
  | None => True
  | Some challenge =>
      t_index (blockTemplate challenge) = Z.of_nat (List.length c)
      /\ exists tip, nth_error c (List.length c - 1) = Some tip
                     /\ t_previousHash (blockTemplate challenge) = b_hash tip
  end.

Definition consistent (Number_toString : Q -> string) (s : ServerState) : Prop :=
  chain s <> []
  /\ chainLinked Number_toString (chain s)
  /\ templateFits (chain s) (currentChallenge s).

(** Events whose solution submissions name their miner by a string, as the
    client does: on these the log line of [handleSolutionSubmit] does not
    throw. *)
Definition polite (e : Event) : Prop :=
  match e with
  | ws_message _ message _ =>
      get message "type" = Some (JStr "solution:submit") ->
      exists miner, get message "walletAddress" = Some (JStr miner)
  | _ => True
  end.

(* ================================================================= *)
(** ** A concrete run *)

Module Sample.

Definition clockAt (t : Z) : Clock := mkClock t t t t.

Definition alice : string := "BLX0123456789ABCDEF0123456789ABCDEF".
Definition bob : string := "BLXabcdefabcdefabcdefabcdefabcdefab".

(** A coordinator started at time 1700000000000. *)
Definition fresh : ServerState := constructor Number_toString_integer 1700000000000.

(** Two wallets join, one and two seconds later. *)
Definition joins : list Event :=
  [ ws_message 1 (joining alice) (clockAt 1700000001000);
    ws_message 2 (joining bob) (clockAt 1700000002000) ].

(** A solution for the round opened by the second join: nonce 0 with its
    hash, and no [walletAddress] property. *)
Definition anonymousSolution : json :=
  JObj [ ("type", JStr "solution:submit");
         ("nonce", JNum 0);
         ("hash", JStr "7cfbfe9bc8ca07e87f8e59d9b8625968dea337bf1d9f33612ef41baa2f6b6d4c") ].

(** The same solution claimed by a wallet address. *)
Definition solutionBy (a : string) : json :=
  JObj [ ("type", JStr "solution:submit");
         ("walletAddress", JStr a);
         ("nonce", JNum 0);
         ("hash", JStr "7cfbfe9bc8ca07e87f8e59d9b8625968dea337bf1d9f33612ef41baa2f6b6d4c") ].

(** The round opened by the two joins. *)
Definition opened (Math_pow : Q -> Q -> Q) : ServerState :=
  run Number_toString_integer Math_pow fresh joins.

(** The anonymous solution arrives on the second socket. *)
Definition anonymousSubmit : Event :=
  ws_message 2 anonymousSolution (clockAt 1700000003000).

(** The concrete run stays below the 11 blocks from which the adjuster calls
    [Math.pow]; this stands for it where a function must be named. *)
Definition pow_unused : Q -> Q -> Q := fun _ _ => 1%Q.

(** The states the run goes through, evaluated once and for all: at the
    start, after the joins, and after the first and the second anonymous
    submission. *)
Definition freshState : ServerState := Eval vm_compute in fresh.

Definition openedState : ServerState :=
  Eval vm_compute in run Number_toString_integer pow_unused freshState joins.

Definition onceState : ServerState :=
  Eval vm_compute in
    st (step Number_toString_integer pow_unused openedState anonymousSubmit).

Definition twiceState : ServerState :=
  Eval vm_compute in
    st (step Number_toString_integer pow_unused onceState anonymousSubmit).

(** The round opened by the two joins, on another chain and supply. *)
Definition stuckRound (blocks : list Block) (supply : Q) : ServerState :=
  with_chain blocks supply openedState.

(** A coordinator whose supply is what the rewards of the blocks 1 to
    6299999 add up to, one block a round, and a block that carries the
    reward of index 6300000. *)
Definition late : ServerState :=
  with_chain (chain freshState) (352320696811075 # 16777216) freshState.

Definition lateBlock : Block :=
  mkBlock 6300000 0 EmptyString EmptyString None 1 None []
          (Some (blockRewardAt 6300000)) EmptyString.

Definition paymentFields : list (string * json) :=
  [ ("sender", JStr alice); ("recipient", JStr bob);
    ("amount", JNum 5); ("fee", JNum 1);
    ("nonce", JNum 0); ("timestamp", JNum 1700000000500) ].

(** A well-formed payment: [messageHash] is the SHA-256 of its canonical
    payload. *)
Definition payment : json :=
  JObj (paymentFields ++
        [ ("signature",
           JObj [("messageHash",
                  JStr "64e05ae97df85dad1679c65e3b01cbe9c22be9fe94cdb5d235e35434f42dac13")]);
          ("senderPublicKey", JStr "02a1b2c3") ]).

(** A coordinator at difficulty 5 whose chain holds [n] blocks mined [gap]
    milliseconds apart, to try the difficulty adjuster on. *)
Definition spaced (n : nat) (gap : Z) : ServerState :=
  mkState [] [] []
          (map (fun i => mkBlock (Z.of_nat i) (gap * Z.of_nat i) EmptyString EmptyString
                                 None 1 None [] None EmptyString)
               (seq 0 n))
          None false 0 0%Q 5 [] 0.

(** Eleven blocks 306.25 seconds apart at difficulty 49: the ten recent
    blocks span 2756250 ms. *)
Definition slow : ServerState :=
  Eval vm_compute in with_difficulty 49 (spaced 11 306250).

(** The payment as the pool holds it, and the pool after it was posted once
    and twice. *)
Definition admitted : Transaction :=
  mkTransaction payment "64e05ae97df85dad1679c65e3b01cbe9c22be9fe94cdb5d235e35434f42dac13".

Definition postedOnce : ServerState :=
  Eval vm_compute in with_pool [admitted] [] freshState.

Definition postedTwice : ServerState :=
  Eval vm_compute in with_pool [admitted; admitted] [] freshState.

(** The payment is posted, the two wallets join, and [bob] solves the round
    whose template holds the payment; then the payment is posted again. *)
Definition minedThenReplayed : list Event :=
  post_transaction payment
    :: joins
    ++ [ ws_message 2
           (JObj [ ("type", JStr "solution:submit");
                   ("walletAddress", JStr bob);
                   ("nonce", JNum 0);
                   ("hash", JStr "60d9dd72c44cd3d6f9ba1cc36a072241a2c752e1448528c5daf13d66165f5d5a") ])
           (clockAt 1700000003000);
         post_transaction payment ].

End Sample.

(* ================================================================= *)
(** ** [shared/wallet.js]: keys, addresses and signatures *)

Definition NETWORK_PREFIX : Z := 0x42.

(** The order of the secp256k1 group, as [isValidPrivateKey] spells it. *)
Definition curveOrder : Z :=
  0xfffffffffffffffffffffffffffffffebaaedce6af48a03bbfd25e8cd0364141.

(** [toUpperCase] on ASCII text (the hexadecimal text it is applied to). *)
Definition upper_char (c : ascii) : ascii :=
  let n := N_of_ascii c in
  if (97 <=? n)%N && (n <=? 122)%N then ascii_of_N (n - 32) else c.

Fixpoint toUpperCase (s : string) : string :=
  match s with
  | EmptyString => EmptyString
  | String c rest => String (upper_char c) (toUpperCase rest)
  end.

(** [Buffer.from(text, 'hex')]: pairs of hexadecimal digits are decoded until
    the first pair that is not one; a trailing single character is dropped. *)
Fixpoint Buffer_from_hex (text : string) : list Z :=
  match text with
  | String a (String b rest) =>
      match hex_value a, hex_value b with
      | Some x, Some y => (x * 16 + y) :: Buffer_from_hex rest
      | _, _ => []
      end
  | _ => []
  end.

(** [isValidPrivateKey]; [None] is the [SyntaxError] of [BigInt('0x')] on an
    empty buffer. *)
Definition isValidPrivateKey (privateKey : list Z) : option bool :=
  match BigInt_hex (hex_of_bytes privateKey) with
  | Some keyValue => Some ((0 <? keyValue) && (keyValue <? curveOrder))
  | None => None
  end.

(** [createAddress]: the network prefix and a truncated double SHA-256 of the
    public key, a four-byte checksum appended, the first 32 hexadecimal
    characters of the whole kept and upper-cased. *)
Definition createAddress (publicKey : list Z) : string :=
  let sha256Hash := SHA256.digest publicKey in
  let ripemdHash := firstn 20 (SHA256.digest sha256Hash) in
  let payload := NETWORK_PREFIX :: ripemdHash in
  let checksum := firstn 4 (SHA256.digest (SHA256.digest payload)) in
  let addressBytes := payload ++ checksum in
  let addressHash := toUpperCase (String.substring 0 32 (hex_of_bytes addressBytes)) in
  ADDRESS_PREFIX ++ addressHash.

(** [crypto.createHmac('sha256', key).update(data).digest()] *)
Definition hmac_sha256 (key data : list Z) : list Z :=
  let key := if (64 <? List.length key)%nat then SHA256.digest key else key in
  let block := key ++ repeat 0 (64 - List.length key) in
  SHA256.digest (map (Z.lxor 0x5c) block
                 ++ SHA256.digest (map (Z.lxor 0x36) block ++ data)).

(** Big-endian value of a buffer, as OpenSSL reads a private key. *)
Definition be_value (bytes : list Z) : Z :=
  fold_left (fun acc b => acc * 256 + b) bytes 0.

(** [sign]; [None] when [ecdh.setPrivateKey] refuses a key outside
    [[1, curveOrder - 1]].  The result is the object [{r, s, messageHash}]. *)
Definition sign (message privateKeyHex : string) : option json :=
  let privateKey := Buffer_from_hex privateKeyHex in
  let messageHash := SHA256.digest (bytes_of_string message) in
  if (0 <? be_value privateKey) && (be_value privateKey <? curveOrder)
  then
    let k := hmac_sha256 privateKey messageHash in
    let r := SHA256.digest (k ++ messageHash) in
    let s := SHA256.digest (r ++ privateKey ++ messageHash) in
    Some (JObj [ ("r", JStr (hex_of_bytes r));
                 ("s", JStr (hex_of_bytes s));
                 ("messageHash", JStr (hex_of_bytes messageHash)) ])
  else None.

Record Wallet := mkWallet {
  w_privateKey : string;
  w_publicKey : string;
  w_address : string;
  w_imported : bool
}.

(** How a call ends when it does not return. *)
Inductive Thrown : Type :=
| SyntaxError
| Error (message : string).

Section ImportWallet.

(** The point multiplication on secp256k1 ([crypto.createECDH]) is left
    abstract: private key bytes to the 33 bytes of the compressed public
    key. *)
Variable derivePublicKey : list Z -> list Z.

Definition importWallet (privateKeyHex : string) : Wallet + Thrown :=
  let privateKey := Buffer_from_hex privateKeyHex in
  match isValidPrivateKey privateKey with
  | None => inr SyntaxError
  | Some false => inr (Error "Invalid private key")
  | Some true =>
      let publicKey := derivePublicKey privateKey in
      let address := createAddress publicKey in
      inl (mkWallet privateKeyHex (hex_of_bytes publicKey) address true)
  end.

End ImportWallet.

(* ================================================================= *)
(** ** [client/miner.js]: the nonce search *)

Section Miner.

Variable Number_toString : Q -> string.

(** The loop of [startMining], from [nonce] upwards: the first nonce whose
    block hash meets the target is returned with that hash.  The source
    searches in batches of 1000 until it is stopped; [fuel] bounds the number
    of attempts.  The template is the one received in [challenge:new]. *)
Fixpoint mine (fuel : nat) (template : BlockTemplate) (difficulty : Z)
         (address : string) (nonce : Z) : option (Z * string) :=
  match fuel with
  | O => None
  | S fuel' =>
      let block := candidate template (Some (JNum (inject_Z nonce)))
                             (Some (JStr address)) in
      let hash := calculateBlockHash Number_toString block in
      match hashMeetsTarget hash (inject_Z difficulty) with
      | Some true => Some (nonce, hash)
      | Some false => mine fuel' template difficulty address (nonce + 1)
      | None => None
      end
  end.

(** What the client then sends: [{type, walletAddress, nonce, hash}]. *)
Definition solutionMessage (address : string) (found : Z * string) : json :=
  JObj [ ("type", JStr "solution:submit");
         ("walletAddress", JStr address);
         ("nonce", JNum (inject_Z (fst found)));
         ("hash", JStr (snd found)) ].

End Miner.

(* ================================================================= *)
(** ** Reference definitions for the further properties *)

(** The values a buffer holds. *)
Definition is_byte (b : Z) : Prop := 0 <= b < 256.

(** A number that is at least, or more than, a bound: a finite number that
    is, or [Infinity]. *)
Definition atLeast (bound : Q) (v : option json) : Prop :=
  match v with
  | Some (JNum q) => (bound <= q)%Q
  | Some (JInfinity negative) => negative = false
  | _ => False
  end.

Definition moreThan (bound : Q) (v : option json) : Prop :=
  match v with
  | Some (JNum q) => (bound < q)%Q
  | Some (JInfinity negative) => negative = false
  | _ => False
  end.

(** A transaction as [validateTransaction] wants it. *)
Definition wellFormed (Number_toString : Q -> string) (tx : json) : Prop :=
  exists sender recipient amount nonce signature publicKey,
    get tx "sender" = Some (JStr sender)
    /\ isValidAddress (Some (JStr sender)) = true
    /\ get tx "recipient" = Some (JStr recipient)
    /\ isValidAddress (Some (JStr recipient)) = true
    /\ get tx "amount" = Some (JNum amount) /\ (0 < amount)%Q
    /\ atLeast PROTOCOL.MIN_TRANSACTION_FEE (get tx "fee")
    /\ get tx "nonce" = Some (JNum nonce) /\ isInteger nonce = true /\ (0 <= nonce)%Q
    /\ moreThan 0 (get tx "timestamp")
    /\ get tx "signature" = Some signature
    /\ get signature "messageHash"
       = Some (JStr (sha256 (JSON_stringify Number_toString (payload tx))))
    /\ get tx "senderPublicKey" = Some (JStr publicKey)
    /\ publicKey <> EmptyString.

(** Transactions whose amount is a finite number and whose fee is a number,
    finite or [Infinity]. *)
Definition numericTx (t : Transaction) : Prop :=
  (exists amount, get (tx_object t) "amount" = Some (JNum amount))
  /\ atLeast PROTOCOL.MIN_TRANSACTION_FEE (get (tx_object t) "fee").

(** The round flag and the challenge go together, and a live challenge was
    cut at the current difficulty from at most 500 pending transactions, with
    a reward between 0 and the initial 50. *)
Definition roundAgrees (s : ServerState) : Prop :=
  match currentChallenge s with
  | None => miningInProgress s = false
  | Some challenge =>
      miningInProgress s = true
      /\ c_difficulty challenge = difficulty s
      /\ t_difficulty (blockTemplate challenge) = difficulty s
      /\ (List.length (t_transactions (blockTemplate challenge)) <= 500)%nat
      /\ Forall numericTx (t_transactions (blockTemplate challenge))
      /\ (0 <= t_reward (blockTemplate challenge) <= 50)%Q
  end.

(** What every state of a running coordinator satisfies. *)
Record sound (s : ServerState) : Prop := mkSound {
  sound_chain : chain s <> [];
  sound_difficulty : 1 <= difficulty s;
  sound_round : roundAgrees s;
  sound_pending : Z.of_nat (List.length (pendingTransactions s)) <= 10000;
  sound_processed : Z.of_nat (List.length (processedTxIds s)) <= 100000;
  sound_members : NoDup (map fst (connectedWallets s));
  sound_addresses :
    Forall (fun a => isValidAddress (Some (JStr a)) = true) (map fst (connectedWallets s));
  sound_pool : Forall numericTx (pendingTransactions s);
  sound_distinct : NoDup (processedTxIds s);
  sound_supply :
    (0 <= totalSupply s)%Q
    /\ (50 * (Z.of_nat (List.length (chain s)) - 1) <= 2 ^ 53 ->
        (totalSupply s <= 50 * inject_Z (Z.of_nat (List.length (chain s)) - 1))%Q)
}.

(** An address that is registered while no connection remembers it: no
    [close] will take it out of the pool. *)
Definition stranded (a : string) (s : ServerState) : Prop :=
  has a (connectedWallets s) = true
  /\ Forall (fun p => snd p <> a) (sockets s).

(* ================================================================= *)
(** * Properties *)

Arguments sha256 : simpl never.
Arguments doubleSha256 : simpl never.
Arguments JSON_stringify : simpl never.

(** ** Hashes are 64 hexadecimal digits *)

Example sha256_abc :
  sha256 "abc" = "ba7816bf8f01cfea414140de5dae2223b00361a396177a9cb410ff61f20015ad".
Proof. vm_compute. reflexivity. Qed.

Lemma round_length (state : list Z) (kw : Z * Z) :
  List.length (SHA256.round state kw) = List.length state.
Proof.
  destruct state as [|a [|b [|c [|d [|e [|f [|g [|h [|i rest]]]]]]]]]; reflexivity.
Qed.

Lemma rounds_length (kws : list (Z * Z)) :
  forall state, List.length (fold_left SHA256.round kws state) = List.length state.
Proof.
  induction kws as [|kw kws IH]; intros state; simpl.
  - reflexivity.
  - rewrite IH. apply round_length.
Qed.

Lemma compress_length (h block : list Z) :
  List.length (SHA256.compress h block) = List.length h.
Proof.
  unfold SHA256.compress.
  rewrite length_map, length_combine, rounds_length. apply Nat.min_id.
Qed.

Lemma blocks_length (fuel : nat) :
  forall h ws, List.length (SHA256.blocks fuel h ws) = List.length h.
Proof.
  induction fuel as [|fuel IH]; intros h ws; simpl.
  - reflexivity.
  - destruct ws as [|w ws']; [reflexivity|].
    rewrite IH. apply compress_length.
Qed.

Lemma digest_length (msg : list Z) : List.length (SHA256.digest msg) = 32%nat.
Proof.
  unfold SHA256.digest.
  set (words := SHA256.blocks _ _ _).
  assert (Hw : List.length words = 8%nat) by (unfold words; rewrite blocks_length; reflexivity).
  destruct words as [|a [|b [|c [|d [|e [|f [|g [|h [|i rest]]]]]]]]]; try discriminate.
  reflexivity.
Qed.

Lemma hex_of_bytes_length (bs : list Z) :
  String.length (hex_of_bytes bs) = (2 * List.length bs)%nat.
Proof.
  induction bs as [|b bs IH]; simpl; [reflexivity|]. rewrite IH. lia.
Qed.

Lemma sha256_length (data : string) : String.length (sha256 data) = 64%nat.
Proof. unfold sha256. rewrite hex_of_bytes_length, digest_length. reflexivity. Qed.

Lemma doubleSha256_length (data : string) : String.length (doubleSha256 data) = 64%nat.
Proof. unfold doubleSha256. rewrite hex_of_bytes_length, digest_length. reflexivity. Qed.

Lemma sha256_not_empty (data : string) : String.eqb (sha256 data) EmptyString = false.
Proof.
  pose proof (sha256_length data) as H.
  destruct (sha256 data); [discriminate H | reflexivity].
Qed.

Lemma hex_value_hex_digit (n : Z) : hex_value (hex_digit n) = Some (n mod 16).
Proof.
  unfold hex_digit.
  pose proof (Z.mod_pos_bound n 16 ltac:(lia)) as Hk.
  remember (n mod 16) as k eqn:Ek. clear Ek.
  assert (H : k = 0 \/ k = 1 \/ k = 2 \/ k = 3 \/ k = 4 \/ k = 5 \/ k = 6 \/ k = 7 \/
              k = 8 \/ k = 9 \/ k = 10 \/ k = 11 \/ k = 12 \/ k = 13 \/ k = 14 \/ k = 15)
    by lia.
  repeat (destruct H as [H|H]; [rewrite H; reflexivity|]).
  rewrite H; reflexivity.
Qed.

Lemma hex_fold_hex_of_bytes (bs : list Z) :
  forall acc, exists v, hex_fold acc (hex_of_bytes bs) = Some v.
Proof.
  induction bs as [|b bs IH]; intros acc; simpl.
  - eauto.
  - rewrite !hex_value_hex_digit. apply IH.
Qed.

(** [BigInt('0x' + hash)] never throws on a digest. *)
Lemma BigInt_hex_doubleSha256 (data : string) :
  exists v, BigInt_hex (doubleSha256 data) = Some v.
Proof.
  pose proof (doubleSha256_length data) as Hlen.
  unfold BigInt_hex. destruct (doubleSha256 data) eqn:E; [discriminate Hlen|].
  rewrite <- E. unfold doubleSha256. apply hex_fold_hex_of_bytes.
Qed.

(** From here on the hash functions are unfolded only by evaluation. *)
Opaque sha256 doubleSha256.

(** ** Merkle root *)

Lemma merkle_level_length :
  forall hashes, List.length (merkle_level hashes) = Nat.div2 (S (List.length hashes)).
Proof.
  assert (H : forall hashes,
             List.length (merkle_level hashes) = Nat.div2 (S (List.length hashes))
             /\ forall x, List.length (merkle_level (x :: hashes))
                          = Nat.div2 (S (S (List.length hashes)))).
  { induction hashes as [|y hashes [IH1 IH2]].
    - split; [reflexivity | intros x; reflexivity].
    - split; [apply IH2 | intros x; simpl; now rewrite IH1]. }
  intros hashes. apply H.
Qed.

(** The [while] loop of [calculateMerkleRoot] ends within the fuel it is
    given, on a single hash. *)
Lemma merkle_loop_single (fuel : nat) :
  forall hashes, hashes <> [] -> (List.length hashes <= fuel)%nat ->
                 List.length (merkle_loop fuel hashes) = 1%nat.
Proof.
  induction fuel as [|fuel IH]; intros hashes Hne Hlen.
  - destruct hashes; [congruence | simpl in Hlen; lia].
  - simpl. destruct (Nat.ltb_spec 1 (List.length hashes)) as [Hgt|Hle].
    + apply IH.
      * destruct hashes as [|x [|y rest]]; simpl in *; try lia; discriminate.
      * rewrite merkle_level_length.
        destruct hashes as [|x [|y rest]]; cbn [List.length] in *; try lia.
        pose proof (Nat.div2_decr (S (List.length rest)) (List.length rest)
                                  (Nat.le_refl _)) as Hd.
        change (Nat.div2 (S (S (S (List.length rest)))))
          with (S (Nat.div2 (S (List.length rest)))).
        lia.
    + destruct hashes as [|x [|y rest]]; simpl in *; try lia; congruence.
Qed.

Lemma merkle_level_digests : forall hashes, digests (merkle_level hashes).
Proof.
  assert (H : forall hashes,
             digests (merkle_level hashes)
             /\ forall x, digests (merkle_level (x :: hashes))).
  { induction hashes as [|y hashes [IH1 IH2]].
    - split; [constructor | intros x; constructor; [apply sha256_length | constructor]].
    - split; [apply IH2 | intros x; simpl; constructor; [apply sha256_length | exact IH1]]. }
  intros hashes. apply H.
Qed.

Lemma merkle_loop_digests (fuel : nat) :
  forall hashes, digests hashes -> digests (merkle_loop fuel hashes).
Proof.
  induction fuel as [|fuel IH]; intros hashes Hd; simpl; [exact Hd|].
  destruct (1 <? List.length hashes)%nat; [|exact Hd].
  apply IH, merkle_level_digests.
Qed.

Section MerkleRoot.

Variable Number_toString : Q -> string.

(** C4 (as amended): the Merkle root of the empty list is the SHA-256 of the
    text [empty]; the root of a single transaction [A] is its leaf hash
    [H(A)], not hashed again; the root of [[A, B]] is [H(H(A) + H(B))], [H]
    being SHA-256 over the serialized transaction. *)
Theorem calculateMerkleRoot_small (A B : json) :
  calculateMerkleRoot Number_toString [] =
    "2e1cfa82b035c26cbbbdae632cea070514eb8b773f616aaeaf668e2f0be8f10d"
  /\ calculateMerkleRoot Number_toString [A] = sha256 (serialized Number_toString A)
  /\ calculateMerkleRoot Number_toString [A; B] =
       sha256 (sha256 (serialized Number_toString A)
               ++ sha256 (serialized Number_toString B)).
Proof.
  split; [vm_compute; reflexivity|].
  split; [reflexivity|].
  unfold calculateMerkleRoot. cbv [map List.length merkle_loop Nat.ltb Nat.leb merkle_level hd].
  fold (serialized Number_toString A). fold (serialized Number_toString B).
  now rewrite sha256_not_empty.
Qed.

(** Whatever the transactions, the loop leaves exactly one hash, which is the
    root returned. *)
Lemma calculateMerkleRoot_total (transactions : list json) :
  String.length (calculateMerkleRoot Number_toString transactions) = 64%nat.
Proof.
  destruct transactions as [|tx rest]; [apply sha256_length|].
  unfold calculateMerkleRoot.
  set (hashes := map _ (tx :: rest)).
  assert (Hall : digests hashes).
  { unfold hashes, digests. apply Forall_map, Forall_forall. intros x _. apply sha256_length. }
  assert (Hne : hashes <> []) by (unfold hashes; discriminate).
  clearbody hashes.
  pose proof (merkle_loop_digests (List.length hashes) hashes Hall) as Hloop.
  pose proof (merkle_loop_single (List.length hashes) hashes Hne (Nat.le_refl _)) as H1.
  destruct (merkle_loop (List.length hashes) hashes) as [|h [|h' t]]; try discriminate.
  simpl. now inversion Hloop.
Qed.

End MerkleRoot.

(** C4 (as stated) fails on the single transaction ["a"]: its root is the
    leaf hash itself, not the hash of the leaf paired with itself. *)
Lemma merkle_singleton_not_rehashed :
  calculateMerkleRoot Number_toString_integer [JStr "a"]
    = "ca978112ca1bbdcafac231b39a23dc4da786eff8147c4e72b9807785afee48bb"
  /\ calculateMerkleRoot Number_toString_integer [JStr "a"]
    <> sha256 (sha256 (serialized Number_toString_integer (JStr "a"))
               ++ sha256 (serialized Number_toString_integer (JStr "a"))).
Proof.
  split; [vm_compute; reflexivity|].
  vm_compute. discriminate.
Qed.

(** ** Block reward *)

Lemma blockRewardAt_formula (index : Z) :
  index / PROTOCOL.HALVING_INTERVAL < 1024 -> blockRewardAt index = halvedReward index.
Proof.
  intros H. unfold blockRewardAt, halvedReward.
  destruct (Z.ltb_spec (index / PROTOCOL.HALVING_INTERVAL) 1024); [reflexivity | lia].
Qed.

(** The halvings of C7 that the code does perform: half the initial reward at
    height 210,000 and a quarter at height 420,000. *)
Lemma blockRewardAt_halvings :
  (blockRewardAt 0 == 50)%Q
  /\ (blockRewardAt 210000 == blockRewardAt 0 / 2)%Q
  /\ (blockRewardAt 420000 == blockRewardAt 0 / 4)%Q.
Proof. repeat split; vm_compute; reflexivity. Qed.

(** C7 (code defect): after 33 halvings the reward computed by
    [calculateBlockReward] is [50 / 2^33], a positive amount below the
    minimum unit of [10^-8]; the floor at a minimum unit that the claim and
    the white paper ([Math.max(reward, 0.00000001)]) require is not applied. *)
Theorem reward_below_minimum_unit :
  (blockRewardAt 6930000 == 50 / inject_Z (2 ^ 33))%Q
  /\ (0 < blockRewardAt 6930000)%Q
  /\ (blockRewardAt 6930000 < minimumUnit)%Q.
Proof. repeat split; vm_compute; reflexivity. Qed.

(** ** Difficulty adjustment *)

Lemma clampedRatio_roundedRatioOf (s : ServerState) :
  (clampedRatio expectedTimeOf (actualTimeOf s) == roundedRatioOf s)%Q.
Proof.
  unfold clampedRatio, roundedRatioOf.
  destruct (actualTimeOf s =? 0); [vm_compute; reflexivity|].
  set (q := double (inject_Z expectedTimeOf / inject_Z (actualTimeOf s))).
  cbv zeta.
  destruct (Qlt_le_dec q (1 # 2)) as [Hlow|Hlow].
  - apply Q.max_l. rewrite Q.min_r; [apply Qlt_le_weak; exact Hlow|].
    apply Qle_trans with (1 # 2)%Q; [apply Qlt_le_weak; exact Hlow | discriminate].
  - destruct (Qlt_le_dec 2 q) as [Hhigh|Hhigh].
    + rewrite Q.min_l; [|apply Qlt_le_weak; exact Hhigh].
      apply Q.max_r. discriminate.
    + rewrite Q.min_r; [|exact Hhigh]. apply Q.max_r. exact Hlow.
Qed.

Lemma roundedRatioOf_bounds (s : ServerState) : (1 # 2 <= roundedRatioOf s <= 2)%Q.
Proof.
  unfold roundedRatioOf.
  destruct (actualTimeOf s =? 0); [split; discriminate|].
  cbv zeta.
  destruct (Qlt_le_dec _ (1 # 2)) as [Hlow|Hlow]; [split; discriminate|].
  destruct (Qlt_le_dec 2 _) as [Hhigh|Hhigh]; [split; discriminate|].
  split; assumption.
Qed.

Lemma recent_blocks (c : list Block) :
  (11 <= List.length c)%nat ->
  let recent := skipn (List.length c - 10) c in
  exists firstBlock lastBlock,
    nth_error recent 0 = Some firstBlock
    /\ nth_error recent (List.length recent - 1) = Some lastBlock
    /\ b_timestamp firstBlock = recentTimestamp 10 c
    /\ b_timestamp lastBlock = recentTimestamp 1 c.
Proof.
  intros Hlen recent.
  assert (Hrec : List.length recent = 10%nat) by (unfold recent; rewrite length_skipn; lia).
  unfold recentTimestamp.
  assert (H0 : nth_error recent 0 = nth_error c (List.length c - 10)).
  { unfold recent. rewrite nth_error_skipn. f_equal. lia. }
  assert (H9 : nth_error recent (List.length recent - 1) = nth_error c (List.length c - 1)).
  { rewrite Hrec. unfold recent. rewrite nth_error_skipn. f_equal. lia. }
  destruct (nth_error c (List.length c - 10)) as [b0|] eqn:E0.
  2:{ apply nth_error_None in E0. lia. }
  destruct (nth_error c (List.length c - 1)) as [b9|] eqn:E9.
  2:{ apply nth_error_None in E9. lia. }
  exists b0, b9. auto.
Qed.

Section Difficulty.

Variable Math_pow : Q -> Q -> Q.

Lemma adjustDifficulty_difficulty (s : ServerState) (now : Z) :
  difficulty (adjustDifficulty Math_pow s now) =
    (if (List.length (chain s) <? 11)%nat then difficulty s
     else roundedDifficulty
            (clampedRatio expectedTimeOf (actualTimeOf s))
            (Math_pow (double (10001 # 10000)) (double (totalSupply s / 1000000)))
            (Math_pow (double (100005 # 100000))
                      (double (inject_Z (now - genesisTime s) / 86400000)))
            s).
Proof.
  unfold adjustDifficulty.
  change (PROTOCOL.DIFFICULTY_ADJUSTMENT_BLOCKS + 1)%nat with 11%nat.
  change PROTOCOL.DIFFICULTY_ADJUSTMENT_BLOCKS with 10%nat.
  destruct (Nat.ltb_spec (List.length (chain s)) 11) as [Hshort|Hlong]; [reflexivity|].
  destruct (recent_blocks (chain s) Hlong) as (b0 & b9 & E0 & E9 & T0 & T9).
  cbv zeta in E0, E9. rewrite E0, E9.
  cbn [difficulty with_difficulty].
  rewrite T0, T9. reflexivity.
Qed.

(** C6, as amended: the adjuster leaves the difficulty alone while the chain
    has fewer than [ADJUSTMENT_INTERVAL + 1 = 11] blocks; otherwise the new
    difficulty is [max(1, floor(old * ratio * supplyFactor * timeFactor))]
    with the quotient [expectedTime / actualTime] and each of the three
    products rounded to a double, the ratio being the rounded quotient
    clamped to [[0.5, 2]] before it is multiplied by the growth factors; an
    adjusted difficulty is at least 1. *)
Theorem adjustDifficulty_formula (s : ServerState) (now : Z) :
  let ratio := clampedRatio expectedTimeOf (actualTimeOf s) in
  let supplyFactor :=
    Math_pow (double (10001 # 10000)) (double (totalSupply s / 1000000)) in
  let timeFactor :=
    Math_pow (double (100005 # 100000))
             (double (inject_Z (now - genesisTime s) / 86400000)) in
  difficulty (adjustDifficulty Math_pow s now) =
    (if (List.length (chain s) <? 11)%nat then difficulty s
     else Z.max 1 (Qfloor (double (double (double (inject_Z (difficulty s) * ratio)
                                           * supplyFactor)
                                   * timeFactor))))
  /\ (ratio == roundedRatioOf s)%Q
  /\ (1 # 2 <= roundedRatioOf s <= 2)%Q
  /\ ((List.length (chain s) < 11)%nat
      \/ 1 <= difficulty (adjustDifficulty Math_pow s now)).
Proof.
  intros ratio supplyFactor timeFactor.
  split; [apply adjustDifficulty_difficulty|].
  split; [apply clampedRatio_roundedRatioOf|].
  split; [apply roundedRatioOf_bounds|].
  rewrite adjustDifficulty_difficulty.
  destruct (Nat.ltb_spec (List.length (chain s)) 11) as [Hshort|Hlong];
    [left; exact Hshort | right; apply Z.le_max_l].
Qed.

(** A difficulty of at least 1 stays so through the adjuster. *)
Lemma adjustDifficulty_positive (s : ServerState) (now : Z) :
  1 <= difficulty s -> 1 <= difficulty (adjustDifficulty Math_pow s now).
Proof.
  intros H. rewrite adjustDifficulty_difficulty.
  destruct (_ <? _)%nat; [exact H | apply Z.le_max_l].
Qed.

End Difficulty.

(** Rounding, tried on known doubles: [0.1], and the quotient and the product
    of the counterexample below ([1.3061224489795917] and
    [63.99999999999999]). *)
Example double_samples :
  double (1 # 10) = 3602879701896397 # 36028797018963968
  /\ double (3600000 # 2756250) = 5882252574524729 # 4503599627370496
  /\ double (49 * double (3600000 # 2756250)) = 9007199254740991 # 140737488355328
  /\ double 3 = 3%Q
  /\ double (- (1 # 3)) = (- 6004799503160661 # 18014398509481984)%Q.
Proof. repeat split; vm_compute; reflexivity. Qed.

(** C6 as stated fails: with 49 as the old difficulty, ten recent blocks
    that took 2756250 ms and both growth factors 1, the prescribed difficulty
    is [floor(49 * 3600000 / 2756250) = 64], and the adjuster stores 63: the
    rounded quotient times 49 is a double just below 64. *)
Lemma adjustDifficulty_rounds_below_formula :
  actualTimeOf Sample.slow = 2756250
  /\ difficulty Sample.slow = 49
  /\ prescribedDifficulty 1 1 Sample.slow = 64
  /\ difficulty (adjustDifficulty Sample.pow_unused Sample.slow 0) = 63
  /\ difficulty (adjustDifficulty Sample.pow_unused Sample.slow 0)
     <> prescribedDifficulty
          (Sample.pow_unused (10001 # 10000) (totalSupply Sample.slow / 1000000))
          (Sample.pow_unused (100005 # 100000)
                             (inject_Z (0 - genesisTime Sample.slow) / 86400000))
          Sample.slow.
Proof. repeat split; vm_compute; congruence. Qed.

(** ** Rounding to double precision

    [double] is monotone, exact on the integers up to [2^53] and off by at
    most half a unit in the last place. *)

Section Rounding.

Local Open Scope Q_scope.

Lemma pow2_pos (k : Z) : 0 < 2 ^ k.
Proof. apply Qpower_0_lt. reflexivity. Qed.

Lemma pow2_add (a b : Z) : 2 ^ (a + b) == 2 ^ a * 2 ^ b.
Proof. apply Qpower_plus. discriminate. Qed.

Lemma pow2_le (a b : Z) : (a <= b)%Z -> 2 ^ a <= 2 ^ b.
Proof. intros H. apply Qpower_le_compat_l; [exact H | discriminate]. Qed.

Lemma pow2_lt (a b : Z) : (a < b)%Z -> 2 ^ a < 2 ^ b.
Proof. intros H. apply Qpower_lt_compat_l; [exact H | reflexivity]. Qed.

Lemma pow2_Z (k : Z) : (0 <= k)%Z -> inject_Z (2 ^ k) == 2 ^ k.
Proof. intros H. exact (Zpower_Qpower 2 k H). Qed.

Lemma scaled_power (x : Q) (k : Z) : scaled x k == x * 2 ^ k.
Proof.
  unfold scaled. destruct (Z.leb_spec 0 k) as [H | H].
  - rewrite pow2_Z by exact H. reflexivity.
  - rewrite pow2_Z by lia. rewrite Qpower_opp. unfold Qdiv.
    rewrite Qinv_involutive. reflexivity.
Qed.

Lemma nearest_even_comp (x y : Q) : x == y -> nearest_even x = nearest_even y.
Proof.
  intros H. unfold nearest_even.
  rewrite (Qfloor_comp _ _ H).
  assert (E : (x - inject_Z (Qfloor y) ?= 1 # 2) = (y - inject_Z (Qfloor y) ?= 1 # 2)).
  { apply Qcompare_comp; [rewrite H|]; reflexivity. }
  rewrite E. reflexivity.
Qed.

Lemma inject_Z_succ (z : Z) : inject_Z (z + 1) == inject_Z z + 1.
Proof. rewrite inject_Z_plus. reflexivity. Qed.

Lemma nearest_even_near (x : Q) :
  x - (1 # 2) <= inject_Z (nearest_even x) <= x + (1 # 2).
Proof.
  unfold nearest_even.
  pose proof (Qfloor_le x) as Hlow. pose proof (Qlt_floor x) as Hhigh.
  rewrite inject_Z_succ in Hhigh.
  destruct (Qcompare_spec (x - inject_Z (Qfloor x)) (1 # 2)) as [E | E | E].
  - destruct (Z.even (Qfloor x)); [|rewrite inject_Z_succ]; lra.
  - lra.
  - rewrite inject_Z_succ. lra.
Qed.

Lemma nearest_even_Z (z : Z) : nearest_even (inject_Z z) = z.
Proof.
  unfold nearest_even. rewrite Qfloor_Z.
  assert (E : (inject_Z z - inject_Z z ?= 1 # 2) = Lt).
  { apply (proj1 (Qlt_alt _ _)). lra. }
  rewrite E. reflexivity.
Qed.

Lemma inject_Z_lt_inv (a b : Z) : inject_Z a < inject_Z b -> (a < b)%Z.
Proof. intros H. rewrite Zlt_Qlt. exact H. Qed.

Lemma nearest_even_mono (x y : Q) : x <= y -> (nearest_even x <= nearest_even y)%Z.
Proof.
  intros H.
  destruct (Z.le_gt_cases (nearest_even x) (nearest_even y)) as [Hle | Hgt]; [exact Hle|].
  exfalso.
  pose proof (nearest_even_near x) as [_ Hx]. pose proof (nearest_even_near y) as [Hy _].
  assert (Hstep : inject_Z (nearest_even y) + 1 <= inject_Z (nearest_even x)).
  { rewrite <- inject_Z_succ. rewrite <- Zle_Qle. lia. }
  assert (E : x == y) by lra.
  rewrite (nearest_even_comp _ _ E) in Hgt. lia.
Qed.

Lemma nearest_even_unique (x : Q) (k : Z) :
  inject_Z k - (1 # 2) < x -> x < inject_Z k + (1 # 2) -> nearest_even x = k.
Proof.
  intros Hlow Hhigh. pose proof (nearest_even_near x) as [H1 H2].
  assert (Ha : inject_Z (nearest_even x) < inject_Z (k + 1)).
  { rewrite inject_Z_succ. lra. }
  assert (Hb : inject_Z (k - 1) < inject_Z (nearest_even x)).
  { pose proof (inject_Z_succ (k - 1)) as E. replace (k - 1 + 1)%Z with k in E by lia. lra. }
  apply inject_Z_lt_inv in Ha, Hb. lia.
Qed.

Lemma binade_Z (n : Z) (d : positive) :
  (0 < n)%Z ->
  let e := binade (n # d) in
  ((0 <= e -> Zpos d * 2 ^ e <= n < Zpos d * 2 ^ (e + 1))
   /\ (e < 0 -> Zpos d <= n * 2 ^ (- e) /\ n * 2 ^ (- e - 1) < Zpos d))%Z.
Proof.
  intros Hn. unfold binade. cbn [Qnum Qden]. rewrite (Z.abs_eq n) by lia.
  pose proof (Z.log2_spec n Hn) as [Ha1 Ha2].
  pose proof (Z.log2_spec (Zpos d) (Pos2Z.is_pos d)) as [Hb1 Hb2].
  pose proof (Z.log2_nonneg n) as Ha0. pose proof (Z.log2_nonneg (Zpos d)) as Hb0.
  set (a := Z.log2 n) in *. set (b := Z.log2 (Zpos d)) in *.
  set (D := Zpos d) in *.
  rewrite Z.pow_succ_r in Ha2, Hb2 by assumption.
  destruct (Z.leb_spec 0 (a - b)) as [Hk | Hk].
  - assert (Ea : (2 ^ a = 2 ^ (a - b) * 2 ^ b)%Z).
    { rewrite <- Z.pow_add_r by lia. f_equal. lia. }
    pose proof (Z.pow_pos_nonneg 2 (a - b) ltac:(lia) Hk) as Hp.
    destruct (Z.leb_spec (D * 2 ^ (a - b)) n) as [Ht | Ht]; cbv zeta.
    + split; [intros _ | lia].
      rewrite Z.pow_add_r, Z.pow_1_r by lia. nia.
    + destruct (Z.eq_dec (a - b) 0) as [E0 | E0].
      * rewrite E0 in *. cbn in Ht |- *. split; [lia | intros _].
        change (2 ^ 0)%Z with 1%Z in *. nia.
      * assert (Ek : (2 ^ (a - b) = 2 * 2 ^ (a - b - 1))%Z).
        { rewrite <- Z.pow_succ_r by lia. f_equal. lia. }
        split; [intros _ | lia].
        replace (a - b - 1 + 1)%Z with (a - b)%Z by lia.
        pose proof (Z.pow_pos_nonneg 2 (a - b - 1) ltac:(lia) ltac:(lia)) as Hq.
        nia.
  - assert (Eb : (2 ^ b = 2 ^ a * 2 ^ (- (a - b)))%Z).
    { rewrite <- Z.pow_add_r by lia. f_equal. lia. }
    pose proof (Z.pow_pos_nonneg 2 (- (a - b)) ltac:(lia) ltac:(lia)) as Hp.
    assert (Ej : (2 ^ (- (a - b)) = 2 * 2 ^ (- (a - b) - 1))%Z).
    { rewrite <- Z.pow_succ_r by lia. f_equal. lia. }
    pose proof (Z.pow_pos_nonneg 2 (- (a - b) - 1) ltac:(lia) ltac:(lia)) as Hq.
    destruct (Z.leb_spec D (n * 2 ^ (- (a - b)))) as [Ht | Ht]; cbv zeta.
    + split; [lia | intros _]. split; [exact Ht | nia].
    + split; [lia | intros _].
      replace (- (a - b - 1))%Z with (Z.succ (- (a - b)))%Z by lia.
      replace (Z.succ (- (a - b)) - 1)%Z with (- (a - b))%Z by lia.
      rewrite Z.pow_succ_r by lia. split; [nia | exact Ht].
Qed.

Lemma binade_spec (x : Q) :
  0 < x -> 2 ^ binade x <= x /\ x < 2 ^ (binade x + 1).
Proof.
  destruct x as [n d]. intros Hx.
  assert (Hn : (0 < n)%Z).
  { unfold Qlt in Hx. cbn in Hx. lia. }
  pose proof (binade_Z n d Hn) as [Hpos Hneg]. cbv zeta in Hpos, Hneg.
  set (e := binade (n # d)) in *. clearbody e.
  destruct (Z.le_gt_cases 0 e) as [He | He].
  - destruct (Hpos He) as [H1 H2]. split.
    + rewrite <- pow2_Z by exact He. unfold Qle. cbn. rewrite Z.mul_1_r, Z.mul_comm. exact H1.
    + rewrite <- pow2_Z by lia. unfold Qlt. cbn. rewrite Z.mul_1_r, Z.mul_comm. exact H2.
  - destruct (Hneg He) as [H1 H2]. split.
    + apply (Qmult_le_r _ _ (2 ^ (- e))); [apply pow2_pos|].
      rewrite <- pow2_add. replace (e + - e)%Z with 0%Z by lia.
      rewrite <- (pow2_Z (- e)) by lia. unfold Qle. cbn. clear Hpos Hneg. lia.
    + apply (Qmult_lt_r _ _ (2 ^ (- e - 1))); [apply pow2_pos|].
      rewrite <- pow2_add. replace (e + 1 + (- e - 1))%Z with 0%Z by lia.
      rewrite <- (pow2_Z (- e - 1)) by lia. unfold Qlt. cbn. clear Hpos Hneg. lia.
Qed.

Lemma binade_unique (x : Q) (e : Z) :
  2 ^ e <= x -> x < 2 ^ (e + 1) -> binade x = e.
Proof.
  intros Hlow Hhigh.
  assert (Hx : 0 < x) by (pose proof (pow2_pos e); lra).
  destruct (binade_spec x Hx) as [H1 H2].
  destruct (Z.lt_trichotomy (binade x) e) as [Hlt | [Heq | Hgt]]; [exfalso | exact Heq | exfalso].
  - pose proof (pow2_le (binade x + 1) e ltac:(lia)). lra.
  - pose proof (pow2_le (e + 1) (binade x) ltac:(lia)). lra.
Qed.

Lemma Qeq_bool_pos (x : Q) : 0 < x -> Qeq_bool x 0 = false.
Proof.
  intros H. destruct (Qeq_bool x 0) eqn:E; [|reflexivity].
  apply Qeq_bool_eq in E. lra.
Qed.

Lemma double_pos (x : Q) :
  0 < x ->
  double x == inject_Z (nearest_even (x * 2 ^ (52 - binade x))) * 2 ^ (binade x - 52).
Proof.
  intros H. unfold double. rewrite (Qeq_bool_pos x H). cbv zeta.
  rewrite Qred_correct, scaled_power.
  rewrite (nearest_even_comp _ _ (scaled_power x (52 - binade x))). reflexivity.
Qed.

Lemma pow2_cancel (a b : Z) : 2 ^ a * 2 ^ (b - a) == 2 ^ b.
Proof. rewrite <- pow2_add. replace (a + (b - a))%Z with b by lia. reflexivity. Qed.

Lemma significand_bounds (x : Q) :
  0 < x ->
  (2 ^ 52 <= nearest_even (x * 2 ^ (52 - binade x)) <= 2 ^ 53)%Z.
Proof.
  intros H. destruct (binade_spec x H) as [Hlow Hhigh].
  pose proof (pow2_pos (52 - binade x)) as Hp.
  split.
  - rewrite <- (nearest_even_Z (2 ^ 52)). apply nearest_even_mono.
    rewrite pow2_Z by lia. rewrite <- (pow2_cancel (binade x) 52).
    apply Qmult_le_r; assumption.
  - rewrite <- (nearest_even_Z (2 ^ 53)). apply nearest_even_mono.
    rewrite pow2_Z by lia. rewrite <- (pow2_cancel (binade x + 1) 53).
    replace (53 - (binade x + 1))%Z with (52 - binade x)%Z by lia.
    apply Qmult_le_r; [assumption | lra].
Qed.

Lemma double_pos_bounds (x : Q) :
  0 < x -> 2 ^ binade x <= double x /\ double x <= 2 ^ (binade x + 1).
Proof.
  intros H. rewrite (double_pos x H).
  destruct (significand_bounds x H) as [Hlow Hhigh].
  pose proof (pow2_pos (binade x - 52)) as Hp.
  rewrite Zle_Qle in Hlow, Hhigh. rewrite pow2_Z in Hlow, Hhigh by lia.
  split.
  - rewrite <- (pow2_cancel 52 (binade x)). apply Qmult_le_r; assumption.
  - rewrite <- (pow2_cancel 53 (binade x + 1)).
    replace (binade x + 1 - 53)%Z with (binade x - 52)%Z by lia.
    apply Qmult_le_r; assumption.
Qed.

Lemma double_mono_pos (x y : Q) : 0 < x -> x <= y -> double x <= double y.
Proof.
  intros Hx Hxy. assert (Hy : 0 < y) by lra.
  destruct (binade_spec x Hx) as [Hx1 Hx2]. destruct (binade_spec y Hy) as [Hy1 Hy2].
  destruct (Z.lt_trichotomy (binade x) (binade y)) as [Hlt | [Heq | Hgt]].
  - destruct (double_pos_bounds x Hx) as [_ Hdx].
    destruct (double_pos_bounds y Hy) as [Hdy _].
    pose proof (pow2_le (binade x + 1) (binade y) ltac:(lia)). lra.
  - rewrite (double_pos x Hx), (double_pos y Hy), Heq.
    apply Qmult_le_r; [apply pow2_pos|].
    rewrite <- Zle_Qle. apply nearest_even_mono.
    apply Qmult_le_r; [apply pow2_pos | exact Hxy].
  - exfalso. pose proof (pow2_le (binade y + 1) (binade x) ltac:(lia)). lra.
Qed.

Lemma double_nonneg (x : Q) : 0 <= x -> 0 <= double x.
Proof.
  intros H. destruct (Qeq_bool x 0) eqn:E.
  - unfold double. rewrite E. lra.
  - assert (Hx : 0 < x).
    { apply Qle_lt_or_eq in H. destruct H as [H | H]; [exact H|].
      symmetry in H. apply Qeq_eq_bool in H. congruence. }
    destruct (double_pos_bounds x Hx) as [Hd _]. pose proof (pow2_pos (binade x)). lra.
Qed.

Lemma double_mono (x y : Q) : 0 <= x -> x <= y -> double x <= double y.
Proof.
  intros Hx Hxy. destruct (Qeq_bool x 0) eqn:E.
  - unfold double at 1. rewrite E. apply double_nonneg. lra.
  - apply double_mono_pos; [|exact Hxy].
    apply Qle_lt_or_eq in Hx. destruct Hx as [H | H]; [exact H|].
    symmetry in H. apply Qeq_eq_bool in H. congruence.
Qed.

Lemma double_exact (x : Q) (m : Z) :
  0 < x -> x * 2 ^ (52 - binade x) == inject_Z m -> double x == x.
Proof.
  intros Hx Hm. rewrite (double_pos x Hx).
  rewrite (nearest_even_comp _ _ Hm), nearest_even_Z, <- Hm.
  rewrite <- Qmult_assoc, <- pow2_add.
  replace (52 - binade x + (binade x - 52))%Z with 0%Z by lia.
  change (2 ^ 0) with 1. ring.
Qed.

Lemma double_Z (z : Z) : (0 <= z <= 2 ^ 53)%Z -> double (inject_Z z) == inject_Z z.
Proof.
  intros [H0 H53].
  destruct (Z.eq_dec z 0) as [-> | Hnz]; [reflexivity|].
  destruct (Z.eq_dec z (2 ^ 53)) as [-> | Hn53]; [vm_compute; reflexivity|].
  assert (Hx : 0 < inject_Z z) by (change 0 with (inject_Z 0); rewrite <- Zlt_Qlt; lia).
  destruct (binade_spec _ Hx) as [Hlow Hhigh].
  assert (He : (binade (inject_Z z) <= 52)%Z).
  { destruct (Z.le_gt_cases (binade (inject_Z z)) 52) as [H | H]; [exact H | exfalso].
    pose proof (pow2_le 53 (binade (inject_Z z)) ltac:(lia)) as Hp.
    rewrite <- pow2_Z in Hp by lia.
    assert (Hz : inject_Z z < inject_Z (2 ^ 53)) by (rewrite <- Zlt_Qlt; lia).
    lra. }
  apply (double_exact _ (z * 2 ^ (52 - binade (inject_Z z))) Hx).
  rewrite inject_Z_mult, pow2_Z by lia. reflexivity.
Qed.

Lemma binade_opp (x : Q) : binade (- x) = binade x.
Proof.
  unfold binade. destruct x as [n d]. cbn [Qopp Qnum Qden]. rewrite Z.abs_opp. reflexivity.
Qed.

Lemma binade_comp (x y : Q) : ~ x == 0 -> x == y -> binade x = binade y.
Proof.
  intros Hx E. destruct (Qlt_le_dec 0 x) as [Hpos | Hneg].
  - destruct (binade_spec x Hpos) as [H1 H2]. symmetry. apply binade_unique; lra.
  - assert (Hpos : 0 < - x).
    { destruct (Qlt_le_dec x 0) as [Hlt | Hge]; [lra | exfalso; apply Hx; lra]. }
    destruct (binade_spec (- x) Hpos) as [H1 H2].
    rewrite <- (binade_opp x), <- (binade_opp y). symmetry. apply binade_unique; lra.
Qed.

(** [double] does not depend on how the rational is written. *)
Lemma double_comp (x y : Q) : x == y -> double x = double y.
Proof.
  intros E. unfold double.
  destruct (Qeq_bool x 0) eqn:Ex; destruct (Qeq_bool y 0) eqn:Ey.
  - reflexivity.
  - apply Qeq_bool_eq in Ex. rewrite E in Ex. apply Qeq_eq_bool in Ex. congruence.
  - apply Qeq_bool_eq in Ey. rewrite <- E in Ey. apply Qeq_eq_bool in Ey. congruence.
  - assert (Hx : ~ x == 0) by (apply Qeq_bool_neq; exact Ex).
    cbv zeta. rewrite (binade_comp x y Hx E).
    assert (Em : scaled x (52 - binade y) == scaled y (52 - binade y)).
    { rewrite !scaled_power. apply Qmult_comp; [exact E | reflexivity]. }
    rewrite (nearest_even_comp _ _ Em). reflexivity.
Qed.

Lemma double_error (y : Q) :
  0 < y ->
  y - 2 ^ (binade y - 53) <= double y /\ double y <= y + 2 ^ (binade y - 53).
Proof.
  intros Hy. rewrite (double_pos y Hy).
  pose proof (nearest_even_near (y * 2 ^ (52 - binade y))) as [Hlow Hhigh].
  pose proof (pow2_pos (binade y - 52)) as Hp.
  assert (Ehalf : 2 ^ (binade y - 52) == 2 * 2 ^ (binade y - 53)).
  { replace (binade y - 52)%Z with (1 + (binade y - 53))%Z by lia.
    rewrite pow2_add. reflexivity. }
  assert (Eone : 2 ^ (52 - binade y) * 2 ^ (binade y - 52) == 1).
  { rewrite <- pow2_add. replace (52 - binade y + (binade y - 52))%Z with 0%Z by lia.
    reflexivity. }
  apply (Qmult_le_r _ _ _ Hp) in Hlow. apply (Qmult_le_r _ _ _ Hp) in Hhigh.
  assert (E1 : (y * 2 ^ (52 - binade y) - (1 # 2)) * 2 ^ (binade y - 52)
               == y - 2 ^ (binade y - 53)).
  { transitivity (y * (2 ^ (52 - binade y) * 2 ^ (binade y - 52))
                  - (1 # 2) * 2 ^ (binade y - 52)); [ring|].
    rewrite Eone, Ehalf. ring. }
  assert (E2 : (y * 2 ^ (52 - binade y) + (1 # 2)) * 2 ^ (binade y - 52)
               == y + 2 ^ (binade y - 53)).
  { transitivity (y * (2 ^ (52 - binade y) * 2 ^ (binade y - 52))
                  + (1 # 2) * 2 ^ (binade y - 52)); [ring|].
    rewrite Eone, Ehalf. ring. }
  rewrite E1 in Hlow. rewrite E2 in Hhigh. split; assumption.
Qed.

Lemma pow2_57 : 2 ^ 57 == 144115188075855872.
Proof. reflexivity. Qed.

Lemma pow2_58 : 2 ^ 58 == 288230376151711744.
Proof. reflexivity. Qed.

Lemma binade_below (y : Q) (e : Z) : 0 < y -> y < 2 ^ e -> (binade y < e)%Z.
Proof.
  intros Hy H. destruct (binade_spec y Hy) as [H1 _].
  destruct (Z.lt_ge_cases (binade y) e) as [Hlt | Hge]; [exact Hlt | exfalso].
  pose proof (pow2_le e (binade y) Hge). lra.
Qed.

Lemma double_small_error (y : Q) :
  0 < y -> y < 144115188075855872 -> y - 8 <= double y /\ double y <= y + 8.
Proof.
  intros Hy H. rewrite <- pow2_57 in H.
  pose proof (binade_below y 57 Hy H) as He.
  destruct (double_error y Hy) as [H1 H2].
  pose proof (pow2_le (binade y - 53) 3 ltac:(lia)) as Hp.
  change (2 ^ 3) with 8 in Hp. split; lra.
Qed.

Lemma double_pow2_57 : double 144115188075855872 == 144115188075855872.
Proof. vm_compute. reflexivity. Qed.

Lemma grow_below (x : Q) :
  0 <= x -> x + 50 < 144115188075855872 ->
  x + 42 <= double (x + 50) /\ double (x + 50) <= 144115188075855872.
Proof.
  intros Hx H. destruct (double_small_error (x + 50) ltac:(lra) H) as [H1 _].
  split; [lra|].
  rewrite <- double_pow2_57. apply double_mono; lra.
Qed.

Lemma double_in_binade_57 (y : Q) :
  144115188075855872 <= y -> y < 288230376151711744 ->
  exists k, double y == inject_Z (32 * k) /\ y - 16 <= double y /\ double y <= y + 16.
Proof.
  intros Hlow Hhigh.
  assert (Hy : 0 < y) by lra.
  assert (Eb : binade y = 57%Z).
  { apply binade_unique; [rewrite pow2_57 | change (57 + 1)%Z with 58%Z; rewrite pow2_58];
      assumption. }
  destruct (double_error y Hy) as [H1 H2]. rewrite Eb in H1, H2.
  change (2 ^ (57 - 53)) with 16 in H1, H2.
  exists (nearest_even (y * 2 ^ (52 - 57))). split; [|split; assumption].
  rewrite (double_pos y Hy), Eb. rewrite inject_Z_mult.
  change (2 ^ (57 - 52)) with (inject_Z 32). ring.
Qed.

Lemma grow_in_binade_57 (k : Z) :
  (144115188075855872 <= 32 * k)%Z -> (32 * k + 50 < 288230376151711744)%Z ->
  double (inject_Z (32 * k) + 50) == inject_Z (32 * (k + 2)).
Proof.
  intros Hlow Hhigh.
  assert (Ey : inject_Z (32 * k) + 50 == inject_Z (32 * k + 50)).
  { rewrite inject_Z_plus. reflexivity. }
  assert (Hl : 144115188075855872 <= inject_Z (32 * k) + 50).
  { rewrite Ey. change 144115188075855872 with (inject_Z 144115188075855872).
    rewrite <- Zle_Qle. lia. }
  assert (Hh : inject_Z (32 * k) + 50 < 288230376151711744).
  { rewrite Ey. change 288230376151711744 with (inject_Z 288230376151711744).
    rewrite <- Zlt_Qlt. lia. }
  assert (Hy : 0 < inject_Z (32 * k) + 50) by lra.
  assert (Eb : binade (inject_Z (32 * k) + 50) = 57%Z).
  { apply binade_unique; [rewrite pow2_57 | change (57 + 1)%Z with 58%Z; rewrite pow2_58];
      assumption. }
  rewrite (double_pos _ Hy), Eb.
  change (2 ^ (52 - 57)) with (1 # 32). change (2 ^ (57 - 52)) with (inject_Z 32).
  assert (En : nearest_even ((inject_Z (32 * k) + 50) * (1 # 32)) = (k + 2)%Z).
  { apply nearest_even_unique; rewrite !inject_Z_plus, !inject_Z_mult;
      change (inject_Z 32) with 32; change (inject_Z 2) with 2; lra. }
  rewrite En, <- inject_Z_mult. rewrite (Z.mul_comm (k + 2) 32). reflexivity.
Qed.

End Rounding.

(** A supply that grows by rewards of 50 alone, each sum rounded: past
    [2^57] the sums land on multiples of 32 and every reward counts for 64,
    so that the supply ends up above 50 for each reward. *)

Section Outgrow.

Local Open Scope Q_scope.

Variable T : nat -> Q.
Hypothesis T_0 : T 0%nat = 0.
Hypothesis T_S : forall n, T (S n) = double (T n + 50).

Lemma T_nonneg (n : nat) : 0 <= T n.
Proof.
  induction n as [|n IH]; [rewrite T_0; lra|].
  rewrite T_S. apply double_nonneg. lra.
Qed.

Lemma inject_Z_of_nat_S (n : nat) :
  inject_Z (Z.of_nat (S n)) == inject_Z (Z.of_nat n) + 1.
Proof. rewrite Nat2Z.inj_succ. unfold Z.succ. apply inject_Z_succ. Qed.

Lemma climb (n : nat) :
  (forall j, (j < n)%nat -> T j + 50 < 144115188075855872) ->
  42 * inject_Z (Z.of_nat n) <= T n /\ T n <= 144115188075855872.
Proof.
  induction n as [|n IH]; intros Hbelow.
  - rewrite T_0. change (inject_Z (Z.of_nat 0)) with 0. split; lra.
  - destruct IH as [IH _]; [intros j Hj; apply Hbelow; lia|].
    destruct (grow_below (T n) (T_nonneg n) (Hbelow n ltac:(lia))) as [H1 H2].
    rewrite T_S, inject_Z_of_nat_S. split; lra.
Qed.

Lemma first_exit (n : nat) :
  (forall j, (j < n)%nat -> T j + 50 < 144115188075855872)
  \/ exists k, (k < n)%nat /\ 144115188075855872 <= T k + 50
               /\ forall j, (j < k)%nat -> T j + 50 < 144115188075855872.
Proof.
  induction n as [|n [IH | (k & Hk & Hexit & Hbefore)]].
  - left. intros j Hj. lia.
  - destruct (Qlt_le_dec (T n + 50) 144115188075855872) as [Hlt | Hge].
    + left. intros j Hj. destruct (Nat.eq_dec j n) as [-> | Hne]; [exact Hlt|].
      apply IH. lia.
    + right. exists n. split; [lia|]. split; assumption.
  - right. exists k. split; [lia|]. split; assumption.
Qed.

Lemma exit_exists :
  exists k, (Z.of_nat k <= 3431314001806093)%Z
            /\ 144115188075855872 <= T k + 50 /\ T k <= 144115188075855872.
Proof.
  destruct (first_exit (S (Z.to_nat 3431314001806093))) as [Hall | (k & Hk & Hexit & Hbefore)].
  - exfalso.
    pose proof (Hall (Z.to_nat 3431314001806093) ltac:(lia)) as Hlast.
    destruct (climb (Z.to_nat 3431314001806093)) as [Hlow _].
    { intros j Hj. apply Hall. lia. }
    rewrite Z2Nat.id in Hlow by lia.
    change (inject_Z 3431314001806093) with 3431314001806093 in Hlow. lra.
  - exists k. split; [lia|]. split; [exact Hexit|].
    apply (climb k Hbefore).
Qed.

Lemma ride (k : nat) (q : Z) :
  T k == inject_Z (32 * q) ->
  (144115188075855872 <= 32 * q)%Z ->
  forall m : nat,
    (32 * (q + 2 * Z.of_nat m) <= 288230376151711744)%Z ->
    T (k + m) == inject_Z (32 * (q + 2 * Z.of_nat m)).
Proof.
  intros Hk Hq. induction m as [|m IH]; intros Hm.
  - rewrite Nat.add_0_r. rewrite Hk. apply inject_Z_injective. lia.
  - rewrite Nat.add_succ_r, T_S.
    assert (E : T (k + m)%nat + 50 == inject_Z (32 * (q + 2 * Z.of_nat m)) + 50).
    { rewrite IH by lia. reflexivity. }
    rewrite (double_comp _ _ E).
    rewrite grow_in_binade_57 by lia.
    apply inject_Z_injective. lia.
Qed.

Lemma outgrows : ~ (forall n, T n <= 50 * inject_Z (Z.of_nat n)).
Proof.
  intros Hbound.
  destruct exit_exists as (k & Hk & Hexit & Hlast).
  destruct (double_in_binade_57 (T k + 50) Hexit ltac:(lra)) as (q & Eq & Hlow & Hhigh).
  rewrite <- T_S in Eq, Hlow, Hhigh.
  assert (Hq1 : (144115188075855872 <= 32 * q)%Z).
  { assert (H : inject_Z 144115188075855856 <= inject_Z (32 * q)).
    { rewrite <- Eq. change (inject_Z 144115188075855856) with 144115188075855856. lra. }
    rewrite <- Zle_Qle in H. lia. }
  assert (Hq2 : (32 * q <= 144115188075855938)%Z).
  { assert (H : inject_Z (32 * q) <= inject_Z 144115188075855938).
    { rewrite <- Eq. change (inject_Z 144115188075855938) with 144115188075855938. lra. }
    rewrite <- Zle_Qle in H. lia. }
  pose proof (ride (S k) q Eq Hq1 (Z.to_nat 1960750858174917) ltac:(lia)) as Hride.
  pose proof (Hbound (S k + Z.to_nat 1960750858174917)%nat) as H.
  rewrite Hride in H.
  assert (E : 50 * inject_Z (Z.of_nat (S k + Z.to_nat 1960750858174917))
              == inject_Z (50 * Z.of_nat (S k + Z.to_nat 1960750858174917))).
  { rewrite inject_Z_mult. reflexivity. }
  rewrite E in H. rewrite <- Zle_Qle in H. lia.
Qed.

End Outgrow.

(** ** Solution submissions *)

Lemma get_submission (walletAddress nonce hash : option json) :
  get (submission walletAddress nonce hash) "walletAddress" = walletAddress
  /\ get (submission walletAddress nonce hash) "nonce" = nonce
  /\ get (submission walletAddress nonce hash) "hash" = hash.
Proof. destruct walletAddress, nonce, hash; repeat split; reflexivity. Qed.

Lemma calculateTarget_integer (d : Z) :
  1 <= d -> calculateTarget (inject_Z d) = maxTarget / d.
Proof.
  intros H. unfold calculateTarget. rewrite Qfloor_Z. now rewrite Z.max_r.
Qed.

Section Submissions.

Variable Number_toString : Q -> string.

(** The header, hence the hash, is built from six fields only. *)
Lemma calculateBlockHash_fields
      (index timestamp : Z) (previousHash merkleRoot : string) (nonce : option json)
      (d : Z) (miner miner' : option json) (txs txs' : list Transaction)
      (reward reward' : option Q) (hash hash' : string) :
  calculateBlockHash Number_toString
    (mkBlock index timestamp previousHash merkleRoot nonce d miner txs reward hash)
  = calculateBlockHash Number_toString
      (mkBlock index timestamp previousHash merkleRoot nonce d miner' txs' reward' hash').
Proof. reflexivity. Qed.

Lemma chain_addBlock (s : ServerState) (block : Block) :
  chain (addBlock s block) = chain s ++ [block].
Proof. reflexivity. Qed.

Lemma totalSupply_addBlock (s : ServerState) (block : Block) :
  totalSupply (addBlock s block) = double (totalSupply s + reward_or_0 (b_reward block)).
Proof. reflexivity. Qed.

Lemma handleSolutionSubmit_cases (s : ServerState) (ws : nat) (message : json) :
  SubmitCase Number_toString s ws message (handleSolutionSubmit Number_toString s ws message).
Proof.
  unfold handleSolutionSubmit.
  destruct (currentChallenge s) as [challenge|] eqn:Ech.
  2:{ now apply no_challenge. }
  fold (recomputedHash Number_toString challenge message).
  destruct (get message "hash") as [[| | | |h| |]|] eqn:Eh;
    try (apply hash_mismatch with challenge; [exact Ech | rewrite Eh; discriminate | reflexivity]).
  destruct (String.eqb_spec (recomputedHash Number_toString challenge message) h)
    as [Heq|Hne]; cbn [negb].
  2:{ apply hash_mismatch with challenge; [exact Ech | rewrite Eh; congruence | reflexivity]. }
  subst h.
  destruct (BigInt_hex_doubleSha256
              (JSON_stringify Number_toString
                 (header (candidate (blockTemplate challenge) (get message "nonce")
                                    (get message "walletAddress"))))) as [v Hv].
  change (doubleSha256 _) with (recomputedHash Number_toString challenge message) in Hv.
  unfold hashMeetsTarget. rewrite Hv.
  destruct (v <? calculateTarget (inject_Z (difficulty s))) eqn:Et.
  - destruct (has_slice (get message "walletAddress")) eqn:Es; cbn [negb].
    + apply committed with challenge v; auto.
      cbv zeta. destruct (canStartMining _); reflexivity.
    + apply committed_then_thrown with challenge v; auto.
  - apply target_missed with challenge v; auto.
Qed.

Lemma not_rejectionNotice_nil (ws : nat) : ~ rejectionNotice ws [].
Proof. intros [H|[H|H]]; discriminate H. Qed.

Lemma not_rejectionNotice_broadcast (ws : nat) (m : Message) :
  ~ rejectionNotice ws [broadcast m].
Proof. intros [H|[H|H]]; discriminate H. Qed.

(** C5: a submission is rejected exactly when no round is active, or the
    recomputed hash differs from the submitted one, or the hash is not strictly
    below [MAX_256BIT / difficulty]; a rejection leaves the whole state as it
    was and sends the submitter one message with the reason; any other
    submission commits a block. *)
Theorem solution_rejected_iff (s : ServerState) (ws : nat) (message : json) :
  1 <= difficulty s ->
  let r := handleSolutionSubmit Number_toString s ws message in
  (rejectionNotice ws (out r) <-> groundsForRejection Number_toString s message)
  /\ (rejectionNotice ws (out r) -> st r = s /\ threw r = false)
  /\ (~ rejectionNotice ws (out r) -> exists block, chain (st r) = chain s ++ [block]).
Proof.
  intros Hd r.
  assert (Haccept : forall challenge hashValue,
             currentChallenge s = Some challenge ->
             get message "hash" = Some (JStr (recomputedHash Number_toString challenge message)) ->
             BigInt_hex (recomputedHash Number_toString challenge message) = Some hashValue ->
             (hashValue <? calculateTarget (inject_Z (difficulty s))) = true ->
             ~ groundsForRejection Number_toString s message).
  { intros challenge v Ech Eh Ev Et. unfold groundsForRejection. rewrite Ech.
    intros [Hne | (v' & Ev' & Hge)]; [congruence|].
    rewrite calculateTarget_integer in Et by exact Hd.
    apply Z.ltb_lt in Et. congruence. }
  destruct (handleSolutionSubmit_cases s ws message)
    as [Ech Er | challenge Ech Hne Er | challenge v Ech Eh Ev Et Er
        | challenge v Ech Eh Ev Et Es Er | challenge v Ech Eh Ev Et Es Er];
    fold r in Er; rewrite Er; clear Er.
  - cbn [out st threw done]. unfold groundsForRejection. rewrite Ech.
    repeat split; auto.
    + intros _. left. reflexivity.
    + intros H. exfalso. apply H. left. reflexivity.
  - cbn [out st threw done]. unfold groundsForRejection. rewrite Ech.
    repeat split; auto.
    + intros _. right. left. reflexivity.
    + intros H. exfalso. apply H. right. left. reflexivity.
  - cbn [out st threw done]. unfold groundsForRejection. rewrite Ech.
    repeat split; auto.
    + intros _. right. exists v. split; [exact Ev|].
      rewrite calculateTarget_integer in Et by exact Hd.
      apply Z.ltb_ge in Et. lia.
    + intros _. right. right. reflexivity.
    + intros H. exfalso. apply H. right. right. reflexivity.
  - cbn [out st threw throw]. repeat split.
    + intros H. exfalso. exact (not_rejectionNotice_nil ws H).
    + intros H. exfalso. exact (Haccept challenge v Ech Eh Ev Et H).
    + exfalso. exact (not_rejectionNotice_nil ws H).
    + exfalso. exact (not_rejectionNotice_nil ws H).
    + intros _. eexists. apply chain_addBlock.
  - cbv zeta. cbn [out st threw done]. repeat split.
    + intros H. exfalso. exact (not_rejectionNotice_broadcast ws _ H).
    + intros H. exfalso. exact (Haccept challenge v Ech Eh Ev Et H).
    + exfalso. exact (not_rejectionNotice_broadcast ws _ H).
    + intros _. eexists. destruct (canStartMining _); reflexivity.
Qed.

(** C9: the block hash is a function of [index], [timestamp], [previousHash],
    [merkleRoot], [nonce] and [difficulty] alone; two submissions that differ
    only in the claimed miner are hashed alike, and either both are turned
    down without a commit or both commit the template under the same hash,
    each with its own miner. *)
Theorem block_hash_ignores_miner
        (index timestamp : Z) (previousHash merkleRoot : string) (nonce : option json)
        (d : Z) (miner miner' : option json) (txs txs' : list Transaction)
        (reward reward' : option Q) (h h' : string)
        (template : BlockTemplate) (s : ServerState) (ws : nat) (hash : option json) :
  calculateBlockHash Number_toString
    (mkBlock index timestamp previousHash merkleRoot nonce d miner txs reward h)
  = calculateBlockHash Number_toString
      (mkBlock index timestamp previousHash merkleRoot nonce d miner' txs' reward' h')
  /\ calculateBlockHash Number_toString (candidate template nonce miner)
     = calculateBlockHash Number_toString (candidate template nonce miner')
  /\ (let r := handleSolutionSubmit Number_toString s ws (submission miner nonce hash) in
      let r' := handleSolutionSubmit Number_toString s ws (submission miner' nonce hash) in
      (chain (st r) = chain s /\ chain (st r') = chain s)
      \/ exists challenge accepted,
          currentChallenge s = Some challenge
          /\ hash = Some (JStr accepted)
          /\ chain (st r)
             = chain s ++ [with_hash accepted (candidate (blockTemplate challenge) nonce miner)]
          /\ chain (st r')
             = chain s ++ [with_hash accepted (candidate (blockTemplate challenge) nonce miner')]).
Proof.
  split; [reflexivity|]. split; [reflexivity|].
  intros r r'. subst r r'. unfold handleSolutionSubmit.
  destruct (get_submission miner nonce hash) as (-> & -> & ->).
  destruct (get_submission miner' nonce hash) as (-> & -> & ->).
  destruct (currentChallenge s) as [challenge|] eqn:Ech; [|left; split; reflexivity].
  change (calculateBlockHash Number_toString
            (candidate (blockTemplate challenge) nonce miner'))
    with (calculateBlockHash Number_toString
            (candidate (blockTemplate challenge) nonce miner)).
  destruct hash as [[| | | |submitted| |]|]; try (left; split; reflexivity).
  destruct (String.eqb_spec
              (calculateBlockHash Number_toString
                 (candidate (blockTemplate challenge) nonce miner)) submitted)
    as [Heq|Hne]; cbn [negb]; [|left; split; reflexivity].
  destruct (hashMeetsTarget submitted (inject_Z (difficulty s))) as [[|]|];
    try (left; split; reflexivity).
  right. exists challenge, submitted. rewrite Heq.
  split; [reflexivity|]. split; [reflexivity|].
  split.
  - destruct (has_slice miner); cbn [negb]; [|reflexivity].
    destruct (canStartMining _); reflexivity.
  - destruct (has_slice miner'); cbn [negb]; [|reflexivity].
    destruct (canStartMining _); reflexivity.
Qed.

End Submissions.

(** ** The ledger *)

Ltac state_simpl :=
  cbn [st out threw done throw
       chain totalSupply difficulty currentChallenge miningInProgress
       connectedWallets pendingTransactions processedTxIds genesisTime sockets timers
       with_chain with_pool with_round with_difficulty with_sockets with_timers
       with_connectedWallets setWalletAddress addBlock] in *.

Section Ledger.

Variable Number_toString : Q -> string.
Variable Math_pow : Q -> Q -> Q.

Lemma ledger_adjustDifficulty (s : ServerState) (now : Z) :
  ledger (adjustDifficulty Math_pow s now) = ledger s.
Proof.
  unfold adjustDifficulty.
  repeat match goal with
         | |- context [if ?c then _ else _] => destruct c
         | |- context [match ?x with _ => _ end] => destruct x
         end; reflexivity.
Qed.

(** The adjuster touches the difficulty only. *)
Lemma adjustDifficulty_frame (s : ServerState) (now : Z) :
  adjustDifficulty Math_pow s now
  = with_difficulty (difficulty (adjustDifficulty Math_pow s now)) s.
Proof.
  unfold adjustDifficulty.
  repeat match goal with
         | |- context [if ?c then _ else _] => destruct c
         | |- context [match ?x with _ => _ end] => destruct x
         end; try reflexivity; destruct s; reflexivity.
Qed.

(** A round that can start does start: the template takes the chain length as
    its index and the hash of the tip as its [previousHash]. *)
Lemma startMiningRound_opens (s : ServerState) (clock : Clock) (lastBlock : Block) :
  canStartMining s = true ->
  miningInProgress s = false ->
  nth_error (chain s) (List.length (chain s) - 1) = Some lastBlock ->
  let d := difficulty (adjustDifficulty Math_pow s (adjustNow clock)) in
  let transactions :=
    firstn PROTOCOL.MAX_TRANSACTIONS_PER_BLOCK (pendingTransactions s) in
  let template :=
    mkBlockTemplate (Z.of_nat (List.length (chain s))) (templateNow clock)
                    (b_hash lastBlock)
                    (calculateMerkleRoot Number_toString (map tx_object transactions))
                    d transactions (calculateBlockReward s) in
  st (startMiningRound Number_toString Math_pow s clock)
  = with_round (Some (mkMiningChallenge template (startedNow clock) d)) true
               (with_difficulty d s)
  /\ (d <> 0 ->
      out (startMiningRound Number_toString Math_pow s clock)
      = [broadcast (challenge_new template d (Z.quot maxTarget d))]
      /\ threw (startMiningRound Number_toString Math_pow s clock) = false).
Proof.
  intros Hcan Hidle Hlast d transactions template.
  unfold startMiningRound. rewrite Hcan, Hidle. cbn [negb orb].
  rewrite (adjustDifficulty_frame (with_round (currentChallenge s) true s)).
  assert (Ed : difficulty (adjustDifficulty Math_pow (with_round (currentChallenge s) true s)
                                            (adjustNow clock)) = d).
  { unfold d. rewrite !adjustDifficulty_difficulty. reflexivity. }
  rewrite Ed. state_simpl. rewrite Hlast.
  destruct (Z.eqb_spec d 0) as [E0|E0].
  - split; [reflexivity | intros H; contradiction].
  - split; [reflexivity | intros _; split; reflexivity].
Qed.

Lemma ledger_startMiningRound (s : ServerState) (clock : Clock) :
  ledger (st (startMiningRound Number_toString Math_pow s clock)) = ledger s.
Proof.
  unfold startMiningRound.
  destruct (negb (canStartMining s) || miningInProgress s); [reflexivity|].
  destruct (nth_error _ _);
    [destruct (difficulty _ =? 0)|];
    exact (ledger_adjustDifficulty (with_round (currentChallenge s) true s)
                                   (adjustNow clock)).
Qed.

Lemma ledger_handlePoolJoin (s : ServerState) (ws : nat) (message : json) (clock : Clock) :
  ledger (st (handlePoolJoin Number_toString Math_pow s ws message clock)) = ledger s.
Proof.
  unfold handlePoolJoin.
  destruct (negb (isValidAddress _)); [reflexivity|].
  destruct (get message "walletAddress") as [[| | | |addr| |]|]; try reflexivity.
  destruct (has addr (connectedWallets s)); [reflexivity|].
  destruct (_ && _); [|reflexivity].
  exact (ledger_startMiningRound _ clock).
Qed.

Lemma ledger_submitTransaction (s : ServerState) (tx : json) :
  ledger (st (submitTransaction Number_toString s tx)) = ledger s.
Proof.
  unfold submitTransaction.
  repeat match goal with
         | |- context [if ?c then _ else _] => destruct c
         end; reflexivity.
Qed.

Lemma ledger_onClose (s : ServerState) (ws : nat) : ledger (st (onClose s ws)) = ledger s.
Proof.
  unfold onClose. destruct (lookup_socket ws (sockets s)); [|reflexivity].
  destruct (String.eqb _ _); reflexivity.
Qed.

Lemma ledger_onTimeout (s : ServerState) (clock : Clock) :
  ledger (st (onTimeout Number_toString Math_pow s clock)) = ledger s.
Proof.
  unfold onTimeout. destruct (timers s) as [|n] eqn:E; [reflexivity|].
  exact (ledger_startMiningRound (with_timers n s) clock).
Qed.

Lemma ledger_handleSolutionSubmit (s : ServerState) (ws : nat) (message : json) :
  ledger (st (handleSolutionSubmit Number_toString s ws message)) = ledger s
  \/ exists block,
      ledger (st (handleSolutionSubmit Number_toString s ws message))
      = ledger (addBlock s block).
Proof.
  destruct (handleSolutionSubmit_cases Number_toString s ws message)
    as [Ech Er | challenge Ech Hne Er | challenge v Ech Eh Ev Et Er
        | challenge v Ech Eh Ev Et Es Er | challenge v Ech Eh Ev Et Es Er];
    rewrite Er; try (left; reflexivity); right; eexists.
  - reflexivity.
  - cbv zeta. destruct (canStartMining _); reflexivity.
Qed.

(** Every event leaves the ledger alone or commits exactly one block. *)
Lemma ledger_step (s : ServerState) (e : Event) :
  ledger (st (step Number_toString Math_pow s e)) = ledger s
  \/ exists block,
      ledger (st (step Number_toString Math_pow s e)) = ledger (addBlock s block).
Proof.
  destruct e as [ws message clock | ws | clock | body]; cbn [step].
  - unfold onMessage. destruct (_ || _); [left; reflexivity|].
    assert (H : ledger (st (handleMessage Number_toString Math_pow s ws message clock))
                = ledger s
                \/ exists block,
                  ledger (st (handleMessage Number_toString Math_pow s ws message clock))
                  = ledger (addBlock s block)).
    { unfold handleMessage.
      destruct (get message "type") as [[| | | |type| |]|]; try (left; reflexivity).
      destruct (String.eqb type "pool:join"); [left; apply ledger_handlePoolJoin|].
      destruct (String.eqb type "solution:submit"); [|left; reflexivity].
      apply ledger_handleSolutionSubmit. }
    destruct (threw _); exact H.
  - left. apply ledger_onClose.
  - left. apply ledger_onTimeout.
  - left. apply ledger_submitTransaction.
Qed.

(** *** The supply and the rewards *)

Lemma reward_or_0_rewardOf (b : Block) : (reward_or_0 (b_reward b) == rewardOf b)%Q.
Proof.
  unfold reward_or_0, rewardOf. destruct (b_reward b) as [r|]; [|reflexivity].
  destruct (Qeq_bool r 0) eqn:E; [|reflexivity].
  apply Qeq_bool_eq in E. symmetry. exact E.
Qed.

Lemma sumRewards_app (c : list Block) (b : Block) :
  (sumRewards (c ++ [b]) == sumRewards c + rewardOf b)%Q.
Proof.
  induction c as [|a c IH]; cbn [app sumRewards]; [lra | rewrite IH; lra].
Qed.

Lemma accumulated_app (c : list Block) (b : Block) :
  accumulated (c ++ [b]) = double (accumulated c + rewardOf b).
Proof. unfold accumulated. rewrite fold_left_app. reflexivity. Qed.

Lemma totalSupply_addBlock_rewardOf (s : ServerState) (block : Block) :
  totalSupply (addBlock s block) = double (totalSupply s + rewardOf block).
Proof.
  rewrite totalSupply_addBlock. apply double_comp.
  rewrite reward_or_0_rewardOf. reflexivity.
Qed.

Lemma ledger_eq (s s' : ServerState) :
  ledger s' = ledger s -> chain s' = chain s /\ totalSupply s' = totalSupply s.
Proof. unfold ledger. intros H. now inversion H. Qed.

Lemma run_supply (genesis : list Block) (events : list Event) :
  forall s rest,
    chain s = genesis ++ rest ->
    totalSupply s = accumulated rest ->
    exists rest',
      chain (run Number_toString Math_pow s events) = genesis ++ rest'
      /\ totalSupply (run Number_toString Math_pow s events) = accumulated rest'.
Proof.
  induction events as [|e events IH]; intros s rest Hchain Hsupply.
  - exists rest. split; assumption.
  - cbn [run fold_left]. fold (run Number_toString Math_pow).
    change (fold_left _ events ?x) with (run Number_toString Math_pow x events).
    destruct (ledger_step s e) as [Hsame | [block Hadd]].
    + apply ledger_eq in Hsame. destruct Hsame as [Hc Ht].
      apply IH with rest; [now rewrite Hc | now rewrite Ht].
    + apply ledger_eq in Hadd. destruct Hadd as [Hc Ht].
      apply IH with (rest ++ [block]).
      * rewrite Hc, chain_addBlock, Hchain. now rewrite app_assoc.
      * rewrite Ht, totalSupply_addBlock_rewardOf, accumulated_app, Hsupply. reflexivity.
Qed.

Lemma sumsAreDoubles_front (c : list Block) (b : Block) :
  sumsAreDoubles (c ++ [b]) -> sumsAreDoubles c.
Proof.
  intros H k. destruct (Nat.le_gt_cases k (List.length c)) as [Hk | Hk].
  - specialize (H k). rewrite firstn_app in H.
    replace (k - List.length c)%nat with 0%nat in H by lia.
    cbn [firstn] in H. rewrite app_nil_r in H. exact H.
  - specialize (H (List.length c)). rewrite firstn_app, Nat.sub_diag in H.
    cbn [firstn] in H. rewrite app_nil_r, firstn_all in H.
    rewrite firstn_all2 by lia. exact H.
Qed.

Lemma accumulated_exact (c : list Block) :
  sumsAreDoubles c -> (accumulated c == sumRewards c)%Q.
Proof.
  induction c as [|b c IH] using rev_ind; intros H.
  - reflexivity.
  - specialize (IH (sumsAreDoubles_front c b H)).
    rewrite accumulated_app.
    assert (E : (accumulated c + rewardOf b == sumRewards (c ++ [b]))%Q).
    { rewrite sumRewards_app, IH. reflexivity. }
    rewrite (double_comp _ _ E).
    specialize (H (List.length (c ++ [b]))). rewrite firstn_all in H. exact H.
Qed.

(** C10, as amended: a commit through [addBlock] lengthens the chain by
    exactly one block and sets [totalSupply] to the double nearest to the old
    supply plus that block's reward, a missing reward counting 0; the supply
    grows by exactly the reward whenever that sum is a double.  The genesis
    block carries no reward.  Hence, in every run of the coordinator, the
    chain is the genesis block followed by the committed blocks and
    [totalSupply] is their rewards added up in chain order, each sum rounded
    to a double: the sum of the rewards itself as long as every partial sum
    of the rewards is a double. *)
Theorem supply_is_sum_of_rewards (s : ServerState) (block : Block)
        (now : Z) (events : list Event) :
  List.length (chain (addBlock s block)) = S (List.length (chain s))
  /\ totalSupply (addBlock s block) = double (totalSupply s + rewardOf block)
  /\ ((double (totalSupply s + rewardOf block) == totalSupply s + rewardOf block)%Q ->
      (totalSupply (addBlock s block) == totalSupply s + rewardOf block)%Q)
  /\ (exists genesis,
         chain (constructor Number_toString now) = [genesis]
         /\ b_reward genesis = None /\ (rewardOf genesis == 0)%Q)
  /\ exists committed,
      chain (run Number_toString Math_pow (constructor Number_toString now) events)
      = chain (constructor Number_toString now) ++ committed
      /\ totalSupply (run Number_toString Math_pow (constructor Number_toString now) events)
         = accumulated committed
      /\ (sumsAreDoubles committed ->
          (totalSupply (run Number_toString Math_pow (constructor Number_toString now) events)
           == sumRewards committed)%Q).
Proof.
  split; [rewrite chain_addBlock, length_app; simpl; lia|].
  split; [apply totalSupply_addBlock_rewardOf|].
  split; [intros H; rewrite totalSupply_addBlock_rewardOf; exact H|].
  split; [eexists; repeat split; reflexivity|].
  destruct (run_supply (chain (constructor Number_toString now)) events
                       (constructor Number_toString now) [])
    as (committed & Hchain & Hsupply).
  - now rewrite app_nil_r.
  - reflexivity.
  - exists committed. split; [exact Hchain|]. split; [exact Hsupply|].
    intros H. rewrite Hsupply. apply accumulated_exact. exact H.
Qed.

End Ledger.

(** C10 as stated fails where the sum leaves the doubles: one block a
    round, the rewards of the blocks 1 to 6299999 add up to a double; the
    reward of block 6300000, [50 / 2^30], falls half-way between two doubles
    there, and the supply grows by less than it. *)
Lemma addBlock_rounds_the_supply :
  (totalSupply Sample.late
   == 209999 * blockRewardAt 1
      + fold_right Qplus 0
          (map (fun h => 210000 * blockRewardAt (210000 * Z.of_nat h)) (seq 1 29)))%Q
  /\ double (totalSupply Sample.late) = totalSupply Sample.late
  /\ rewardOf Sample.lateBlock = blockRewardAt 6300000
  /\ (totalSupply (addBlock Sample.late Sample.lateBlock)
      < totalSupply Sample.late + rewardOf Sample.lateBlock)%Q
  /\ ~ (totalSupply (addBlock Sample.late Sample.lateBlock)
        == totalSupply Sample.late + rewardOf Sample.lateBlock)%Q.
Proof. repeat split; vm_compute; congruence. Qed.

(** ** Joining the pool *)

Section Membership.

Variable Number_toString : Q -> string.
Variable Math_pow : Q -> Q -> Q.

Lemma has_single (a b : string) (v : nat * Z) : a <> b -> has b [(a, v)] = false.
Proof.
  intros H. unfold has. cbn [existsb fst]. rewrite orb_false_r.
  apply String.eqb_neq. congruence.
Qed.

(** An accepted join: the membership gains the address, the socket remembers
    it, and a round is started if the threshold is met and none is running. *)
Lemma handlePoolJoin_accept (s : ServerState) (ws : nat) (a : string) (clock : Clock) :
  isValidAddress (Some (JStr a)) = true ->
  has a (connectedWallets s) = false ->
  handlePoolJoin Number_toString Math_pow s ws (joining a) clock =
    let s' := setWalletAddress ws a
                (with_connectedWallets (connectedWallets s ++ [(a, (ws, joinedNow clock))]) s) in
    let sent :=
      [ send ws (pool_joined a (size (connectedWallets s')) (canStartMining s'));
        broadcast (pool_updated (size (connectedWallets s')) (Some (canStartMining s'))) ] in
    if canStartMining s' && negb (miningInProgress s')
    then let r := startMiningRound Number_toString Math_pow s' clock in
         mkResult (st r) (sent ++ out r) (threw r)
    else done s' sent.
Proof.
  intros Hvalid Hnew. unfold handlePoolJoin.
  change (get (joining a) "walletAddress") with (Some (JStr a)).
  rewrite Hvalid, Hnew. reflexivity.
Qed.

Lemma tip_exists (c : list Block) :
  c <> [] -> exists lastBlock, nth_error c (List.length c - 1) = Some lastBlock.
Proof.
  intros H. destruct (nth_error c (List.length c - 1)) as [x|] eqn:E; [eauto|].
  apply nth_error_None in E. destruct c; [congruence | simpl in E; lia].
Qed.

Lemma join_below_threshold (s : ServerState) (ws : nat) (a : string) (clock : Clock) :
  isValidAddress (Some (JStr a)) = true ->
  connectedWallets s = [] ->
  handlePoolJoin Number_toString Math_pow s ws (joining a) clock
  = done (setWalletAddress ws a
            (with_connectedWallets [(a, (ws, joinedNow clock))] s))
         [ send ws (pool_joined a 1 false); broadcast (pool_updated 1 (Some false)) ].
Proof.
  intros Hvalid Hempty.
  rewrite handlePoolJoin_accept; [|exact Hvalid|rewrite Hempty; reflexivity].
  rewrite Hempty. reflexivity.
Qed.

Lemma join_reaching_threshold
      (s : ServerState) (ws : nat) (a b : string) (v : nat * Z) (clock : Clock) :
  isValidAddress (Some (JStr b)) = true ->
  connectedWallets s = [(a, v)] ->
  a <> b ->
  miningInProgress s = false ->
  chain s <> [] ->
  1 <= difficulty s ->
  let r := handlePoolJoin Number_toString Math_pow s ws (joining b) clock in
  map fst (connectedWallets (st r)) = [a; b]
  /\ (exists challenge, currentChallenge (st r) = Some challenge)
  /\ miningInProgress (st r) = true
  /\ opensRound (out r) = true.
Proof.
  intros Hvalid Hone Hab Hidle Hchain Hd r. subst r.
  rewrite handlePoolJoin_accept;
    [|exact Hvalid|rewrite Hone; apply has_single; exact Hab].
  rewrite Hone. cbv zeta.
  set (s' := setWalletAddress ws b
               (with_connectedWallets ([(a, v)] ++ [(b, (ws, joinedNow clock))]) s)).
  assert (Hcan : canStartMining s' = true) by reflexivity.
  assert (Hidle' : miningInProgress s' = false) by exact Hidle.
  destruct (tip_exists (chain s') Hchain) as [lastBlock Hlast].
  destruct (startMiningRound_opens Number_toString Math_pow s' clock lastBlock
              Hcan Hidle' Hlast) as [Est Eout].
  assert (Hd' : difficulty (adjustDifficulty Math_pow s' (adjustNow clock)) <> 0).
  { pose proof (adjustDifficulty_positive Math_pow s' (adjustNow clock) Hd). lia. }
  destruct (Eout Hd') as [Eout' _]. clear Eout.
  rewrite Hcan, Hidle'. cbn [negb andb st out]. rewrite Est, Eout'.
  split; [reflexivity|]. split; [eexists; reflexivity|]. split; reflexivity.
Qed.

(** C8: a join under an address that is already registered is answered with
    an error and changes nothing; and when two distinct valid addresses join
    an idle coordinator (nobody connected, no round running), no round is
    opened by the first join and one is opened by the second. *)
Theorem join_duplicate_and_threshold
        (s : ServerState) (ws : nat) (message : json) (clock : Clock) (addr : string)
        (idle : ServerState) (ws1 ws2 : nat) (a b : string) (clock1 clock2 : Clock) :
  get message "walletAddress" = Some (JStr addr) ->
  has addr (connectedWallets s) = true ->
  connectedWallets idle = [] ->
  miningInProgress idle = false ->
  currentChallenge idle = None ->
  chain idle <> [] ->
  1 <= difficulty idle ->
  isValidAddress (Some (JStr a)) = true ->
  isValidAddress (Some (JStr b)) = true ->
  a <> b ->
  (let r := handlePoolJoin Number_toString Math_pow s ws message clock in
   st r = s /\ threw r = false /\ exists text, out r = [send ws (error text)])
  /\ (let r1 := handlePoolJoin Number_toString Math_pow idle ws1 (joining a) clock1 in
      let r2 := handlePoolJoin Number_toString Math_pow (st r1) ws2 (joining b) clock2 in
      map fst (connectedWallets (st r1)) = [a]
      /\ currentChallenge (st r1) = None
      /\ miningInProgress (st r1) = false
      /\ opensRound (out r1) = false
      /\ map fst (connectedWallets (st r2)) = [a; b]
      /\ (exists challenge, currentChallenge (st r2) = Some challenge)
      /\ miningInProgress (st r2) = true
      /\ opensRound (out r2) = true).
Proof.
  intros Hget Hhas Hempty Hidle Hnone Hchain Hd Ha Hb Hab. split.
  - cbv zeta. unfold handlePoolJoin. rewrite Hget, Hhas.
    destruct (negb (isValidAddress (Some (JStr addr))));
      (split; [reflexivity | split; [reflexivity | eexists; reflexivity]]).
  - cbv zeta. rewrite (join_below_threshold idle ws1 a clock1 Ha Hempty).
    cbn [st out done].
    split; [reflexivity|]. split; [exact Hnone|]. split; [exact Hidle|].
    split; [reflexivity|].
    apply join_reaching_threshold with (v := (ws1, joinedNow clock1)); auto.
Qed.

End Membership.

(** ** What holds when the log line does not throw *)

Section PoliteRuns.

Variable Number_toString : Q -> string.
Variable Math_pow : Q -> Q -> Q.

Lemma round_after_commit (s : ServerState) :
  let s' := with_round None false s in
  let s'' := if canStartMining s' then with_timers (S (timers s')) s' else s' in
  currentChallenge s'' = None /\ miningInProgress s'' = false /\ chain s'' = chain s.
Proof. cbv zeta. destruct (canStartMining _); repeat split; reflexivity. Qed.

(** Once a submission has been committed with the round reset reached, the
    round is gone and every further submission is answered [No active
    challenge] without any change of state. *)
Lemma accepted_submission_closes_round (s : ServerState) (ws : nat) (message : json) :
  has_slice (get message "walletAddress") = true ->
  chain (st (handleSolutionSubmit Number_toString s ws message)) <> chain s ->
  let s' := st (handleSolutionSubmit Number_toString s ws message) in
  currentChallenge s' = None
  /\ miningInProgress s' = false
  /\ List.length (chain s') = S (List.length (chain s))
  /\ forall ws' message',
      handleSolutionSubmit Number_toString s' ws' message'
      = done s' [send ws' (error "No active challenge")].
Proof.
  intros Hslice Hgrew s'. subst s'.
  destruct (handleSolutionSubmit_cases Number_toString s ws message)
    as [Ech Er | challenge Ech Hne Er | challenge v Ech Eh Ev Et Er
        | challenge v Ech Eh Ev Et Es Er | challenge v Ech Eh Ev Et Es Er];
    rewrite Er in *; cbn [st done] in Hgrew; try congruence.
  cbv zeta in *. cbn [st done] in *.
  destruct (round_after_commit
              (addBlock s (with_hash (recomputedHash Number_toString challenge message)
                                     (candidate (blockTemplate challenge)
                                                (get message "nonce")
                                                (get message "walletAddress")))))
    as (Hnone & Hidle & Hchain).
  cbv zeta in Hnone, Hidle, Hchain.
  split; [exact Hnone|]. split; [exact Hidle|]. split.
  - rewrite Hchain, chain_addBlock, length_app. simpl. lia.
  - intros ws' message'. unfold handleSolutionSubmit at 1. now rewrite Hnone.
Qed.

Lemma chainLinked_snoc (c : list Block) (tip b : Block) :
  chainLinked Number_toString c ->
  nth_error c (List.length c - 1) = Some tip ->
  b_index b = Z.of_nat (List.length c) ->
  b_hash b = calculateBlockHash Number_toString b ->
  b_previousHash b = calculateBlockHash Number_toString tip ->
  chainLinked Number_toString (c ++ [b]).
Proof.
  intros Hc Htip Hindex Hhash Hprev i x Hi.
  destruct (Nat.lt_ge_cases i (List.length c)) as [Hlt|Hge].
  - rewrite nth_error_app1 in Hi by exact Hlt.
    destruct (Hc i x Hi) as (H1 & H2 & H3). repeat split; auto.
    intros j p Hj Hp. subst i.
    rewrite nth_error_app1 in Hp by lia. eapply H3; eauto.
  - assert (Hi' : i = List.length c).
    { assert (Hsome : nth_error (c ++ [b]) i <> None) by congruence.
      apply nth_error_Some in Hsome. rewrite length_app in Hsome. simpl in Hsome. lia. }
    subst i. rewrite nth_error_app2, Nat.sub_diag in Hi by lia.
    cbn in Hi. injection Hi as <-.
    repeat split; auto.
    intros j p Hj Hp. rewrite nth_error_app1 in Hp by lia.
    replace j with (List.length c - 1)%nat in Hp by lia. congruence.
Qed.

Lemma consistent_frame (s s' : ServerState) :
  chain s' = chain s -> currentChallenge s' = currentChallenge s ->
  consistent Number_toString s -> consistent Number_toString s'.
Proof. unfold consistent. intros -> ->. auto. Qed.

Lemma consistent_constructor (now : Z) :
  consistent Number_toString (constructor Number_toString now).
Proof.
  split; [discriminate|]. split; [|exact I].
  intros [|[|i]] b Hb; cbn in Hb; try discriminate.
  injection Hb as <-. repeat split. intros j p Hj. discriminate Hj.
Qed.

Lemma consistent_startMiningRound (s : ServerState) (clock : Clock) :
  consistent Number_toString s ->
  consistent Number_toString (st (startMiningRound Number_toString Math_pow s clock)).
Proof.
  intros (Hne & Hlinked & Hfits).
  destruct (negb (canStartMining s) || miningInProgress s) eqn:Hguard.
  - unfold startMiningRound. rewrite Hguard. exact (conj Hne (conj Hlinked Hfits)).
  - apply orb_false_elim in Hguard. destruct Hguard as [Hcan Hidle].
    apply negb_false_iff in Hcan.
    destruct (tip_exists (chain s) Hne) as [tip Htip].
    destruct (startMiningRound_opens Number_toString Math_pow s clock tip Hcan Hidle Htip)
      as [Est _].
    rewrite Est. split; [exact Hne|]. split; [exact Hlinked|].
    split; [reflexivity|]. exists tip. split; [exact Htip | reflexivity].
Qed.

Lemma consistent_handlePoolJoin (s : ServerState) (ws : nat) (message : json) (clock : Clock) :
  consistent Number_toString s ->
  consistent Number_toString (st (handlePoolJoin Number_toString Math_pow s ws message clock)).
Proof.
  intros H. unfold handlePoolJoin.
  destruct (negb (isValidAddress _)); [exact H|].
  destruct (get message "walletAddress") as [[| | | |addr| |]|]; try exact H.
  destruct (has addr (connectedWallets s)); [exact H|].
  destruct (_ && _).
  - cbn [st]. apply consistent_startMiningRound.
    revert H. apply consistent_frame; reflexivity.
  - revert H. apply consistent_frame; reflexivity.
Qed.

Lemma consistent_handleSolutionSubmit (s : ServerState) (ws : nat) (message : json) :
  has_slice (get message "walletAddress") = true ->
  consistent Number_toString s ->
  consistent Number_toString (st (handleSolutionSubmit Number_toString s ws message)).
Proof.
  intros Hslice H.
  destruct (handleSolutionSubmit_cases Number_toString s ws message)
    as [Ech Er | challenge Ech Hne Er | challenge v Ech Eh Ev Et Er
        | challenge v Ech Eh Ev Et Es Er | challenge v Ech Eh Ev Et Es Er];
    rewrite Er; try exact H; [congruence|].
  destruct H as (Hne & Hlinked & Hfits).
  rewrite Ech in Hfits. destruct Hfits as (Hindex & tip & Htip & Hprev).
  cbv zeta.
  assert (Hgoal : consistent Number_toString
            (with_round None false
               (addBlock s (with_hash (recomputedHash Number_toString challenge message)
                                      (candidate (blockTemplate challenge)
                                                 (get message "nonce")
                                                 (get message "walletAddress")))))).
  { split; [|split; [|exact I]].
    - cbn [chain with_round]. rewrite chain_addBlock. intros E.
      apply app_eq_nil in E. destruct E as [_ E]. discriminate E.
    - cbn [chain with_round]. rewrite chain_addBlock.
      apply chainLinked_snoc with tip; auto.
      cbn [b_previousHash with_hash candidate]. rewrite Hprev.
      destruct (Hlinked _ _ Htip) as (_ & Hh & _). exact Hh. }
  destruct (canStartMining _); [|exact Hgoal].
  revert Hgoal. apply consistent_frame; reflexivity.
Qed.

Lemma consistent_step (s : ServerState) (e : Event) :
  polite e ->
  consistent Number_toString s ->
  consistent Number_toString (st (step Number_toString Math_pow s e)).
Proof.
  intros Hpolite H.
  destruct e as [ws message clock | ws | clock | body]; cbn [step].
  - unfold onMessage. destruct (_ || _); [exact H|].
    assert (Hm : consistent Number_toString
                   (st (handleMessage Number_toString Math_pow s ws message clock))).
    { unfold handleMessage. cbn [polite] in Hpolite.
      destruct (get message "type") as [[| | | |type| |]|]; try exact H.
      destruct (String.eqb type "pool:join"); [apply consistent_handlePoolJoin; exact H|].
      destruct (String.eqb_spec type "solution:submit") as [->|Hs]; [|exact H].
      apply consistent_handleSolutionSubmit; [|exact H].
      destruct (Hpolite eq_refl) as [miner ->]. reflexivity. }
    destruct (threw _); exact Hm.
  - unfold onClose. destruct (lookup_socket ws (sockets s)); [|exact H].
    destruct (String.eqb _ _); [exact H|].
    revert H. apply consistent_frame; reflexivity.
  - unfold onTimeout. destruct (timers s) as [|n]; [exact H|].
    apply consistent_startMiningRound. revert H. apply consistent_frame; reflexivity.
  - unfold submitTransaction.
    repeat match goal with
           | |- context [if ?c then _ else _] => destruct c
           end; exact H.
Qed.

(** X19: the invariant of C2 on every run that stays clear of the defect: when
    every submission names its miner by a string, each block of the chain
    sits at its index, carries its own hash and names the hash of its
    predecessor. *)
Lemma polite_runs_keep_chain_linked (now : Z) (events : list Event) :
  Forall polite events ->
  chainLinked Number_toString
              (chain (run Number_toString Math_pow (constructor Number_toString now) events)).
Proof.
  intros Hpolite.
  assert (H : forall s, consistent Number_toString s ->
                        consistent Number_toString (run Number_toString Math_pow s events)).
  { induction Hpolite as [|e events He Hrest IH]; intros s Hs; [exact Hs|].
    cbn [run fold_left].
    change (fold_left _ events ?x) with (run Number_toString Math_pow x events).
    apply IH, consistent_step; assumption. }
  apply (H _ (consistent_constructor now)).
Qed.

(** The replay check the route does perform: a valid transaction whose id is
    among the processed ones is refused and nothing changes. *)
Lemma replay_of_processed_rejected (s : ServerState) (tx : json) :
  valid (validateTransaction Number_toString tx) = true ->
  includes (processedTxIds s) (sha256 (JSON_stringify Number_toString (payload tx))) = true ->
  submitTransaction Number_toString s tx
  = done s [respond 400 false "Transaction already processed (possible replay attack)"].
Proof.
  intros Hvalid Hseen. unfold submitTransaction.
  destruct (negb (truthy (Some tx)) || negb (typeof_object (Some tx))) eqn:Hshape.
  - unfold validateTransaction in Hvalid. rewrite Hshape in Hvalid. discriminate Hvalid.
  - rewrite Hvalid, Hseen. reflexivity.
Qed.

End PoliteRuns.

(** ** The concrete run, step by step *)

(** Conjunctions of closed equations, each settled by evaluation. *)
Ltac evaluate :=
  lazymatch goal with
  | |- _ /\ _ => split; [evaluate | evaluate]
  | |- _ <> _ => vm_compute; discriminate
  | |- _ => vm_compute; reflexivity
  end.

Lemma fresh_state : Sample.fresh = Sample.freshState.
Proof. vm_compute; reflexivity. Qed.

Lemma joins_open (Math_pow : Q -> Q -> Q) :
  run Number_toString_integer Math_pow Sample.freshState Sample.joins = Sample.openedState.
Proof. vm_compute; reflexivity. Qed.

Lemma opened_state (Math_pow : Q -> Q -> Q) : Sample.opened Math_pow = Sample.openedState.
Proof. unfold Sample.opened. rewrite fresh_state. apply joins_open. Qed.

Lemma first_anonymous (Math_pow : Q -> Q -> Q) :
  step Number_toString_integer Math_pow Sample.openedState Sample.anonymousSubmit
  = mkResult Sample.onceState [send 2 (error "Invalid message format")] false.
Proof. vm_compute; reflexivity. Qed.

Lemma second_anonymous (Math_pow : Q -> Q -> Q) :
  step Number_toString_integer Math_pow Sample.onceState Sample.anonymousSubmit
  = mkResult Sample.twiceState [send 2 (error "Invalid message format")] false.
Proof. vm_compute; reflexivity. Qed.

Lemma twice_state (Math_pow : Q -> Q -> Q) :
  run Number_toString_integer Math_pow (Sample.opened Math_pow)
      [Sample.anonymousSubmit; Sample.anonymousSubmit]
  = Sample.twiceState.
Proof.
  unfold run. cbn [fold_left].
  rewrite opened_state, first_anonymous. cbn [st]. rewrite second_anonymous. reflexivity.
Qed.

(** C1 (code defect): one round, two blocks.  The round opened by the second
    join receives twice the same solution, sent without a [walletAddress].
    Each time the block is appended, the log line then throws on
    [walletAddress.slice], and the round is never cleared: it is still the
    current challenge after both commits, the submitter is told [Invalid
    message format] rather than [No active challenge], and the chain holds two
    blocks of that round. *)
Theorem one_round_two_blocks (Math_pow : Q -> Q -> Q) :
  let once :=
    run Number_toString_integer Math_pow (Sample.opened Math_pow) [Sample.anonymousSubmit] in
  let twice :=
    run Number_toString_integer Math_pow (Sample.opened Math_pow)
        [Sample.anonymousSubmit; Sample.anonymousSubmit] in
  currentChallenge (Sample.opened Math_pow) <> None
  /\ currentChallenge once = currentChallenge (Sample.opened Math_pow)
  /\ currentChallenge twice = currentChallenge (Sample.opened Math_pow)
  /\ List.length (chain (Sample.opened Math_pow)) = 1%nat
  /\ List.length (chain once) = 2%nat
  /\ List.length (chain twice) = 3%nat
  /\ trace Number_toString_integer Math_pow (Sample.opened Math_pow)
           [Sample.anonymousSubmit; Sample.anonymousSubmit]
     = [ [send 2 (error "Invalid message format")];
         [send 2 (error "Invalid message format")] ].
Proof.
  cbv zeta. rewrite twice_state.
  unfold run. cbn [fold_left trace].
  rewrite opened_state, !first_anonymous. cbn [st out]. rewrite second_anonymous. cbn [out].
  evaluate.
Qed.

(** C2 (code defect): the same run breaks the chain invariant.  Both committed
    blocks carry index 1 and point to the genesis block, so the block at
    position 2 has neither [index = 2] nor the hash of the block before it,
    [7cfb...], as [previousHash]. *)
Theorem chain_index_broken (Math_pow : Q -> Q -> Q) :
  let twice :=
    run Number_toString_integer Math_pow (Sample.opened Math_pow)
        [Sample.anonymousSubmit; Sample.anonymousSubmit] in
  map b_index (chain twice) = [0; 1; 1]
  /\ map b_previousHash (chain twice)
     = [ "0000000000000000000000000000000000000000000000000000000000000000";
         "2926be7ffe618b419b85c375c3528cf7da0e86ff99c74bfb409046f0d4e23a0c";
         "2926be7ffe618b419b85c375c3528cf7da0e86ff99c74bfb409046f0d4e23a0c" ]
  /\ map (calculateBlockHash Number_toString_integer) (firstn 2 (chain twice))
     = [ "2926be7ffe618b419b85c375c3528cf7da0e86ff99c74bfb409046f0d4e23a0c";
         "7cfbfe9bc8ca07e87f8e59d9b8625968dea337bf1d9f33612ef41baa2f6b6d4c" ].
Proof. cbv zeta. rewrite twice_state. evaluate. Qed.

(** The canonical payload of the sample payment hashes to its [messageHash],
    which is also the id it is given. *)
Example payment_signed :
  sha256 (JSON_stringify Number_toString_integer (payload Sample.payment))
  = "64e05ae97df85dad1679c65e3b01cbe9c22be9fe94cdb5d235e35434f42dac13".
Proof. evaluate. Qed.

Lemma first_post (Math_pow : Q -> Q -> Q) :
  step Number_toString_integer Math_pow Sample.freshState (post_transaction Sample.payment)
  = mkResult Sample.postedOnce
             [ broadcast (transaction_new Sample.admitted);
               respond 200 true (tx_id Sample.admitted) ] false.
Proof. vm_compute; reflexivity. Qed.

Lemma second_post (Math_pow : Q -> Q -> Q) :
  step Number_toString_integer Math_pow Sample.postedOnce (post_transaction Sample.payment)
  = mkResult Sample.postedTwice
             [ broadcast (transaction_new Sample.admitted);
               respond 200 true (tx_id Sample.admitted) ] false.
Proof. vm_compute; reflexivity. Qed.

(** C3 (code defect): the same valid payment posted twice in a row is admitted
    twice; replays are looked up among the ids of mined transactions only, so
    both copies wait in the pool under one id. *)
Theorem duplicate_transaction_admitted (Math_pow : Q -> Q -> Q) :
  let id := "64e05ae97df85dad1679c65e3b01cbe9c22be9fe94cdb5d235e35434f42dac13" in
  let admitted := mkTransaction Sample.payment id in
  let posted := [post_transaction Sample.payment; post_transaction Sample.payment] in
  trace Number_toString_integer Math_pow Sample.fresh posted
  = [ [broadcast (transaction_new admitted); respond 200 true id];
      [broadcast (transaction_new admitted); respond 200 true id] ]
  /\ pendingTransactions (run Number_toString_integer Math_pow Sample.fresh posted)
     = [admitted; admitted]
  /\ processedTxIds (run Number_toString_integer Math_pow Sample.fresh posted) = [].
Proof.
  cbv zeta. unfold run. cbn [fold_left trace].
  rewrite fresh_state, !first_post. cbn [st out]. rewrite !second_post. cbn [st out].
  repeat split; reflexivity.
Qed.

(** Once the payment has been mined, posting it again is refused as a
    replay. *)
Example mined_payment_replay_rejected :
  last (trace Number_toString_integer Sample.pow_unused Sample.freshState
              Sample.minedThenReplayed) []
  = [respond 400 false "Transaction already processed (possible replay attack)"].
Proof. vm_compute; reflexivity. Qed.

(** With the miner named, the same round commits one block, is cleared, and
    answers the next submission [No active challenge]. *)
Example named_solution_closes_round :
  trace Number_toString_integer Sample.pow_unused Sample.openedState
        [ ws_message 2 (Sample.solutionBy Sample.bob) (Sample.clockAt 1700000003000);
          ws_message 1 (Sample.solutionBy Sample.alice) (Sample.clockAt 1700000003001) ]
  = [ [ broadcast (block_mined
                     (mkBlock 1 1700000002000
                        "2926be7ffe618b419b85c375c3528cf7da0e86ff99c74bfb409046f0d4e23a0c"
                        "2e1cfa82b035c26cbbbdae632cea070514eb8b773f616aaeaf668e2f0be8f10d"
                        (Some (JNum 0)) 1 (Some (JStr Sample.bob)) [] (Some 50%Q)
                        "7cfbfe9bc8ca07e87f8e59d9b8625968dea337bf1d9f33612ef41baa2f6b6d4c")
                     (Some (JStr Sample.bob))) ];
      [ send 1 (error "No active challenge") ] ].
Proof. vm_compute; reflexivity. Qed.

(** The adjuster on concrete chains, the two growth factors being taken as 1:
    ten blocks leave the difficulty alone; with eleven blocks, blocks one
    second apart double it (ratio clamped to 2), blocks a thousand seconds
    apart halve it (ratio clamped to 0.5, floored), blocks 300 seconds apart
    scale it by 3600000 / 2700000, and blocks all mined in the same millisecond
    (a division by zero) double it. *)
Example adjustDifficulty_samples :
  map (fun s => difficulty (adjustDifficulty Sample.pow_unused s 0))
      [ Sample.spaced 10 1000; Sample.spaced 11 1000; Sample.spaced 11 1000000;
        Sample.spaced 11 300000; Sample.spaced 11 0 ]
  = [5; 10; 2; 6; 10].
Proof. vm_compute; reflexivity. Qed.

(** ** Witnesses *)

Lemma solution_rejected_iff_witness :
  1 <= difficulty Sample.openedState
  /\ (let r := handleSolutionSubmit Number_toString_integer Sample.openedState 2
                                    (Sample.solutionBy Sample.bob) in
      (rejectionNotice 2 (out r)
       <-> groundsForRejection Number_toString_integer Sample.openedState
                               (Sample.solutionBy Sample.bob))
      /\ (rejectionNotice 2 (out r) -> st r = Sample.openedState /\ threw r = false)
      /\ (~ rejectionNotice 2 (out r) ->
          exists block, chain (st r) = chain Sample.openedState ++ [block])).
Proof.
  assert (H : 1 <= difficulty Sample.openedState) by (vm_compute; discriminate).
  split; [exact H|].
  exact (solution_rejected_iff Number_toString_integer Sample.openedState 2
                               (Sample.solutionBy Sample.bob) H).
Defined.

Lemma join_duplicate_and_threshold_witness :
  let joined :=
    st (handlePoolJoin Number_toString_integer Sample.pow_unused Sample.freshState 1
                       (joining Sample.alice) (Sample.clockAt 1700000001000)) in
  (get (joining Sample.alice) "walletAddress" = Some (JStr Sample.alice)
   /\ has Sample.alice (connectedWallets joined) = true
   /\ connectedWallets Sample.freshState = []
   /\ miningInProgress Sample.freshState = false
   /\ currentChallenge Sample.freshState = None
   /\ chain Sample.freshState <> []
   /\ 1 <= difficulty Sample.freshState
   /\ isValidAddress (Some (JStr Sample.alice)) = true
   /\ isValidAddress (Some (JStr Sample.bob)) = true
   /\ Sample.alice <> Sample.bob)
  /\ (let r := handlePoolJoin Number_toString_integer Sample.pow_unused joined 3
                              (joining Sample.alice) (Sample.clockAt 1700000001500) in
      st r = joined /\ threw r = false /\ exists text, out r = [send 3 (error text)])
  /\ (let r1 := handlePoolJoin Number_toString_integer Sample.pow_unused Sample.freshState 1
                               (joining Sample.alice) (Sample.clockAt 1700000001000) in
      let r2 := handlePoolJoin Number_toString_integer Sample.pow_unused (st r1) 2
                               (joining Sample.bob) (Sample.clockAt 1700000002000) in
      map fst (connectedWallets (st r1)) = [Sample.alice]
      /\ currentChallenge (st r1) = None
      /\ miningInProgress (st r1) = false
      /\ opensRound (out r1) = false
      /\ map fst (connectedWallets (st r2)) = [Sample.alice; Sample.bob]
      /\ (exists challenge, currentChallenge (st r2) = Some challenge)
      /\ miningInProgress (st r2) = true
      /\ opensRound (out r2) = true).
Proof.
  intros joined.
  assert (H1 : get (joining Sample.alice) "walletAddress" = Some (JStr Sample.alice))
    by reflexivity.
  assert (H2 : has Sample.alice (connectedWallets joined) = true) by (vm_compute; reflexivity).
  assert (H3 : connectedWallets Sample.freshState = []) by reflexivity.
  assert (H4 : miningInProgress Sample.freshState = false) by reflexivity.
  assert (H5 : currentChallenge Sample.freshState = None) by reflexivity.
  assert (H6 : chain Sample.freshState <> []) by (vm_compute; discriminate).
  assert (H7 : 1 <= difficulty Sample.freshState) by (vm_compute; discriminate).
  assert (H8 : isValidAddress (Some (JStr Sample.alice)) = true) by (vm_compute; reflexivity).
  assert (H9 : isValidAddress (Some (JStr Sample.bob)) = true) by (vm_compute; reflexivity).
  assert (H10 : Sample.alice <> Sample.bob) by (vm_compute; discriminate).
  split; [repeat split; assumption|].
  exact (join_duplicate_and_threshold Number_toString_integer Sample.pow_unused
           joined 3 (joining Sample.alice) (Sample.clockAt 1700000001500) Sample.alice
           Sample.freshState 1 2 Sample.alice Sample.bob
           (Sample.clockAt 1700000001000) (Sample.clockAt 1700000002000)
           H1 H2 H3 H4 H5 H6 H7 H8 H9 H10).
Defined.

(* ================================================================= *)
(** * Further properties of the code *)

(** ** Wallet addresses and signatures *)

Lemma substring_all (s : string) : String.substring 0 (String.length s) s = s.
Proof. induction s as [|c s IH]; simpl; [reflexivity | now rewrite IH]. Qed.

Lemma substring_hex_of_bytes (k : nat) :
  forall bytes, String.substring 0 (2 * k) (hex_of_bytes bytes) = hex_of_bytes (firstn k bytes).
Proof.
  induction k as [|k IH]; intros bytes.
  - destruct bytes; reflexivity.
  - destruct bytes as [|b bytes]; [reflexivity|].
    replace (2 * S k)%nat with (S (S (2 * k))) by lia.
    cbn [hex_of_bytes String.substring firstn]. now rewrite IH.
Qed.

Lemma toUpperCase_length (s : string) : String.length (toUpperCase s) = String.length s.
Proof. induction s as [|c s IH]; simpl; [reflexivity | now rewrite IH]. Qed.

Lemma upper_hex_digit (n : Z) : is_hex_char (upper_char (hex_digit n)) = true.
Proof.
  unfold hex_digit.
  pose proof (Z.mod_pos_bound n 16 ltac:(lia)) as Hk.
  remember (n mod 16) as k eqn:Ek. clear Ek.
  assert (H : k = 0 \/ k = 1 \/ k = 2 \/ k = 3 \/ k = 4 \/ k = 5 \/ k = 6 \/ k = 7 \/
              k = 8 \/ k = 9 \/ k = 10 \/ k = 11 \/ k = 12 \/ k = 13 \/ k = 14 \/ k = 15)
    by lia.
  repeat (destruct H as [H|H]; [rewrite H; reflexivity|]).
  rewrite H; reflexivity.
Qed.

Lemma upper_hex_of_bytes (bytes : list Z) :
  forallb is_hex_char (list_ascii_of_string (toUpperCase (hex_of_bytes bytes))) = true.
Proof.
  induction bytes as [|b bytes IH]; [reflexivity|].
  cbn [hex_of_bytes toUpperCase list_ascii_of_string forallb].
  now rewrite !upper_hex_digit, IH.
Qed.

(** The strings [isValidAddress] accepts include the prefix followed by any
    32 hexadecimal digits. *)
Lemma isValidAddress_prefixed (digits : string) :
  String.length digits = 32%nat ->
  forallb is_hex_char (list_ascii_of_string digits) = true ->
  isValidAddress (Some (JStr (ADDRESS_PREFIX ++ digits))) = true.
Proof.
  intros Hlen Hhex. unfold isValidAddress, ADDRESS_PREFIX.
  assert (E1 : String.eqb ("BLX" ++ digits) EmptyString = false) by reflexivity.
  assert (E2 : String.prefix "BLX" ("BLX" ++ digits) = true)
    by (cbn [String.append String.prefix];
        repeat (destruct (ascii_dec _ _) as [_|Hne]; [|now elim Hne]);
        now destruct digits).
  assert (E3 : String.length ("BLX" ++ digits) = 35%nat)
    by (cbn [String.append String.length]; now rewrite Hlen).
  assert (E4 : String.substring 3 32 ("BLX" ++ digits) = digits).
  { cbn [String.append String.substring]. rewrite <- Hlen. apply substring_all. }
  rewrite E1, E2, E3. cbn [negb String.length Nat.add Nat.eqb Nat.sub]. rewrite E4.
  unfold hex_test. rewrite Hhex.
  destruct digits; [discriminate Hlen | reflexivity].
Qed.

Lemma createAddress_encoding (publicKey : list Z) :
  createAddress publicKey
  = (ADDRESS_PREFIX
     ++ toUpperCase
          (hex_of_bytes
             (NETWORK_PREFIX :: firstn 15 (SHA256.digest (SHA256.digest publicKey)))))%string.
Proof.
  unfold createAddress. cbv zeta.
  pose proof (digest_length (SHA256.digest publicKey)) as Hd.
  generalize dependent (SHA256.digest (SHA256.digest publicKey)). intros d Hd.
  generalize (SHA256.digest (SHA256.digest (NETWORK_PREFIX :: firstn 20 d))).
  intros c.
  change 32%nat with (2 * 16)%nat. rewrite substring_hex_of_bytes.
  rewrite <- app_comm_cons. change 16%nat with (S 15). rewrite firstn_cons.
  rewrite firstn_app, firstn_firstn, length_firstn, Hd.
  change (15 - Nat.min 20 32)%nat with 0%nat. change (Nat.min 15 20) with 15%nat.
  rewrite firstn_O, app_nil_r. reflexivity.
Qed.

Lemma createAddress_accepted (publicKey : list Z) :
  isValidAddress (Some (JStr (createAddress publicKey))) = true.
Proof.
  rewrite createAddress_encoding. apply isValidAddress_prefixed.
  - rewrite toUpperCase_length, hex_of_bytes_length. cbn [List.length].
    rewrite length_firstn, digest_length. reflexivity.
  - apply upper_hex_of_bytes.
Qed.

(** X1: every address built by [createAddress] passes [isValidAddress]; it is
    the prefix [BLX], the network byte [42] and the first 15 bytes of the
    double SHA-256 of the public key in upper-case hexadecimal, so that the
    checksum computed on the way never reaches the address. *)
Theorem createAddress_valid (publicKey : list Z) :
  isValidAddress (Some (JStr (createAddress publicKey))) = true
  /\ createAddress publicKey
     = ("BLX42" ++ toUpperCase
                     (hex_of_bytes (firstn 15 (SHA256.digest (SHA256.digest publicKey)))))%string.
Proof.
  split; [apply createAddress_accepted|].
  rewrite createAddress_encoding. reflexivity.
Qed.

Lemma hex_value_range (c : ascii) (v : Z) : hex_value c = Some v -> 0 <= v < 16.
Proof.
  unfold hex_value. intros H.
  repeat match type of H with
         | (if ?b then _ else _) = _ => destruct b eqn:?
         end; try discriminate; injection H as <-; lia.
Qed.

Lemma Buffer_from_hex_bytes (text : string) : Forall is_byte (Buffer_from_hex text).
Proof.
  assert (H : forall n text, (String.length text <= n)%nat ->
                             Forall is_byte (Buffer_from_hex text)).
  { induction n as [|n IH]; intros [|a [|b rest]] Hlen; try constructor;
      cbn [String.length] in Hlen; try lia.
    all: cbn [Buffer_from_hex].
    all: destruct (hex_value a) as [x|] eqn:Ea; [|constructor].
    all: destruct (hex_value b) as [y|] eqn:Eb; [|constructor].
    all: constructor; [|apply IH; lia].
    all: apply hex_value_range in Ea; apply hex_value_range in Eb; unfold is_byte; lia. }
  apply (H (String.length text)). lia.
Qed.

Lemma hex_fold_bytes (bytes : list Z) :
  Forall is_byte bytes ->
  forall acc, hex_fold acc (hex_of_bytes bytes)
              = Some (fold_left (fun a b => a * 256 + b) bytes acc).
Proof.
  induction 1 as [|b bytes Hb _ IH]; intros acc; [reflexivity|].
  cbn [hex_of_bytes hex_fold fold_left]. rewrite !hex_value_hex_digit, IH.
  f_equal. f_equal. unfold is_byte in Hb.
  rewrite (Z.mod_small (b / 16) 16) by (split; [apply Z.div_pos | apply Z.div_lt_upper_bound]; lia).
  pose proof (Z.div_mod b 16 ltac:(lia)). lia.
Qed.

(** [BigInt('0x' + buffer.toString('hex'))] is the big-endian value of a
    buffer that is not empty. *)
Lemma BigInt_hex_of_bytes (bytes : list Z) :
  Forall is_byte bytes ->
  BigInt_hex (hex_of_bytes bytes)
  = match bytes with [] => None | _ => Some (be_value bytes) end.
Proof.
  intros H. destruct bytes as [|b bytes]; [reflexivity|].
  exact (hex_fold_bytes (b :: bytes) H 0).
Qed.

(** X2: whenever [sign] returns a signature, [verify] accepts it for the
    signed message under every public key, the signer's or not; [sign] fails
    to return only for a private key outside [[1, curveOrder - 1]]. *)
Theorem sign_verify (message privateKeyHex publicKeyHex : string) :
  match sign message privateKeyHex with
  | Some signature => verify message signature publicKeyHex = true
  | None => ~ 0 < be_value (Buffer_from_hex privateKeyHex) < curveOrder
  end.
Proof.
  unfold sign.
  destruct (Z.ltb_spec 0 (be_value (Buffer_from_hex privateKeyHex))) as [H0|H0];
    destruct (Z.ltb_spec (be_value (Buffer_from_hex privateKeyHex)) curveOrder) as [H1|H1];
    cbn [andb]; try lia.
  unfold verify. cbn [get lookup String.eqb Ascii.eqb Bool.eqb].
  apply String.eqb_refl.
Qed.

Section ImportedWallets.

Variable derivePublicKey : list Z -> list Z.

(** X3: [importWallet] returns a wallet exactly for the keys that decode to a
    value in [[1, curveOrder - 1]]; the wallet keeps the key text as given and
    its address passes [isValidAddress].  A key text that decodes to nothing
    (empty, or not starting with two hexadecimal digits) ends in the
    [SyntaxError] of [BigInt], any other key in [Invalid private key]. *)
Theorem importWallet_outcomes (privateKeyHex : string) :
  match importWallet derivePublicKey privateKeyHex with
  | inl wallet =>
      0 < be_value (Buffer_from_hex privateKeyHex) < curveOrder
      /\ w_privateKey wallet = privateKeyHex
      /\ w_address wallet = createAddress (derivePublicKey (Buffer_from_hex privateKeyHex))
      /\ isValidAddress (Some (JStr (w_address wallet))) = true
  | inr SyntaxError => Buffer_from_hex privateKeyHex = []
  | inr (Error message) =>
      message = "Invalid private key"
      /\ Buffer_from_hex privateKeyHex <> []
      /\ ~ 0 < be_value (Buffer_from_hex privateKeyHex) < curveOrder
  end.
Proof.
  unfold importWallet, isValidPrivateKey.
  rewrite BigInt_hex_of_bytes by apply Buffer_from_hex_bytes.
  destruct (Buffer_from_hex privateKeyHex) as [|b bytes] eqn:E; [reflexivity|].
  destruct (Z.ltb_spec 0 (be_value (b :: bytes))) as [H0|H0];
    destruct (Z.ltb_spec (be_value (b :: bytes)) curveOrder) as [H1|H1];
    cbn [andb].
  - split; [lia|]. split; [reflexivity|]. split; [reflexivity|].
    apply createAddress_accepted.
  - split; [reflexivity|]. split; [discriminate | lia].
  - split; [reflexivity|]. split; [discriminate | lia].
  - split; [reflexivity|]. split; [discriminate | lia].
Qed.

End ImportedWallets.

(** ** Merkle root of an odd number of transactions *)

Lemma merkle_level_repeat_last (h : string) :
  forall hashes, Nat.even (List.length hashes) = true ->
                 merkle_level (hashes ++ [h]) = merkle_level (hashes ++ [h; h]).
Proof.
  assert (H : forall n hashes, (List.length hashes <= n)%nat ->
                               Nat.even (List.length hashes) = true ->
                               merkle_level (hashes ++ [h]) = merkle_level (hashes ++ [h; h])).
  { induction n as [|n IH]; intros [|a [|b rest]] Hlen Heven;
      cbn [List.length] in Hlen; try lia; try discriminate Heven.
    - cbn [app merkle_level]. now destruct (String.eqb h EmptyString).
    - cbn [app merkle_level]. now destruct (String.eqb h EmptyString).
    - cbn [app merkle_level]. f_equal. apply IH; [lia | exact Heven]. }
  intros hashes. apply (H (List.length hashes)). lia.
Qed.

(** More fuel than there are hashes changes nothing. *)
Lemma merkle_loop_fuel (extra : nat) :
  forall fuel hashes, (List.length hashes <= fuel)%nat ->
                      merkle_loop (extra + fuel) hashes = merkle_loop fuel hashes.
Proof.
  assert (Hstep : forall fuel hashes, (List.length hashes <= fuel)%nat ->
                                      merkle_loop (S fuel) hashes = merkle_loop fuel hashes).
  { induction fuel as [|fuel IH]; intros hashes Hlen.
    - destruct hashes; [reflexivity | simpl in Hlen; lia].
    - change (merkle_loop (S (S fuel)) hashes)
        with (if (1 <? List.length hashes)%nat
              then merkle_loop (S fuel) (merkle_level hashes) else hashes).
      change (merkle_loop (S fuel) hashes)
        with (if (1 <? List.length hashes)%nat
              then merkle_loop fuel (merkle_level hashes) else hashes).
      destruct (Nat.ltb_spec 1 (List.length hashes)) as [Hgt|Hle]; [|reflexivity].
      apply IH. rewrite merkle_level_length.
      destruct hashes as [|x [|y rest]]; cbn [List.length] in *; try lia.
      pose proof (Nat.div2_decr (S (List.length rest)) (List.length rest)
                                (Nat.le_refl _)) as Hd.
      change (Nat.div2 (S (S (S (List.length rest)))))
        with (S (Nat.div2 (S (List.length rest)))).
      lia. }
  induction extra as [|extra IH]; intros fuel hashes Hlen; [reflexivity|].
  cbn [Nat.add]. rewrite Hstep by lia. apply IH. exact Hlen.
Qed.

Lemma merkle_loop_repeat_last (h : string) (hashes : list string) :
  hashes <> [] ->
  Nat.even (List.length hashes) = true ->
  merkle_loop (List.length (hashes ++ [h])) (hashes ++ [h])
  = merkle_loop (List.length (hashes ++ [h; h])) (hashes ++ [h; h]).
Proof.
  intros Hne Heven.
  assert (Hge : (2 <= List.length hashes)%nat).
  { destruct hashes as [|a [|b rest]]; [congruence | discriminate Heven |].
    cbn [List.length]. lia. }
  rewrite !length_app. cbn [List.length].
  replace (List.length hashes + 1)%nat with (S (List.length hashes)) by lia.
  replace (List.length hashes + 2)%nat with (S (S (List.length hashes))) by lia.
  cbn [merkle_loop]. rewrite !length_app. cbn [List.length].
  destruct (Nat.ltb_spec 1 (List.length hashes + 1)) as [_|Hbad]; [|lia].
  destruct (Nat.ltb_spec 1 (List.length hashes + 2)) as [_|Hbad]; [|lia].
  rewrite <- merkle_level_repeat_last by exact Heven.
  symmetry. apply (merkle_loop_fuel 1).
  rewrite merkle_level_length, length_app. cbn [List.length].
  replace (List.length hashes + 1)%nat with (S (List.length hashes)) by lia.
  change (Nat.div2 (S (S (List.length hashes)))) with (S (Nat.div2 (List.length hashes))).
  destruct (List.length hashes) as [|[|n]]; try lia.
  pose proof (Nat.div2_decr (S (S n)) (S n) (Nat.le_refl _)). lia.
Qed.

Section MerkleAmbiguity.

Variable Number_toString : Q -> string.

(** X4: a list of an odd number of transactions, three or more, and the list
    with its last transaction repeated have the same Merkle root. *)
Theorem calculateMerkleRoot_repeat_last (transactions : list json) (last : json) :
  transactions <> [] ->
  Nat.even (List.length transactions) = true ->
  calculateMerkleRoot Number_toString (transactions ++ [last])
  = calculateMerkleRoot Number_toString (transactions ++ [last; last]).
Proof.
  intros Hne Heven.
  destruct transactions as [|t rest]; [congruence|].
  unfold calculateMerkleRoot.
  change ((t :: rest) ++ [last]) with (t :: (rest ++ [last])).
  change ((t :: rest) ++ [last; last]) with (t :: (rest ++ [last; last])).
  cbv beta iota zeta.
  change (t :: (rest ++ [last])) with ((t :: rest) ++ [last]).
  change (t :: (rest ++ [last; last])) with ((t :: rest) ++ [last; last]).
  rewrite !map_app. cbn [map].
  f_equal. apply merkle_loop_repeat_last; [discriminate|].
  cbn [List.length]. rewrite length_map. exact Heven.
Qed.

End MerkleAmbiguity.

Lemma calculateMerkleRoot_repeat_last_witness :
  [JStr "a"; JStr "b"] <> []
  /\ Nat.even (List.length [JStr "a"; JStr "b"]) = true
  /\ calculateMerkleRoot Number_toString_integer ([JStr "a"; JStr "b"] ++ [JStr "c"])
     = calculateMerkleRoot Number_toString_integer ([JStr "a"; JStr "b"] ++ [JStr "c"; JStr "c"]).
Proof.
  assert (H1 : [JStr "a"; JStr "b"] <> []) by discriminate.
  assert (H2 : Nat.even (List.length [JStr "a"; JStr "b"]) = true) by reflexivity.
  split; [exact H1|]. split; [exact H2|].
  exact (calculateMerkleRoot_repeat_last Number_toString_integer
           [JStr "a"; JStr "b"] (JStr "c") H1 H2).
Defined.

(** ** Targets *)

(** X5: the target never grows with the difficulty, so a hash that meets the
    target at some difficulty meets it at every lower one; any difficulty
    below 2 gives the largest target, [2^256 - 1], and a difficulty above
    that value gives the target 0, which no hash meets. *)
Theorem calculateTarget_antitone (easier harder : Q) (hash : string) :
  (easier <= harder)%Q ->
  calculateTarget harder <= calculateTarget easier
  /\ (hashMeetsTarget hash harder = Some true -> hashMeetsTarget hash easier = Some true)
  /\ ((easier < 2)%Q -> calculateTarget easier = maxTarget)
  /\ ((inject_Z maxTarget + 1 <= harder)%Q -> hashMeetsTarget hash harder <> Some true).
Proof.
  intros Hle.
  assert (Hfloor : Qfloor easier <= Qfloor harder) by (apply Qfloor_resp_le; exact Hle).
  assert (Hmax : 0 <= maxTarget) by (vm_compute; discriminate).
  assert (Htarget : calculateTarget harder <= calculateTarget easier).
  { unfold calculateTarget. apply Z.div_le_compat_l; lia. }
  split; [exact Htarget|]. split; [|split].
  - unfold hashMeetsTarget. destruct (BigInt_hex hash) as [v|]; [|discriminate].
    intros H. injection H as H. apply Z.ltb_lt in H.
    f_equal. apply Z.ltb_lt. lia.
  - intros Hlt. unfold calculateTarget.
    assert (Qfloor easier < 2).
    { destruct (Z.lt_ge_cases (Qfloor easier) 2) as [H|H]; [exact H|].
      exfalso. apply (Qlt_irrefl easier).
      apply Qlt_le_trans with 2%Q; [exact Hlt|].
      apply Qle_trans with (inject_Z (Qfloor easier)); [|apply Qfloor_le].
      change 2%Q with (inject_Z 2). rewrite <- Zle_Qle. lia. }
    replace (Z.max 1 (Qfloor easier)) with 1 by lia. apply Z.div_1_r.
  - intros Hbig. unfold hashMeetsTarget.
    destruct (BigInt_hex hash) as [v|] eqn:Ev; [|discriminate].
    assert (Hv : 0 <= v).
    { unfold BigInt_hex in Ev. destruct hash as [|c rest]; [discriminate|].
      revert Ev. generalize (String c rest). intros text.
      assert (Hacc : forall text acc w, 0 <= acc -> hex_fold acc text = Some w -> 0 <= w).
      { clear. induction text as [|c text IH]; intros acc w Hacc H; cbn [hex_fold] in H.
        - injection H as <-. exact Hacc.
        - destruct (hex_value c) as [d|] eqn:Ed; [|discriminate].
          apply hex_value_range in Ed. apply (IH (acc * 16 + d) w); [lia | exact H]. }
      apply Hacc. lia. }
    assert (Hf : maxTarget + 1 <= Qfloor harder).
    { replace (maxTarget + 1) with (Qfloor (inject_Z (maxTarget + 1))) by apply Qfloor_Z.
      apply Qfloor_resp_le. rewrite inject_Z_plus. exact Hbig. }
    assert (Hzero : calculateTarget harder = 0).
    { unfold calculateTarget. apply Z.div_small. lia. }
    rewrite Hzero. intros H. injection H as H. apply Z.ltb_lt in H. lia.
Qed.

Lemma calculateTarget_antitone_witness :
  (1 <= 4)%Q
  /\ calculateTarget 4 <= calculateTarget 1
  /\ (hashMeetsTarget "0f" 4 = Some true -> hashMeetsTarget "0f" 1 = Some true)
  /\ ((1 < 2)%Q -> calculateTarget 1 = maxTarget)
  /\ ((inject_Z maxTarget + 1 <= 4)%Q -> hashMeetsTarget "0f" 4 <> Some true).
Proof.
  assert (H : (1 <= 4)%Q) by (vm_compute; discriminate).
  split; [exact H|].
  exact (calculateTarget_antitone 1 4 "0f" H).
Defined.

(** ** Transaction admission *)

Lemma lookup_set_prop_other (k k' : string) (v : json) :
  k <> k' -> forall ps, lookup k (set_prop ps k' v) = lookup k ps.
Proof.
  intros Hne. induction ps as [|[k0 v0] ps IH]; cbn [set_prop lookup].
  - destruct (String.eqb_spec k k'); [contradiction | reflexivity].
  - destruct (String.eqb_spec k' k0) as [->|Hk]; cbn [lookup].
    + destruct (String.eqb_spec k k0); [contradiction | reflexivity].
    + destruct (String.eqb k k0); [reflexivity | exact IH].
Qed.

(** Assigning the id leaves the other properties of a transaction alone. *)
Lemma get_tx_object (t : Transaction) (k : string) :
  k <> "id" -> get (tx_object t) k = get (tx_body t) k.
Proof.
  intros Hk. unfold tx_object. destruct (tx_body t) as [| | | | | |ps]; try reflexivity.
  cbn [get]. apply lookup_set_prop_other. exact Hk.
Qed.

Lemma isValidAddress_string (v : option json) :
  isValidAddress v = true -> exists a, v = Some (JStr a) /\ a <> EmptyString.
Proof.
  destruct v as [[| | | |a| |]|]; try discriminate.
  intros H. exists a. split; [reflexivity|]. intros ->. discriminate H.
Qed.

Lemma Qle_bool_false (a b : Q) : Qle_bool a b = false -> (b < a)%Q.
Proof.
  intros H. apply Qnot_le_lt. intros Hle. apply Qle_bool_iff in Hle. congruence.
Qed.

Section Admission.

Variable Number_toString : Q -> string.

Lemma atLeast_spec (bound : Q) (v : option json) :
  match v with
  | Some (JNum f) => negb (Qle_bool bound f)
  | Some (JInfinity negative) => negative
  | _ => true
  end = false <-> atLeast bound v.
Proof.
  destruct v as [[| |f|negative| | |]|]; cbn [atLeast]; try (split; [discriminate | tauto]).
  - rewrite negb_false_iff. apply Qle_bool_iff.
  - reflexivity.
Qed.

Lemma moreThan_spec (bound : Q) (v : option json) :
  match v with
  | Some (JNum t) => Qle_bool t bound
  | Some (JInfinity negative) => negative
  | _ => true
  end = false <-> moreThan bound v.
Proof.
  destruct v as [[| |t|negative| | |]|]; cbn [moreThan]; try (split; [discriminate | tauto]).
  - split.
    + apply Qle_bool_false.
    + intros Hlt. destruct (Qle_bool t bound) eqn:E; [|reflexivity].
      apply Qle_bool_iff in E. exfalso. apply (Qlt_irrefl bound).
      apply Qlt_le_trans with t; assumption.
  - reflexivity.
Qed.

Lemma validateTransaction_spec (tx : json) :
  valid (validateTransaction Number_toString tx) = true <-> wellFormed Number_toString tx.
Proof.
  split.
  - unfold validateTransaction. intros H.
    repeat match type of H with
           | valid (if ?c then _ else _) = true =>
               let E := fresh "E" in destruct c eqn:E; [discriminate H|]
           end.
    destruct (get tx "signature") as [signature|] eqn:Esig; [|discriminate H].
    destruct (get tx "senderPublicKey") as [[| | | |publicKey| |]|] eqn:Ekey;
      try discriminate H.
    destruct (String.eqb_spec publicKey EmptyString) as [|Hkey]; [discriminate H|].
    destruct (negb (verify _ signature publicKey)) eqn:Everify; [discriminate H|].
    clear H.
    apply negb_false_iff in E1, E2, Everify.
    destruct (isValidAddress_string _ E1) as (sender & Hsender & _).
    destruct (isValidAddress_string _ E2) as (recipient & Hrecipient & _).
    rewrite Hsender in E1. rewrite Hrecipient in E2.
    apply atLeast_spec in E4. apply moreThan_spec in E6.
    destruct (get tx "amount") as [[| |amount|negative| | |]|] eqn:Eamount;
      try discriminate E3.
    destruct (get tx "nonce") as [[| |nonce|negative| | |]|] eqn:Enonce;
      try discriminate E5.
    apply orb_false_elim in E5. destruct E5 as [Hint Hnonneg].
    apply negb_false_iff in Hint. apply negb_false_iff, Qle_bool_iff in Hnonneg.
    unfold verify in Everify.
    destruct (get signature "messageHash") as [[| | | |h| |]|] eqn:Ehash;
      try discriminate Everify.
    apply String.eqb_eq in Everify. subst h.
    exists sender, recipient, amount, nonce, signature, publicKey.
    repeat match goal with |- _ /\ _ => split end;
      auto using Qle_bool_false.
  - intros (sender & recipient & amount & nonce & signature & publicKey
            & Hsender & Vsender & Hrecipient & Vrecipient & Hamount & Pamount
            & Hfee & Hnonce & Inonce & Pnonce & Htime
            & Hsig & Hhash & Hkey & Nkey).
    assert (Hobj : exists ps, tx = JObj ps).
    { destruct tx as [| | | | | |ps]; try discriminate Hsender. eauto. }
    destruct Hobj as [ps ->].
    assert (Hobj : exists ps', signature = JObj ps').
    { destruct signature as [| | | | | |ps']; try discriminate Hhash. eauto. }
    destruct Hobj as [ps' ->].
    destruct (isValidAddress_string _ Vsender) as (? & E & Nsender). injection E as <-.
    destruct (isValidAddress_string _ Vrecipient) as (? & E & Nrecipient). injection E as <-.
    apply atLeast_spec in Hfee. apply (moreThan_spec 0) in Htime.
    unfold validateTransaction.
    rewrite Hfee, Htime.
    rewrite Hsender, Hrecipient, Hamount, Hnonce, Hsig, Hkey.
    rewrite Vsender, Vrecipient.
    cbn [truthy typeof_object negb orb].
    apply String.eqb_neq in Nsender, Nrecipient, Nkey.
    rewrite Nsender, Nrecipient, Nkey. cbn [negb orb].
    assert (E1 : Qle_bool amount 0 = false).
    { destruct (Qle_bool amount 0) eqn:E; [|reflexivity].
      apply Qle_bool_iff in E. exfalso. apply (Qlt_irrefl 0).
      apply Qlt_le_trans with amount; assumption. }
    assert (E3 : Qle_bool 0 nonce = true) by now apply Qle_bool_iff.
    rewrite E1, Inonce, E3. cbn [negb orb].
    unfold verify. rewrite Hhash, String.eqb_refl. reflexivity.
Qed.

(** X6: [validateTransaction] accepts exactly the well-formed transactions:
    string addresses of the right format, a finite positive amount, a fee of
    at least 0.0001 or [Infinity], a finite non-negative integer nonce, a
    positive timestamp or [Infinity], a non-empty public key, and a signature
    object whose [messageHash] is the SHA-256 of the six-field payload.  The
    key takes no part in the check. *)
Theorem validateTransaction_wellFormed (tx : json) :
  valid (validateTransaction Number_toString tx) = true <-> wellFormed Number_toString tx.
Proof. exact (validateTransaction_spec tx). Qed.

(** X7: what the route [POST /transaction/submit] does.  A well-formed
    transaction whose id is not among the processed ones is appended to a
    pool of fewer than 10000, announced, and answered 200 with its id, the
    SHA-256 of its payload; every other request is answered 400, or 503 when
    only the pool limit stands in the way, and leaves the state as it was.
    The route never throws. *)
Theorem submitTransaction_outcomes (s : ServerState) (tx : json) :
  let id := sha256 (JSON_stringify Number_toString (payload tx)) in
  let r := submitTransaction Number_toString s tx in
  threw r = false
  /\ (wellFormed Number_toString tx ->
      includes (processedTxIds s) id = false ->
      Z.of_nat (List.length (pendingTransactions s)) < MAX_PENDING_TRANSACTIONS ->
      r = done (with_pool (pendingTransactions s ++ [mkTransaction tx id]) (processedTxIds s) s)
               [broadcast (transaction_new (mkTransaction tx id)); respond 200 true id])
  /\ (st r = s /\ (exists status text,
                      out r = [respond status false text]
                      /\ (status = 400
                          \/ status = 503
                             /\ wellFormed Number_toString tx
                             /\ includes (processedTxIds s) id = false))
      \/ wellFormed Number_toString tx
         /\ includes (processedTxIds s) id = false
         /\ Z.of_nat (List.length (pendingTransactions s)) < MAX_PENDING_TRANSACTIONS).
Proof.
  cbv zeta. unfold submitTransaction.
  destruct (negb (truthy (Some tx)) || negb (typeof_object (Some tx))) eqn:Eshape.
  { split; [reflexivity|]. split.
    - intros Hwell. apply validateTransaction_spec in Hwell.
      unfold validateTransaction in Hwell. rewrite Eshape in Hwell. discriminate Hwell.
    - left. split; [reflexivity|]. do 2 eexists. split; [reflexivity | now left]. }
  destruct (valid (validateTransaction Number_toString tx)) eqn:Evalid; cbn [negb].
  2:{ split; [reflexivity|]. split.
      - intros Hwell. apply validateTransaction_spec in Hwell. congruence.
      - left. split; [reflexivity|]. do 2 eexists. split; [reflexivity | now left]. }
  apply validateTransaction_spec in Evalid.
  destruct (includes (processedTxIds s) _) eqn:Eseen.
  { split; [reflexivity|]. split; [discriminate|].
    left. split; [reflexivity|]. do 2 eexists. split; [reflexivity | now left]. }
  destruct (Z.leb_spec MAX_PENDING_TRANSACTIONS
                       (Z.of_nat (List.length (pendingTransactions s)))) as [Hfull|Hroom].
  { split; [reflexivity|]. split; [lia|].
    left. split; [reflexivity|]. do 2 eexists. split; [reflexivity | right; auto]. }
  split; [reflexivity|]. split; [reflexivity|]. right. auto.
Qed.

End Admission.

(** ** An invariant of the running coordinator *)

Lemma has_In {A : Type} (k : string) (m : list (string * A)) :
  has k m = true <-> In k (map fst m).
Proof.
  unfold has. rewrite existsb_exists. split.
  - intros (p & Hp & E). apply String.eqb_eq in E. subst k. now apply in_map.
  - intros H. apply in_map_iff in H. destruct H as (p & E & Hp).
    exists p. split; [exact Hp|]. apply String.eqb_eq. now symmetry.
Qed.

Lemma includes_In (ids : list string) (x : string) : includes ids x = true <-> In x ids.
Proof.
  unfold includes. rewrite existsb_exists. split.
  - intros (y & Hy & E). apply String.eqb_eq in E. now subst y.
  - intros H. exists x. split; [exact H | apply String.eqb_refl].
Qed.

Lemma filter_length {A : Type} (f : A -> bool) (l : list A) :
  (List.length (filter f l) <= List.length l)%nat.
Proof. induction l as [|x l IH]; cbn; [lia|]. destruct (f x); cbn; lia. Qed.

Lemma Forall_filter_keep {A : Type} (P : A -> Prop) (f : A -> bool) (l : list A) :
  Forall P l -> Forall P (filter f l).
Proof.
  rewrite !Forall_forall. intros H x Hx. apply filter_In in Hx. apply H, Hx.
Qed.

Lemma Forall_firstn_keep {A : Type} (P : A -> Prop) (n : nat) (l : list A) :
  Forall P l -> Forall P (firstn n l).
Proof.
  intros H. rewrite <- (firstn_skipn n l) in H. apply Forall_app in H. apply H.
Qed.

Lemma NoDup_skipn_keep {A : Type} (n : nat) (l : list A) : NoDup l -> NoDup (skipn n l).
Proof.
  intros H. rewrite <- (firstn_skipn n l) in H. now apply NoDup_app_remove_l in H.
Qed.

Lemma NoDup_keys_filter {A : Type} (f : string * A -> bool) (m : list (string * A)) :
  NoDup (map fst m) -> NoDup (map fst (filter f m)).
Proof.
  induction m as [|p m IH]; cbn [filter map]; intros H; [exact H|].
  apply NoDup_cons_iff in H. destruct H as [Hnew Hrest].
  destruct (f p); [|auto]. cbn [map]. apply NoDup_cons; [|auto].
  intros Hin. apply Hnew. apply in_map_iff in Hin. destruct Hin as (q & E & Hq).
  apply filter_In in Hq. apply in_map_iff. exists q. tauto.
Qed.

Lemma Forall_keys_filter {A : Type} (P : string -> Prop) (f : string * A -> bool)
      (m : list (string * A)) :
  Forall P (map fst m) -> Forall P (map fst (filter f m)).
Proof.
  rewrite !Forall_forall. intros H k Hk. apply in_map_iff in Hk.
  destruct Hk as (q & E & Hq). apply filter_In in Hq. apply H, in_map_iff. exists q. tauto.
Qed.

(** [Set.prototype.add], once and over a list. *)
Lemma add_In (x y : string) (ids : list string) : In y (add x ids) <-> y = x \/ In y ids.
Proof.
  unfold add. destruct (includes ids x) eqn:E.
  - apply includes_In in E. split; [auto | intros [->|H]; auto].
  - rewrite in_app_iff. cbn [In]. intuition congruence.
Qed.

Lemma add_NoDup (x : string) (ids : list string) : NoDup ids -> NoDup (add x ids).
Proof.
  intros H. unfold add. destruct (includes ids x) eqn:E; [exact H|].
  apply NoDup_app; [exact H | repeat constructor; intros [] |].
  intros y Hy [<-|[]]. apply includes_In in Hy. congruence.
Qed.

Lemma fold_add_In (mined : list string) :
  forall ids y, In y (fold_left (fun ids id => add id ids) mined ids) <-> In y mined \/ In y ids.
Proof.
  induction mined as [|x mined IH]; intros ids y; cbn [fold_left In].
  - tauto.
  - rewrite IH, add_In. split; intros H; repeat destruct H as [H|H]; auto.
Qed.

Lemma fold_add_NoDup (mined : list string) :
  forall ids, NoDup ids -> NoDup (fold_left (fun ids id => add id ids) mined ids).
Proof.
  induction mined as [|x mined IH]; intros ids H; cbn [fold_left]; auto using add_NoDup.
Qed.

Lemma blockRewardAt_bounds (chainLength : Z) :
  0 <= chainLength -> (0 <= blockRewardAt chainLength <= 50)%Q.
Proof.
  intros H. unfold blockRewardAt.
  assert (Hh : 0 <= chainLength / PROTOCOL.HALVING_INTERVAL)
    by (apply Z.div_pos; [exact H | reflexivity]).
  destruct (_ <? 1024); [|split; discriminate].
  pose proof (Z.pow_pos_nonneg 2 _ ltac:(lia) Hh) as Hp.
  destruct (2 ^ (chainLength / PROTOCOL.HALVING_INTERVAL)) as [|p|p]; try lia.
  unfold PROTOCOL.INITIAL_BLOCK_REWARD, Qle, Qdiv, Qmult, Qinv, inject_Z.
  cbn [Qnum Qden]. split; lia.
Qed.

Lemma reward_or_0_bounds (r : Q) :
  (0 <= r <= 50)%Q -> (0 <= reward_or_0 (Some r) <= 50)%Q.
Proof.
  intros H. unfold reward_or_0. destruct (Qeq_bool r 0); [split; discriminate | exact H].
Qed.

(** The state components the invariant reads. *)
Lemma sound_frame (s s' : ServerState) :
  chain s' = chain s ->
  totalSupply s' = totalSupply s ->
  difficulty s' = difficulty s ->
  currentChallenge s' = currentChallenge s ->
  miningInProgress s' = miningInProgress s ->
  pendingTransactions s' = pendingTransactions s ->
  processedTxIds s' = processedTxIds s ->
  connectedWallets s' = connectedWallets s ->
  sound s -> sound s'.
Proof.
  intros Hc Ht Hd Hr Hm Hp Hx Hw H. destruct H.
  constructor; unfold roundAgrees in *; rewrite ?Hc, ?Ht, ?Hd, ?Hr, ?Hm, ?Hp, ?Hx, ?Hw;
    assumption.
Qed.

Section Invariant.

Variable Number_toString : Q -> string.
Variable Math_pow : Q -> Q -> Q.

Lemma sound_constructor (now : Z) : sound (constructor Number_toString now).
Proof.
  constructor; cbn [constructor createGenesisBlock chain with_chain difficulty
                    pendingTransactions processedTxIds connectedWallets totalSupply
                    app List.length map].
  - discriminate.
  - lia.
  - reflexivity.
  - cbn. lia.
  - cbn. lia.
  - constructor.
  - constructor.
  - constructor.
  - constructor.
  - split; discriminate.
Qed.

(** A round that is asked for either does not start or starts without
    throwing; the invariant holds afterwards. *)
Lemma sound_startMiningRound (s : ServerState) (clock : Clock) :
  sound s ->
  sound (st (startMiningRound Number_toString Math_pow s clock))
  /\ threw (startMiningRound Number_toString Math_pow s clock) = false.
Proof.
  intros H.
  destruct (negb (canStartMining s) || miningInProgress s) eqn:Hguard.
  - unfold startMiningRound. rewrite Hguard. split; [exact H | reflexivity].
  - apply orb_false_elim in Hguard. destruct Hguard as [Hcan Hidle].
    apply negb_false_iff in Hcan.
    destruct (tip_exists (chain s) (sound_chain s H)) as [tip Htip].
    destruct (startMiningRound_opens Number_toString Math_pow s clock tip Hcan Hidle Htip)
      as [Est Eout].
    pose proof (adjustDifficulty_positive Math_pow s (adjustNow clock)
                                          (sound_difficulty s H)) as Hd.
    split; [|apply Eout; lia].
    rewrite Est. destruct H.
    constructor; cbn [chain totalSupply difficulty currentChallenge miningInProgress
                      pendingTransactions processedTxIds connectedWallets
                      with_round with_difficulty]; try assumption.
    cbn [roundAgrees currentChallenge miningInProgress difficulty with_round with_difficulty
         c_difficulty t_difficulty t_transactions t_reward blockTemplate].
    unfold roundAgrees.
    cbn [currentChallenge miningInProgress difficulty with_round with_difficulty
         c_difficulty t_difficulty t_transactions t_reward blockTemplate].
    repeat split.
    + rewrite length_firstn. unfold PROTOCOL.MAX_TRANSACTIONS_PER_BLOCK. lia.
    + apply Forall_firstn_keep. assumption.
    + apply blockRewardAt_bounds. lia.
    + apply blockRewardAt_bounds. lia.
Qed.

(** Committing a candidate cut from the live template. *)
Lemma sound_addBlock (s : ServerState) (challenge : MiningChallenge)
      (h : string) (nonce miner : option json) :
  sound s ->
  currentChallenge s = Some challenge ->
  sound (addBlock s (with_hash h (candidate (blockTemplate challenge) nonce miner))).
Proof.
  intros H Hround. pose proof (sound_round s H) as Hagrees.
  unfold roundAgrees in Hagrees. rewrite Hround in Hagrees.
  destruct Hagrees as (Hflag & Hcd & Htd & Hlen & Hnum & Hreward).
  destruct H as [Hchain Hdiff Hagree Hpend Hproc Hmem Haddr Hpool Hdist Hsupply].
  set (block := with_hash h (candidate (blockTemplate challenge) nonce miner)).
  constructor; unfold addBlock;
    cbn [chain totalSupply difficulty currentChallenge miningInProgress
         pendingTransactions processedTxIds connectedWallets with_chain with_pool];
    try assumption.
  - intros E. apply app_eq_nil in E. destruct E as [_ E]. discriminate E.
  - pose proof (filter_length
                  (fun tx => negb (includes (map tx_id (b_transactions block)) (tx_id tx)))
                  (pendingTransactions s)). lia.
  - match goal with |- context [if ?c then _ else _] => destruct c eqn:E end.
    + apply Z.ltb_lt in E. rewrite length_skipn. lia.
    + apply Z.ltb_ge in E. exact E.
  - apply Forall_filter_keep. assumption.
  - match goal with |- context [if ?c then _ else _] => destruct c end;
      [apply NoDup_skipn_keep|]; apply fold_add_NoDup; assumption.
  - destruct Hsupply as [Hlow Hhigh].
    pose proof (reward_or_0_bounds _ Hreward) as [Hr0 Hr50].
    change (b_reward block) with (Some (t_reward (blockTemplate challenge))).
    split.
    + apply double_nonneg. lra.
    + rewrite length_app. cbn [List.length].
      replace (Z.of_nat (List.length (chain s) + 1) - 1)
        with (Z.of_nat (List.length (chain s))) by lia.
      intros Hfit. specialize (Hhigh ltac:(lia)).
      assert (E : (inject_Z (Z.of_nat (List.length (chain s)) - 1)
                   == inject_Z (Z.of_nat (List.length (chain s))) - 1)%Q).
      { unfold Z.sub. rewrite inject_Z_plus. reflexivity. }
      assert (E50 : (50 * inject_Z (Z.of_nat (List.length (chain s)))
                     == inject_Z (50 * Z.of_nat (List.length (chain s))))%Q).
      { rewrite inject_Z_mult. reflexivity. }
      rewrite E50, <- (double_Z (50 * Z.of_nat (List.length (chain s)))) by lia.
      apply double_mono; [lra | rewrite <- E50; lra].
Qed.

Lemma sound_handleSolutionSubmit (s : ServerState) (ws : nat) (message : json) :
  sound s -> sound (st (handleSolutionSubmit Number_toString s ws message)).
Proof.
  intros H.
  destruct (handleSolutionSubmit_cases Number_toString s ws message)
    as [Ech Er | challenge Ech Hne Er | challenge v Ech Eh Ev Et Er
        | challenge v Ech Eh Ev Et Es Er | challenge v Ech Eh Ev Et Es Er];
    rewrite Er; try exact H.
  - cbn [st throw]. now apply sound_addBlock.
  - cbv zeta. cbn [st done].
    pose proof (sound_addBlock s challenge (recomputedHash Number_toString challenge message)
                               (get message "nonce") (get message "walletAddress") H Ech)
      as Hadd.
    set (s1 := addBlock s _) in *.
    assert (Hreset : sound (with_round None false s1)).
    { destruct Hadd. constructor; try assumption. reflexivity. }
    destruct (canStartMining _); [|exact Hreset].
    revert Hreset. apply sound_frame; reflexivity.
Qed.

Lemma sound_handlePoolJoin (s : ServerState) (ws : nat) (message : json) (clock : Clock) :
  sound s -> sound (st (handlePoolJoin Number_toString Math_pow s ws message clock)).
Proof.
  intros H. unfold handlePoolJoin.
  destruct (isValidAddress (get message "walletAddress")) eqn:Hvalid; cbn [negb];
    [|exact H].
  destruct (get message "walletAddress") as [[| | | |addr| |]|]; try exact H.
  destruct (has addr (connectedWallets s)) eqn:Hhas; [exact H|].
  set (s1 := setWalletAddress ws addr _).
  assert (H1 : sound s1).
  { destruct H. constructor; try assumption;
      cbn [s1 setWalletAddress with_sockets with_connectedWallets connectedWallets];
      rewrite map_app; cbn [map fst].
    - apply NoDup_app; [assumption | repeat constructor; intros [] |].
      intros x Hx [<-|[]]. apply has_In in Hx. congruence.
    - apply Forall_app. split; [assumption | repeat constructor; exact Hvalid]. }
  destruct (_ && _); [|exact H1].
  cbn [st]. apply sound_startMiningRound, H1.
Qed.

Lemma sound_submitTransaction (s : ServerState) (tx : json) :
  sound s -> sound (st (submitTransaction Number_toString s tx)).
Proof.
  intros H. unfold submitTransaction.
  destruct (_ || _); [exact H|].
  destruct (valid (validateTransaction Number_toString tx)) eqn:Hvalid; [|exact H].
  cbn [negb]. destruct (includes _ _); [exact H|].
  destruct (Z.leb_spec MAX_PENDING_TRANSACTIONS
                       (Z.of_nat (List.length (pendingTransactions s)))) as [|Hroom];
    [exact H|].
  cbn [st done]. destruct H.
  constructor; cbn [with_pool chain totalSupply difficulty currentChallenge miningInProgress
                    pendingTransactions processedTxIds connectedWallets]; try assumption.
  - rewrite length_app. cbn [List.length]. unfold MAX_PENDING_TRANSACTIONS in Hroom. lia.
  - apply Forall_app. split; [assumption|]. constructor; [|constructor].
    apply validateTransaction_spec in Hvalid.
    destruct Hvalid as (sender & recipient & amount & _ & _ & _
                        & _ & _ & _ & _ & Hamount & _ & Hfee & _).
    split; [exists amount|]; rewrite get_tx_object by discriminate; assumption.
Qed.

Lemma sound_onClose (s : ServerState) (ws : nat) : sound s -> sound (st (onClose s ws)).
Proof.
  intros H. unfold onClose.
  destruct (lookup_socket ws (sockets s)) as [a|]; [|exact H].
  destruct (String.eqb a EmptyString); [exact H|].
  cbn [st done]. destruct H.
  constructor; try assumption;
    cbn [with_sockets with_connectedWallets connectedWallets]; unfold delete.
  - now apply NoDup_keys_filter.
  - now apply Forall_keys_filter.
Qed.

Lemma sound_onTimeout (s : ServerState) (clock : Clock) :
  sound s ->
  sound (st (onTimeout Number_toString Math_pow s clock))
  /\ threw (onTimeout Number_toString Math_pow s clock) = false.
Proof.
  intros H. unfold onTimeout. destruct (timers s) as [|n]; [split; [exact H | reflexivity]|].
  apply sound_startMiningRound. revert H. apply sound_frame; reflexivity.
Qed.

Lemma sound_step (s : ServerState) (e : Event) :
  sound s -> sound (st (step Number_toString Math_pow s e)).
Proof.
  intros H. destruct e as [ws message clock | ws | clock | body]; cbn [step].
  - unfold onMessage. destruct (_ || _); [exact H|].
    assert (Hm : sound (st (handleMessage Number_toString Math_pow s ws message clock))).
    { unfold handleMessage.
      destruct (get message "type") as [[| | | |type| |]|]; try exact H.
      destruct (String.eqb type "pool:join"); [now apply sound_handlePoolJoin|].
      destruct (String.eqb type "solution:submit"); [|exact H].
      now apply sound_handleSolutionSubmit. }
    destruct (threw _); exact Hm.
  - now apply sound_onClose.
  - now apply sound_onTimeout.
  - now apply sound_submitTransaction.
Qed.

Lemma sound_run (events : list Event) :
  forall s, sound s -> sound (run Number_toString Math_pow s events).
Proof.
  induction events as [|e events IH]; intros s H; [exact H|].
  cbn [run fold_left].
  change (fold_left _ events ?x) with (run Number_toString Math_pow x events).
  apply IH, sound_step, H.
Qed.

Lemma sound_reachable (now : Z) (events : list Event) :
  sound (run Number_toString Math_pow (constructor Number_toString now) events).
Proof. apply sound_run, sound_constructor. Qed.

End Invariant.

(** ** What holds in every run *)

Section Runs.

Variable Number_toString : Q -> string.
Variable Math_pow : Q -> Q -> Q.

(** X8: no event of a run ends in an exception that leaves its handler.  The
    WebSocket callback catches what the message handlers throw; the timer
    callback that starts a round and the transaction route, which nothing
    guards, never throw: whenever a round is started the chain is not empty
    and the difficulty is an integer of at least 1 (numbers being taken
    finite, the values of [Math.pow] included). *)
Theorem no_event_throws (now : Z) (events : list Event) (e : Event) :
  threw (step Number_toString Math_pow
              (run Number_toString Math_pow (constructor Number_toString now) events) e)
  = false.
Proof.
  pose proof (sound_reachable Number_toString Math_pow now events) as H.
  destruct e as [ws message clock | ws | clock | body]; cbn [step].
  - unfold onMessage. destruct (_ || _); [reflexivity|].
    destruct (threw (handleMessage _ _ _ _ _ _)) eqn:E; [reflexivity | exact E].
  - unfold onClose. destruct (lookup_socket _ _); [|reflexivity].
    destruct (String.eqb _ _); reflexivity.
  - now apply sound_onTimeout.
  - unfold submitTransaction.
    repeat match goal with
           | |- context [if ?c then _ else _] => destruct c
           end; reflexivity.
Qed.

(** X9: in every run the round flag and the challenge go together: either no
    round is on and there is no challenge, or a round is on and the challenge
    carries the current difficulty, both in the challenge and in its
    template, at most 500 transactions and a reward between 0 and 50; and the
    difficulty is at least 1. *)
Theorem round_flag_and_challenge_agree (now : Z) (events : list Event) :
  let s := run Number_toString Math_pow (constructor Number_toString now) events in
  1 <= difficulty s /\ roundAgrees s.
Proof.
  pose proof (sound_reachable Number_toString Math_pow now events) as H.
  split; [apply (sound_difficulty _ H) | apply (sound_round _ H)].
Qed.

(** X10: in every run the pool holds at most 10000 pending transactions, and
    the set of processed ids holds at most 100000 ids, none of them twice. *)
Theorem pool_stays_bounded (now : Z) (events : list Event) :
  let s := run Number_toString Math_pow (constructor Number_toString now) events in
  Z.of_nat (List.length (pendingTransactions s)) <= MAX_PENDING_TRANSACTIONS
  /\ Z.of_nat (List.length (processedTxIds s)) <= 100000
  /\ NoDup (processedTxIds s).
Proof.
  pose proof (sound_reachable Number_toString Math_pow now events) as H.
  split; [apply (sound_pending _ H)|].
  split; [apply (sound_processed _ H) | apply (sound_distinct _ H)].
Qed.

(** X11: in every run the connected wallets are pairwise distinct addresses
    of the valid format. *)
Theorem members_are_distinct_addresses (now : Z) (events : list Event) :
  let s := run Number_toString Math_pow (constructor Number_toString now) events in
  NoDup (map fst (connectedWallets s))
  /\ Forall (fun a => isValidAddress (Some (JStr a)) = true) (map fst (connectedWallets s)).
Proof.
  pose proof (sound_reachable Number_toString Math_pow now events) as H.
  split; [apply (sound_members _ H) | apply (sound_addresses _ H)].
Qed.

(** X13: in every run the total supply is at least 0 and at most 50 for each
    block after the genesis block, as long as that bound is not above [2^53]
    (up to there every multiple of 50 is a double, and the rounded sums stay
    below it). *)
Theorem supply_stays_bounded (now : Z) (events : list Event) :
  let s := run Number_toString Math_pow (constructor Number_toString now) events in
  50 * (Z.of_nat (List.length (chain s)) - 1) <= 2 ^ 53 ->
  (0 <= totalSupply s)%Q
  /\ (totalSupply s <= 50 * inject_Z (Z.of_nat (List.length (chain s)) - 1))%Q.
Proof.
  intros s Hfit.
  destruct (sound_supply s (sound_reachable Number_toString Math_pow now events))
    as [Hlow Hhigh].
  split; [exact Hlow | exact (Hhigh Hfit)].
Qed.

End Runs.

(** ** A round that stays open

    The anonymous solution of C1, submitted over and over. *)

Lemma run_app (N : Q -> string) (pow : Q -> Q -> Q) (s : ServerState) (a b : list Event) :
  run N pow s (a ++ b) = run N pow (run N pow s a) b.
Proof. unfold run. apply fold_left_app. Qed.

Lemma anonymous_outcome :
  handleSolutionSubmit Number_toString_integer Sample.openedState 2 Sample.anonymousSolution
  = throw Sample.onceState [].
Proof. vm_compute. reflexivity. Qed.

Lemma anonymous_facts :
  exists challenge hashValue,
    currentChallenge Sample.openedState = Some challenge
    /\ t_reward (blockTemplate challenge) = 50%Q
    /\ t_transactions (blockTemplate challenge) = []
    /\ get Sample.anonymousSolution "hash"
       = Some (JStr (recomputedHash Number_toString_integer challenge Sample.anonymousSolution))
    /\ BigInt_hex (recomputedHash Number_toString_integer challenge Sample.anonymousSolution)
       = Some hashValue
    /\ (hashValue <? calculateTarget (inject_Z (difficulty Sample.openedState))) = true.
Proof.
  destruct (handleSolutionSubmit_cases Number_toString_integer Sample.openedState 2
                                       Sample.anonymousSolution)
    as [Ech Er | challenge Ech Hne Er | challenge v Ech Eh Ev Et Er
        | challenge v Ech Eh Ev Et Es Er | challenge v Ech Eh Ev Et Es Er];
    rewrite anonymous_outcome in Er.
  - apply (f_equal threw) in Er. discriminate Er.
  - apply (f_equal threw) in Er. discriminate Er.
  - apply (f_equal threw) in Er. discriminate Er.
  - exists challenge, v. repeat split; try assumption.
    + cbv in Ech. injection Ech as <-. reflexivity.
    + cbv in Ech. injection Ech as <-. reflexivity.
  - discriminate Es.
Qed.

Lemma anonymous_submit_step (pow : Q -> Q -> Q) (s : ServerState) :
  step Number_toString_integer pow s Sample.anonymousSubmit
  = (let r := handleSolutionSubmit Number_toString_integer s 2 Sample.anonymousSolution in
     if threw r
     then done (st r) (out r ++ [send 2 (error "Invalid message format")])
     else r).
Proof. reflexivity. Qed.

Lemma stuck_step (pow : Q -> Q -> Q) :
  exists block,
    reward_or_0 (b_reward block) = 50%Q
    /\ forall blocks supply,
        st (step Number_toString_integer pow (Sample.stuckRound blocks supply)
                 Sample.anonymousSubmit)
        = Sample.stuckRound (blocks ++ [block]) (double (supply + 50)).
Proof.
  destruct anonymous_facts as (challenge & v & Ech & Hreward & Htxs & Eh & Ev & Et).
  exists (with_hash (recomputedHash Number_toString_integer challenge Sample.anonymousSolution)
                    (candidate (blockTemplate challenge)
                               (get Sample.anonymousSolution "nonce")
                               (get Sample.anonymousSolution "walletAddress"))).
  split.
  { cbn [b_reward with_hash candidate]. rewrite Hreward. reflexivity. }
  intros blocks supply. rewrite anonymous_submit_step. cbv zeta.
  destruct (handleSolutionSubmit_cases Number_toString_integer
                                       (Sample.stuckRound blocks supply) 2
                                       Sample.anonymousSolution)
    as [Ech' Er | challenge' Ech' Hne Er | challenge' v' Ech' Eh' Ev' Et' Er
        | challenge' v' Ech' Eh' Ev' Et' Es Er | challenge' v' Ech' Eh' Ev' Et' Es Er];
    change (currentChallenge (Sample.stuckRound blocks supply))
      with (currentChallenge Sample.openedState) in Ech';
    rewrite Ech in Ech'; try discriminate Ech'; injection Ech' as <-.
  - contradiction.
  - rewrite Ev in Ev'. injection Ev' as <-.
    change (difficulty (Sample.stuckRound blocks supply))
      with (difficulty Sample.openedState) in Et'.
    rewrite Et in Et'. discriminate Et'.
  - rewrite Er. cbn [threw throw st done].
    unfold addBlock.
    cbn [b_reward b_transactions with_hash candidate]. rewrite Hreward, Htxs.
    reflexivity.
  - discriminate Es.
Qed.

Lemma repeated_run (N : Q -> string) (pow : Q -> Q -> Q)
      (family : list Block -> Q -> ServerState) (e : Event) (block : Block) (grow : Q -> Q) :
  (forall blocks supply,
      st (step N pow (family blocks supply) e) = family (blocks ++ [block]) (grow supply)) ->
  forall (n : nat) blocks supply,
    run N pow (family blocks supply) (repeat e n)
    = family (blocks ++ repeat block n) (Nat.iter n grow supply).
Proof.
  intros Hstep. induction n as [|n IH]; intros blocks supply.
  - cbn [repeat Nat.iter nat_rect]. rewrite app_nil_r. reflexivity.
  - cbn [repeat]. unfold run. cbn [fold_left]. fold (run N pow).
    change (fold_left _ (repeat e n) ?x) with (run N pow x (repeat e n)).
    rewrite Hstep, IH, <- app_assoc. cbn [app].
    rewrite Nat.iter_succ_r. reflexivity.
Qed.

(** Without the limit on its size the bound on the supply is lost in the end,
    in the embedding, whose chain may grow without end: a round that stays
    open pays 50 for every block, and past [2^57], some [3 * 10^15] blocks
    on, each of them raises the rounded supply by 64. *)
Lemma supply_outgrows_rewards :
  ~ (forall events,
        let s := run Number_toString_integer Sample.pow_unused
                     (constructor Number_toString_integer 1700000000000) events in
        (totalSupply s <= 50 * inject_Z (Z.of_nat (List.length (chain s)) - 1))%Q).
Proof.
  intros Hbound.
  destruct (stuck_step Sample.pow_unused) as (block & _ & Hstep).
  apply (outgrows (fun n => Nat.iter n (fun t => double (t + 50)) 0%Q));
    [reflexivity | reflexivity |].
  intros n.
  specialize (Hbound (Sample.joins ++ repeat Sample.anonymousSubmit n)).
  cbv zeta in Hbound. rewrite run_app in Hbound.
  change (constructor Number_toString_integer 1700000000000) with Sample.fresh in Hbound.
  rewrite fresh_state, joins_open in Hbound.
  change Sample.openedState
    with (Sample.stuckRound (chain Sample.openedState) 0%Q) in Hbound at 1 2.
  rewrite (repeated_run _ _ Sample.stuckRound _ block _ Hstep) in Hbound.
  cbn [totalSupply chain Sample.stuckRound with_chain] in Hbound.
  rewrite length_app, repeat_length in Hbound.
  change (List.length (chain Sample.openedState)) with 1%nat in Hbound.
  replace (Z.of_nat (1 + n) - 1) with (Z.of_nat n) in Hbound by lia.
  exact Hbound.
Qed.

Lemma once_run :
  run Number_toString_integer Sample.pow_unused
      (constructor Number_toString_integer 1700000000000)
      (Sample.joins ++ [Sample.anonymousSubmit])
  = Sample.onceState.
Proof.
  rewrite run_app.
  change (constructor Number_toString_integer 1700000000000) with Sample.fresh.
  rewrite fresh_state, joins_open. unfold run. cbn [fold_left].
  rewrite first_anonymous. reflexivity.
Qed.

Lemma supply_stays_bounded_witness :
  50 * (Z.of_nat (List.length
                    (chain (run Number_toString_integer Sample.pow_unused
                                (constructor Number_toString_integer 1700000000000)
                                (Sample.joins ++ [Sample.anonymousSubmit])))) - 1)
  <= 2 ^ 53
  /\ (0 <= totalSupply (run Number_toString_integer Sample.pow_unused
                            (constructor Number_toString_integer 1700000000000)
                            (Sample.joins ++ [Sample.anonymousSubmit])))%Q
  /\ (totalSupply (run Number_toString_integer Sample.pow_unused
                       (constructor Number_toString_integer 1700000000000)
                       (Sample.joins ++ [Sample.anonymousSubmit]))
      <= 50 * inject_Z
                (Z.of_nat (List.length
                             (chain (run Number_toString_integer Sample.pow_unused
                                         (constructor Number_toString_integer 1700000000000)
                                         (Sample.joins ++ [Sample.anonymousSubmit])))) - 1))%Q.
Proof.
  assert (H : 50 * (Z.of_nat (List.length
                                (chain (run Number_toString_integer Sample.pow_unused
                                            (constructor Number_toString_integer 1700000000000)
                                            (Sample.joins ++ [Sample.anonymousSubmit])))) - 1)
              <= 2 ^ 53).
  { rewrite once_run. vm_compute. discriminate. }
  split; [exact H|].
  exact (supply_stays_bounded Number_toString_integer Sample.pow_unused 1700000000000
                              (Sample.joins ++ [Sample.anonymousSubmit]) H).
Defined.

(** ** A round while it lasts *)

Section Rounds.

Variable Number_toString : Q -> string.
Variable Math_pow : Q -> Q -> Q.

Lemma startMiningRound_busy (s : ServerState) (clock : Clock) :
  miningInProgress s = true ->
  startMiningRound Number_toString Math_pow s clock = done s [].
Proof.
  intros H. unfold startMiningRound. rewrite H, orb_true_r. reflexivity.
Qed.

(** X14: while a round is on, no event replaces its challenge or changes the
    difficulty: a join, a close, a timer or a posted transaction leave the
    challenge and the chain as they are, and a submission either does the
    same or commits one block cut from the template of the challenge, after
    which the round is closed or, where the log line throws, still on with
    the same challenge. *)
Theorem round_is_stable (s : ServerState) (e : Event) (challenge : MiningChallenge) :
  currentChallenge s = Some challenge ->
  miningInProgress s = true ->
  let s' := st (step Number_toString Math_pow s e) in
  difficulty s' = difficulty s
  /\ (currentChallenge s' = Some challenge /\ miningInProgress s' = true
      \/ currentChallenge s' = None /\ miningInProgress s' = false /\ chain s' <> chain s)
  /\ (chain s' = chain s
      \/ exists nonce miner,
          let block := candidate (blockTemplate challenge) nonce miner in
          chain s' = chain s ++ [with_hash (calculateBlockHash Number_toString block) block]).
Proof.
  intros Hround Hflag. cbv zeta.
  assert (Hsame : forall s', difficulty s' = difficulty s ->
                             currentChallenge s' = currentChallenge s ->
                             miningInProgress s' = miningInProgress s ->
                             chain s' = chain s ->
            difficulty s' = difficulty s
            /\ (currentChallenge s' = Some challenge /\ miningInProgress s' = true
                \/ currentChallenge s' = None /\ miningInProgress s' = false
                   /\ chain s' <> chain s)
            /\ (chain s' = chain s
                \/ exists nonce miner,
                    let block := candidate (blockTemplate challenge) nonce miner in
                    chain s' = chain s
                               ++ [with_hash (calculateBlockHash Number_toString block) block])).
  { intros s' Hd Hc Hm Hch. rewrite Hc, Hm. auto. }
  assert (Hgrow : forall block : Block, chain s ++ [block] <> chain s).
  { intros block E. apply (f_equal (@List.length Block)) in E.
    rewrite length_app in E. cbn in E. lia. }
  destruct e as [ws message clock | ws | clock | body]; cbn [step].
  - unfold onMessage. destruct (_ || _); [now apply Hsame|].
    assert (Est : forall r : Result,
               st (if threw r
                   then done (st r) (out r ++ [send ws (error "Invalid message format")])
                   else r) = st r).
    { intros r. destruct (threw r); reflexivity. }
    rewrite Est. clear Est.
    unfold handleMessage.
    destruct (get message "type") as [[| | | |type| |]|]; try now apply Hsame.
    destruct (String.eqb type "pool:join").
    + unfold handlePoolJoin.
      destruct (negb (isValidAddress _)); [now apply Hsame|].
      destruct (get message "walletAddress") as [[| | | |addr| |]|]; try now apply Hsame.
      destruct (has addr (connectedWallets s)); [now apply Hsame|].
      cbn [setWalletAddress with_sockets with_connectedWallets miningInProgress].
      rewrite Hflag, andb_false_r. now apply Hsame.
    + destruct (String.eqb type "solution:submit"); [|now apply Hsame].
      destruct (handleSolutionSubmit_cases Number_toString s ws message)
        as [Ech Er | ch Ech Hne Er | ch v Ech Eh Ev Et Er
            | ch v Ech Eh Ev Et Es Er | ch v Ech Eh Ev Et Es Er];
        rewrite Er; [apply Hsame; reflexivity ..| |];
        assert (ch = challenge) by congruence; subst ch.
      * cbn [st throw]. split; [reflexivity|]. split; [left; auto|].
        right. exists (get message "nonce"), (get message "walletAddress").
        cbv zeta. rewrite chain_addBlock. reflexivity.
      * cbv zeta. cbn [st done].
        split; [destruct (canStartMining _); reflexivity|].
        split.
        -- right. destruct (canStartMining _);
             (split; [reflexivity|]; split; [reflexivity|]);
             cbn [chain with_round with_timers]; rewrite chain_addBlock; apply Hgrow.
        -- right. exists (get message "nonce"), (get message "walletAddress").
           destruct (canStartMining _); cbn [chain with_round with_timers];
             rewrite chain_addBlock; reflexivity.
  - unfold onClose. destruct (lookup_socket _ _); [|now apply Hsame].
    destruct (String.eqb _ _); now apply Hsame.
  - unfold onTimeout. destruct (timers s) as [|n]; [now apply Hsame|].
    rewrite startMiningRound_busy by exact Hflag. now apply Hsame.
  - unfold submitTransaction.
    repeat match goal with
           | |- context [if ?c then _ else _] => destruct c
           end; now apply Hsame.
Qed.

End Rounds.

Lemma round_is_stable_witness :
  match currentChallenge Sample.openedState with
  | Some challenge =>
      let s' := st (step Number_toString_integer Sample.pow_unused Sample.openedState
                         (ws_close 1)) in
      difficulty s' = difficulty Sample.openedState
      /\ (currentChallenge s' = Some challenge /\ miningInProgress s' = true
          \/ currentChallenge s' = None /\ miningInProgress s' = false
             /\ chain s' <> chain Sample.openedState)
      /\ (chain s' = chain Sample.openedState
          \/ exists nonce miner,
              let block := candidate (blockTemplate challenge) nonce miner in
              chain s' = chain Sample.openedState
                         ++ [with_hash (calculateBlockHash Number_toString_integer block) block])
  | None => False
  end.
Proof.
  destruct (currentChallenge Sample.openedState) as [challenge|] eqn:E;
    [|discriminate E].
  exact (round_is_stable Number_toString_integer Sample.pow_unused Sample.openedState
                         (ws_close 1) challenge E eq_refl).
Defined.

(** ** The client's nonce search *)

Section Mining.

Variable Number_toString : Q -> string.

Lemma mine_found (template : BlockTemplate) (d : Z) (address : string) :
  forall fuel start found,
    mine Number_toString fuel template d address start = Some found ->
    let hashAt := fun n => calculateBlockHash Number_toString
                             (candidate template (Some (JNum (inject_Z n)))
                                        (Some (JStr address))) in
    start <= fst found < start + Z.of_nat fuel
    /\ snd found = hashAt (fst found)
    /\ hashMeetsTarget (snd found) (inject_Z d) = Some true
    /\ forall n, start <= n < fst found -> hashMeetsTarget (hashAt n) (inject_Z d) = Some false.
Proof.
  induction fuel as [|fuel IH]; intros start found H; [discriminate H|].
  cbn [mine] in H. cbv zeta in *.
  destruct (hashMeetsTarget _ (inject_Z d)) as [[|]|] eqn:E; [| |discriminate H].
  - injection H as <-. cbn [fst snd]. split; [lia|]. split; [reflexivity|].
    split; [exact E|]. intros n Hn. lia.
  - destruct (IH _ _ H) as (Hrange & Hhash & Hmeets & Hbefore).
    split; [lia|]. split; [exact Hhash|]. split; [exact Hmeets|].
    intros n Hn. destruct (Z.eq_dec n start) as [->|Hne]; [exact E|].
    apply Hbefore. lia.
Qed.

(** X15: the solution the client's search sends is accepted, whichever
    connection sends it and whatever address it names.  When the search
    over the template of the live challenge, at the difficulty announced with
    it, ends with a nonce and a hash, that nonce is the first one from the
    start whose hash meets the target, and the coordinator, as long as its
    difficulty is the announced one, commits the block under that hash with
    the client's address as miner, announces it and closes the round. *)
Theorem mined_solution_is_accepted
        (s : ServerState) (ws : nat) (challenge : MiningChallenge)
        (fuel : nat) (address : string) (start : Z) (found : Z * string) :
  currentChallenge s = Some challenge ->
  difficulty s = c_difficulty challenge ->
  mine Number_toString fuel (blockTemplate challenge) (c_difficulty challenge) address start
  = Some found ->
  let hashAt := fun n => calculateBlockHash Number_toString
                           (candidate (blockTemplate challenge) (Some (JNum (inject_Z n)))
                                      (Some (JStr address))) in
  let block := with_hash (snd found)
                         (candidate (blockTemplate challenge)
                                    (Some (JNum (inject_Z (fst found))))
                                    (Some (JStr address))) in
  let r := handleSolutionSubmit Number_toString s ws (solutionMessage address found) in
  start <= fst found < start + Z.of_nat fuel
  /\ snd found = hashAt (fst found)
  /\ (forall n, start <= n < fst found ->
                hashMeetsTarget (hashAt n) (inject_Z (difficulty s)) = Some false)
  /\ threw r = false
  /\ out r = [broadcast (block_mined block (Some (JStr address)))]
  /\ chain (st r) = chain s ++ [block]
  /\ currentChallenge (st r) = None
  /\ miningInProgress (st r) = false.
Proof.
  intros Hround Hd Hmine. cbv zeta.
  destruct (mine_found _ _ _ _ _ _ Hmine) as (Hrange & Hhash & Hmeets & Hbefore).
  cbv zeta in Hhash, Hbefore. rewrite <- Hd in Hmeets, Hbefore.
  split; [exact Hrange|]. split; [exact Hhash|]. split; [exact Hbefore|].
  unfold handleSolutionSubmit. rewrite Hround.
  change (get (solutionMessage address found) "walletAddress") with (Some (JStr address)).
  change (get (solutionMessage address found) "nonce")
    with (Some (JNum (inject_Z (fst found)))).
  change (get (solutionMessage address found) "hash") with (Some (JStr (snd found))).
  rewrite <- Hhash, String.eqb_refl. cbn [negb]. rewrite Hmeets.
  cbn [has_slice negb].
  destruct (canStartMining _); cbn [st out threw done chain currentChallenge
                                    miningInProgress with_round with_timers];
    rewrite chain_addBlock; repeat split; reflexivity.
Qed.

End Mining.

Lemma mined_solution_is_accepted_witness :
  match currentChallenge Sample.openedState with
  | Some challenge =>
      let found := (0, "7cfbfe9bc8ca07e87f8e59d9b8625968dea337bf1d9f33612ef41baa2f6b6d4c") in
      mine Number_toString_integer 1 (blockTemplate challenge) (c_difficulty challenge)
           Sample.bob 0 = Some found
      /\ currentChallenge
           (st (handleSolutionSubmit Number_toString_integer Sample.openedState 2
                                     (solutionMessage Sample.bob found))) = None
  | None => False
  end.
Proof.
  destruct (currentChallenge Sample.openedState) as [challenge|] eqn:E;
    [|discriminate E].
  cbv zeta.
  assert (Hmine : mine Number_toString_integer 1 (blockTemplate challenge)
                       (c_difficulty challenge) Sample.bob 0
                  = Some (0, "7cfbfe9bc8ca07e87f8e59d9b8625968dea337bf1d9f33612ef41baa2f6b6d4c")).
  { injection E as <-. vm_compute. reflexivity. }
  split; [exact Hmine|].
  assert (Hd : difficulty Sample.openedState = c_difficulty challenge).
  { injection E as <-. reflexivity. }
  apply (mined_solution_is_accepted Number_toString_integer Sample.openedState 2 challenge
                                    1 Sample.bob 0 _ E Hd Hmine).
Defined.

(** ** A connection that joins twice *)

Lemma has_app {A : Type} (k : string) (m m' : list (string * A)) :
  has k (m ++ m') = has k m || has k m'.
Proof. unfold has. apply existsb_app. Qed.

Lemma has_delete_other {A : Type} (k x : string) (m : list (string * A)) :
  k <> x -> has k (delete x m) = has k m.
Proof.
  intros Hne. unfold has, delete. induction m as [|p m IH]; [reflexivity|].
  cbn [filter existsb]. destruct (String.eqb_spec x (fst p)) as [E|E]; cbn [negb].
  - rewrite IH. destruct (String.eqb_spec k (fst p)); [congruence | reflexivity].
  - cbn [existsb]. now rewrite IH.
Qed.

Lemma lookup_socket_In (ws : nat) (m : list (nat * string)) (a : string) :
  lookup_socket ws m = Some a -> In (ws, a) m.
Proof.
  induction m as [|[ws' a'] m IH]; cbn [lookup_socket]; [discriminate|].
  destruct (Nat.eqb_spec ws ws') as [->|Hne].
  - intros H. injection H as ->. now left.
  - intros H. right. auto.
Qed.

Lemma stranded_frame (a : string) (s s' : ServerState) :
  connectedWallets s' = connectedWallets s -> sockets s' = sockets s ->
  stranded a s -> stranded a s'.
Proof. unfold stranded. intros -> ->. auto. Qed.

Section Stranded.

Variable Number_toString : Q -> string.
Variable Math_pow : Q -> Q -> Q.

Lemma adjustDifficulty_membership (s : ServerState) (now : Z) :
  connectedWallets (adjustDifficulty Math_pow s now) = connectedWallets s
  /\ sockets (adjustDifficulty Math_pow s now) = sockets s.
Proof.
  rewrite adjustDifficulty_frame. split; reflexivity.
Qed.

Lemma startMiningRound_membership (s : ServerState) (clock : Clock) :
  connectedWallets (st (startMiningRound Number_toString Math_pow s clock)) = connectedWallets s
  /\ sockets (st (startMiningRound Number_toString Math_pow s clock)) = sockets s.
Proof.
  unfold startMiningRound.
  destruct (negb (canStartMining s) || miningInProgress s); [split; reflexivity|].
  destruct (nth_error _ _);
    [destruct (difficulty _ =? 0)|];
    exact (adjustDifficulty_membership (with_round (currentChallenge s) true s)
                                       (adjustNow clock)).
Qed.

(** What an accepted join does to the membership. *)
Lemma join_membership (s : ServerState) (ws : nat) (a : string) (clock : Clock) :
  isValidAddress (Some (JStr a)) = true ->
  has a (connectedWallets s) = false ->
  let s' := st (step Number_toString Math_pow s (ws_message ws (joining a) clock)) in
  connectedWallets s' = connectedWallets s ++ [(a, (ws, joinedNow clock))]
  /\ sockets s' = (ws, a) :: filter (fun p => negb (Nat.eqb ws (fst p))) (sockets s).
Proof.
  intros Hvalid Hnew. cbv zeta. cbn [step]. unfold onMessage.
  change (negb (truthy (Some (joining a))) || negb (typeof_object (Some (joining a)))
          || negb (truthy (get (joining a) "type"))) with false.
  cbv iota.
  assert (Est : forall r : Result,
             st (if threw r
                 then done (st r) (out r ++ [send ws (error "Invalid message format")])
                 else r) = st r).
  { intros r. destruct (threw r); reflexivity. }
  rewrite Est.
  change (handleMessage Number_toString Math_pow s ws (joining a) clock)
    with (handlePoolJoin Number_toString Math_pow s ws (joining a) clock).
  rewrite (handlePoolJoin_accept Number_toString Math_pow s ws a clock Hvalid Hnew).
  cbv zeta. destruct (_ && _); [|split; reflexivity].
  cbn [st]. apply startMiningRound_membership.
Qed.

Lemma stranded_step (a : string) (s : ServerState) (e : Event) :
  stranded a s -> stranded a (st (step Number_toString Math_pow s e)).
Proof.
  intros H. destruct e as [ws message clock | ws | clock | body]; cbn [step].
  - unfold onMessage. destruct (_ || _); [exact H|].
    assert (Est : forall r : Result,
               st (if threw r
                   then done (st r) (out r ++ [send ws (error "Invalid message format")])
                   else r) = st r).
    { intros r. destruct (threw r); reflexivity. }
    rewrite Est. clear Est. unfold handleMessage.
    destruct (get message "type") as [[| | | |type| |]|]; try exact H.
    destruct (String.eqb type "pool:join").
    + unfold handlePoolJoin.
      destruct (negb (isValidAddress _)); [exact H|].
      destruct (get message "walletAddress") as [[| | | |addr| |]|]; try exact H.
      destruct (has addr (connectedWallets s)) eqn:Hnew; [exact H|].
      set (s1 := setWalletAddress ws addr _).
      assert (H1 : stranded a s1).
      { destruct H as [Hhas Hsockets]. split.
        - cbn [s1 setWalletAddress with_sockets with_connectedWallets connectedWallets].
          rewrite has_app, Hhas. reflexivity.
        - cbn [s1 setWalletAddress with_sockets with_connectedWallets sockets].
          constructor; [cbn [snd]; congruence|].
          apply Forall_forall. intros p Hp. apply filter_In in Hp.
          rewrite Forall_forall in Hsockets. apply Hsockets, Hp. }
      destruct (_ && _); [|exact H1].
      cbn [st]. revert H1. apply stranded_frame; apply startMiningRound_membership.
    + destruct (String.eqb type "solution:submit"); [|exact H].
      destruct (handleSolutionSubmit_cases Number_toString s ws message)
        as [Ech Er | ch Ech Hne Er | ch v Ech Eh Ev Et Er
            | ch v Ech Eh Ev Et Es Er | ch v Ech Eh Ev Et Es Er];
        rewrite Er; [exact H .. | |].
      * revert H. apply stranded_frame; reflexivity.
      * cbv zeta. destruct (canStartMining _); revert H; apply stranded_frame; reflexivity.
  - unfold onClose. destruct (lookup_socket ws (sockets s)) as [x|] eqn:Hx; [|exact H].
    destruct (String.eqb x EmptyString); [exact H|].
    destruct H as [Hhas Hsockets]. cbn [st done]. split.
    + cbn [with_sockets with_connectedWallets connectedWallets].
      rewrite has_delete_other; [exact Hhas|].
      apply lookup_socket_In in Hx. rewrite Forall_forall in Hsockets.
      intros ->. exact (Hsockets _ Hx eq_refl).
    + cbn [with_sockets with_connectedWallets sockets].
      apply Forall_forall. intros p Hp. apply filter_In in Hp.
      rewrite Forall_forall in Hsockets. apply Hsockets, Hp.
  - unfold onTimeout. destruct (timers s) as [|n]; [exact H|].
    assert (H1 : stranded a (with_timers n s)) by exact H.
    revert H1. apply stranded_frame; apply startMiningRound_membership.
  - unfold submitTransaction.
    repeat match goal with
           | |- context [if ?c then _ else _] => destruct c
           end; exact H.
Qed.

Lemma stranded_run (a : string) (events : list Event) :
  forall s, stranded a s -> stranded a (run Number_toString Math_pow s events).
Proof.
  induction events as [|e events IH]; intros s H; [exact H|].
  cbn [run fold_left].
  change (fold_left _ events ?x) with (run Number_toString Math_pow x events).
  apply IH, stranded_step, H.
Qed.

(** X16: a connection that joins under a second address leaves the first one
    registered for good.  Once one connection has joined under two distinct
    valid addresses, no later event, the closing of that connection included,
    takes the first address out of the pool, and every later join under it is
    turned down as already connected. *)
Theorem second_join_strands_first_address
        (s : ServerState) (ws : nat) (a b : string) (clockA clockB : Clock)
        (events : list Event) :
  isValidAddress (Some (JStr a)) = true ->
  isValidAddress (Some (JStr b)) = true ->
  a <> b ->
  has a (connectedWallets s) = false ->
  has b (connectedWallets s) = false ->
  Forall (fun p => snd p <> a) (sockets s) ->
  let s' := run Number_toString Math_pow s
                (ws_message ws (joining a) clockA
                   :: ws_message ws (joining b) clockB :: events) in
  has a (connectedWallets s') = true
  /\ Forall (fun p => snd p <> a) (sockets s')
  /\ forall ws' clock,
      handlePoolJoin Number_toString Math_pow s' ws' (joining a) clock
      = done s' [send ws' (error "Wallet already connected")].
Proof.
  intros Ha Hb Hab HnewA HnewB Hsockets. cbv zeta.
  cbn [run fold_left].
  change (fold_left _ events ?x) with (run Number_toString Math_pow x events).
  destruct (join_membership s ws a clockA Ha HnewA) as [Hw1 Hs1]. cbv zeta in Hw1, Hs1.
  set (s1 := st (step Number_toString Math_pow s (ws_message ws (joining a) clockA))) in *.
  assert (HnewB1 : has b (connectedWallets s1) = false).
  { rewrite Hw1, has_app, HnewB. apply has_single. exact Hab. }
  destruct (join_membership s1 ws b clockB Hb HnewB1) as [Hw2 Hs2]. cbv zeta in Hw2, Hs2.
  set (s2 := st (step Number_toString Math_pow s1 (ws_message ws (joining b) clockB))) in *.
  assert (H2 : stranded a s2).
  { split.
    - rewrite Hw2, Hw1, !has_app. cbn [has existsb fst].
      rewrite String.eqb_refl, HnewA. reflexivity.
    - rewrite Hs2, Hs1. constructor; [cbn [snd]; congruence|].
      cbn [filter fst]. rewrite Nat.eqb_refl. cbn [negb].
      apply Forall_forall. intros p Hp. apply filter_In in Hp. destruct Hp as [Hp _].
      apply filter_In in Hp. rewrite Forall_forall in Hsockets. apply Hsockets, Hp. }
  destruct (stranded_run a events s2 H2) as [Hhas Hheld].
  split; [exact Hhas|]. split; [exact Hheld|].
  intros ws' clock. unfold handlePoolJoin.
  change (get (joining a) "walletAddress") with (Some (JStr a)).
  rewrite Ha, Hhas. reflexivity.
Qed.

End Stranded.

Lemma second_join_strands_first_address_witness :
  let s' := run Number_toString_integer Sample.pow_unused Sample.freshState
                [ ws_message 1 (joining Sample.alice) (Sample.clockAt 1700000001000);
                  ws_message 1 (joining Sample.bob) (Sample.clockAt 1700000002000);
                  ws_close 1 ] in
  has Sample.alice (connectedWallets s') = true
  /\ Forall (fun p => snd p <> Sample.alice) (sockets s')
  /\ forall ws' clock,
      handlePoolJoin Number_toString_integer Sample.pow_unused s' ws' (joining Sample.alice) clock
      = done s' [send ws' (error "Wallet already connected")].
Proof.
  assert (Hab : Sample.alice <> Sample.bob) by discriminate.
  exact (second_join_strands_first_address
           Number_toString_integer Sample.pow_unused Sample.freshState 1
           Sample.alice Sample.bob (Sample.clockAt 1700000001000)
           (Sample.clockAt 1700000002000) [ws_close 1]
           eq_refl eq_refl Hab eq_refl eq_refl (Forall_nil _)).
Defined.

(** ** Replay of a mined transaction *)

Lemma add_length (x : string) (ids : list string) :
  (List.length (add x ids) <= S (List.length ids))%nat.
Proof.
  unfold add. destruct (includes ids x); [lia|]. rewrite length_app. cbn. lia.
Qed.

Lemma fold_add_length (mined : list string) :
  forall ids, (List.length (fold_left (fun ids id => add id ids) mined ids)
               <= List.length mined + List.length ids)%nat.
Proof.
  induction mined as [|x mined IH]; intros ids; cbn [fold_left List.length]; [lia|].
  pose proof (IH (add x ids)). pose proof (add_length x ids). lia.
Qed.

Section Replay.

Variable Number_toString : Q -> string.

(** X17: a transaction that was mined cannot be posted again.  When a block
    is added and the processed ids, those of the block included, stay within
    100000, a valid transaction whose id is among the ids of the block is
    refused as a replay without any change, and no transaction with that id
    is left in the pool. *)
Theorem mined_transaction_is_not_replayed (s : ServerState) (block : Block) (tx : json) :
  Z.of_nat (List.length (processedTxIds s)) + Z.of_nat (List.length (b_transactions block))
  <= 100000 ->
  valid (validateTransaction Number_toString tx) = true ->
  In (sha256 (JSON_stringify Number_toString (payload tx))) (map tx_id (b_transactions block)) ->
  let s' := addBlock s block in
  (forall t, In t (pendingTransactions s') ->
             tx_id t <> sha256 (JSON_stringify Number_toString (payload tx)))
  /\ submitTransaction Number_toString s' tx
     = done s' [respond 400 false "Transaction already processed (possible replay attack)"].
Proof.
  intros Hroom Hvalid Hmined. cbv zeta. split.
  - intros t Ht E. unfold addBlock in Ht. cbn [pendingTransactions with_pool with_chain] in Ht.
    apply filter_In in Ht. destruct Ht as [_ Ht]. apply negb_true_iff in Ht.
    rewrite E in Ht. apply includes_In in Hmined. congruence.
  - apply replay_of_processed_rejected; [exact Hvalid|].
    unfold addBlock. cbn [processedTxIds with_pool with_chain].
    pose proof (fold_add_length (map tx_id (b_transactions block)) (processedTxIds s)) as Hlen.
    rewrite length_map in Hlen.
    destruct (Z.ltb_spec 100000
                (Z.of_nat (List.length
                             (fold_left (fun ids id => add id ids)
                                        (map tx_id (b_transactions block))
                                        (processedTxIds s))))) as [Hover|_]; [lia|].
    apply includes_In, fold_add_In. now left.
Qed.

End Replay.

Lemma mined_transaction_is_not_replayed_witness :
  let block := mkBlock 1 1700000002000 EmptyString EmptyString None 1 None
                       [Sample.admitted] (Some 50%Q) EmptyString in
  let s' := addBlock Sample.postedOnce block in
  (forall t, In t (pendingTransactions s') ->
             tx_id t <> sha256 (JSON_stringify Number_toString_integer (payload Sample.payment)))
  /\ submitTransaction Number_toString_integer s' Sample.payment
     = done s' [respond 400 false "Transaction already processed (possible replay attack)"].
Proof.
  assert (Hroom : Z.of_nat (List.length (processedTxIds Sample.postedOnce))
                  + Z.of_nat (List.length [Sample.admitted]) <= 100000)
    by (cbn; lia).
  assert (Hid : sha256 (JSON_stringify Number_toString_integer (payload Sample.payment))
                = tx_id Sample.admitted) by exact payment_signed.
  assert (Hvalid : valid (validateTransaction Number_toString_integer Sample.payment) = true).
  { unfold validateTransaction.
    change (get Sample.payment "signature")
      with (Some (JObj [("messageHash", JStr (tx_id Sample.admitted))])).
    change (get Sample.payment "senderPublicKey") with (Some (JStr "02a1b2c3")).
    unfold verify. cbn [get lookup String.eqb Ascii.eqb Bool.eqb].
    rewrite Hid, String.eqb_refl. reflexivity. }
  assert (Hmined : In (sha256 (JSON_stringify Number_toString_integer (payload Sample.payment)))
                      (map tx_id [Sample.admitted])) by (left; symmetry; exact Hid).
  exact (mined_transaction_is_not_replayed
           Number_toString_integer Sample.postedOnce
           (mkBlock 1 1700000002000 EmptyString EmptyString None 1 None
                    [Sample.admitted] (Some 50%Q) EmptyString)
           Sample.payment Hroom Hvalid Hmined).
Defined.

(** ** The reward schedule *)

(** X18: the block reward never grows with the height: it is 50 at most, 0 at
    least, no larger at a greater height, and exactly 0 from 1024 halvings
    on, where [Math.pow(2, halvings)] is infinite. *)
Theorem reward_never_grows (lower higher : Z) :
  0 <= lower <= higher ->
  (blockRewardAt higher <= blockRewardAt lower)%Q
  /\ (0 <= blockRewardAt higher)%Q
  /\ (blockRewardAt lower <= 50)%Q
  /\ (1024 * PROTOCOL.HALVING_INTERVAL <= higher -> blockRewardAt higher = 0%Q).
Proof.
  intros [Hlow Hle].
  pose proof (blockRewardAt_bounds lower Hlow) as [Hl0 Hl50].
  pose proof (blockRewardAt_bounds higher ltac:(lia)) as [Hh0 Hh50].
  split; [|split; [exact Hh0 | split; [exact Hl50|]]].
  - unfold blockRewardAt in *.
    assert (Hdiv : lower / PROTOCOL.HALVING_INTERVAL <= higher / PROTOCOL.HALVING_INTERVAL)
      by (apply Z.div_le_mono; [reflexivity | exact Hle]).
    assert (Hpos : 0 <= lower / PROTOCOL.HALVING_INTERVAL)
      by (apply Z.div_pos; [exact Hlow | reflexivity]).
    destruct (Z.ltb_spec (higher / PROTOCOL.HALVING_INTERVAL) 1024) as [Hh|Hh];
      [|exact Hl0].
    destruct (Z.ltb_spec (lower / PROTOCOL.HALVING_INTERVAL) 1024) as [_|Hl]; [|lia].
    pose proof (Z.pow_le_mono_r 2 _ _ ltac:(lia) Hdiv) as Hpow.
    pose proof (Z.pow_pos_nonneg 2 _ ltac:(lia) Hpos) as Hp.
    destruct (2 ^ (lower / PROTOCOL.HALVING_INTERVAL)) as [|p|p]; try lia.
    destruct (2 ^ (higher / PROTOCOL.HALVING_INTERVAL)) as [|q|q]; try lia.
    unfold PROTOCOL.INITIAL_BLOCK_REWARD, Qle, Qdiv, Qmult, Qinv, inject_Z.
    cbn [Qnum Qden]. lia.
  - intros Hfar. unfold blockRewardAt.
    assert (1024 <= higher / PROTOCOL.HALVING_INTERVAL)
      by (apply Z.div_le_lower_bound; [reflexivity | lia]).
    destruct (Z.ltb_spec (higher / PROTOCOL.HALVING_INTERVAL) 1024); [lia | reflexivity].
Qed.

Lemma reward_never_grows_witness :
  (blockRewardAt 210000 <= blockRewardAt 0)%Q
  /\ (0 <= blockRewardAt 210000)%Q
  /\ (blockRewardAt 0 <= 50)%Q
  /\ (1024 * PROTOCOL.HALVING_INTERVAL <= 210000 -> blockRewardAt 210000 = 0%Q).
Proof.
  assert (H : 0 <= 0 <= 210000) by lia.
  exact (reward_never_grows 0 210000 H).
Defined.

(** ** A run without the defect *)

Lemma polite_runs_keep_chain_linked_witness :
  chainLinked Number_toString_integer
    (chain (run Number_toString_integer Sample.pow_unused
                (constructor Number_toString_integer 1700000000000)
                (Sample.joins
                   ++ [ws_message 2 (Sample.solutionBy Sample.bob)
                                  (Sample.clockAt 1700000003000)]))).
Proof.
  assert (H : Forall polite
                     (Sample.joins
                        ++ [ws_message 2 (Sample.solutionBy Sample.bob)
                                       (Sample.clockAt 1700000003000)])).
  { unfold Sample.joins. cbn [app].
    constructor; [intros E; discriminate E|].
    constructor; [intros E; discriminate E|].
    constructor; [intros _; exists Sample.bob; reflexivity | constructor]. }
  exact (polite_runs_keep_chain_linked Number_toString_integer Sample.pow_unused
                                       1700000000000 _ H).
Defined.
